(** * fature-data-service-v2: the ETL engine and the analytics engine

    A shallow embedding of the JavaScript sources of the service, one module
    per source file, and the properties of the specification proved (or
    refuted) on it.

    - [Js]          : the fragment of JavaScript the sources rely on (values,
                      truthiness, exceptions, strings, numbers as binary64).
    - [Config]      : src/etl/config.js
    - [Extractor]   : src/etl/extractors/dataExtractor.js
    - [Loader]      : the DataLoader class (etl/loaders/dataLoader.js)
    - [Scheduler]   : the ETLScheduler class (etl/schedulers/etlScheduler.js)
    - [Model]       : src/models/dataModel.js and the table DDL
    - [Sync]        : syncExternalData of src/services/dataService.js
    - [Moment]      : the part of moment.js used by the services
    - [Analytics]   : the user analytics of src/services/dataService.js
    - [Transformer] : src/etl/transformers/dataTransformer.js
    - [FullExtraction], [TableLoad], [Pipeline], [Retry] : the extraction of
                      a whole table, the load of a table, the synchronisation
                      of a table with the jobs, and the connection with
                      retries
    - [Validation], [Helpers] : the rest of the transformer
    - [ModelQueries], [Periods], [Chunks] : the statements of the model with
                      optional filters, the periods of the analytics, and the
                      processing of a chunk of external rows *)

From Stdlib Require Import ZArith Floats String Ascii List Lia Bool.
From stdpp Require Import gmap strings list.

Local Open Scope string_scope.
Local Open Scope list_scope.
Local Open Scope Z_scope.

#[local] Set Warnings "-inexact-float".

(* ===================================================================== *)
(** * The JavaScript fragment *)
(* ===================================================================== *)

Module Js.

(** An exception value: [err_code] is the [code] property that node-postgres
    sets to the SQLSTATE of a database error; plain errors have none. *)
Record JsError := mkError {
  err_name : string;
  err_message : string;
  err_code : option string
}.

Definition TypeError (msg : string) : JsError := mkError "TypeError" msg None.
Definition PlainError (msg : string) : JsError := mkError "Error" msg None.
Definition PgError (sqlstate msg : string) : JsError :=
  mkError "error" msg (Some sqlstate).

(** The completion of a call: it returns a value or throws. *)
Inductive Completion (A : Type) : Type :=
| Return (a : A)
| Throw (e : JsError).
Arguments Return {A} a.
Arguments Throw {A} e.

#[export] Instance completion_ret : MRet Completion := fun A a => Return a.
#[export] Instance completion_bind : MBind Completion := fun A B k c =>
  match c with
  | Return a => k a
  | Throw e => Throw e
  end.

(** [try { c } catch (e) { h e }] *)
Definition try_catch {A} (c : Completion A) (h : JsError -> Completion A) : Completion A :=
  match c with
  | Return a => Return a
  | Throw e => h e
  end.

Definition returns {A} (c : Completion A) : bool :=
  match c with Return _ => true | Throw _ => false end.

(** Values that flow through rows and records. Numbers are IEEE-754
    binary64, as in the language; a [Date] holds its time value in
    milliseconds since the epoch, or nothing for an Invalid Date. *)
Inductive JsVal : Type :=
| JUndefined
| JNull
| JBool (b : bool)
| JNum (x : float)
| JStr (s : string)
| JDate (t : option Z).

(** ToBoolean *)
Definition truthy (v : JsVal) : bool :=
  match v with
  | JUndefined | JNull => false
  | JBool b => b
  | JNum x => negb (PrimFloat.eqb x 0%float || PrimFloat.is_nan x)
  | JStr s => negb (String.eqb s "")
  | JDate _ => true
  end.

(** [a || b] on values *)
Definition or_else (a b : JsVal) : JsVal := if truthy a then a else b.

(** A row or record: a plain object with string keys. *)
Abbreviation Obj := (gmap string JsVal).

(** [o[k]]: a missing property reads as [undefined]. *)
Definition get (o : Obj) (k : string) : JsVal := default JUndefined (o !! k).

Definition hasOwnProperty (o : Obj) (k : string) : bool := bool_decide (is_Some (o !! k)).

(** ** Strings

    Strings are sequences of 8-bit code units; the functions below agree
    with their JavaScript namesakes on ASCII text. *)

(** WhiteSpace and LineTerminator code units: TAB, LF, VT, FF, CR, SPACE. *)
Definition isWhiteSpace (c : ascii) : bool :=
  let n := nat_of_ascii c in
  ((9 <=? n) && (n <=? 13))%nat || (n =? 32)%nat.

Fixpoint trimStart (s : string) : string :=
  match s with
  | String c rest => if isWhiteSpace c then trimStart rest else s
  | EmptyString => EmptyString
  end.

(** The string without its trailing white space. *)
Fixpoint trimEnd (s : string) : string :=
  match s with
  | EmptyString => EmptyString
  | String c rest =>
      match trimEnd rest with
      | EmptyString => if isWhiteSpace c then EmptyString else String c EmptyString
      | rest' => String c rest'
      end
  end.

Definition trim (s : string) : string := trimEnd (trimStart s).

Definition lowerChar (c : ascii) : ascii :=
  let n := nat_of_ascii c in
  if ((65 <=? n) && (n <=? 90))%nat then ascii_of_nat (n + 32) else c.

Fixpoint toLowerCase (s : string) : string :=
  match s with
  | EmptyString => EmptyString
  | String c rest => String (lowerChar c) (toLowerCase rest)
  end.

(** [s.startsWith(p)] *)
Definition startsWith (s p : string) : bool := String.prefix p s.

(** [s.includes(p)] *)
Fixpoint includes (s p : string) : bool :=
  startsWith s p ||
  match s with
  | EmptyString => false
  | String _ rest => includes rest p
  end.

(** [s.endsWith(p)] *)
Definition endsWith (s p : string) : bool :=
  let ls := String.length s in
  let lp := String.length p in
  (lp <=? ls)%nat && String.eqb (String.substring (ls - lp) lp s) p.

(** ** Numbers *)

Definition isNaN (x : float) : bool := PrimFloat.is_nan x.

(** The number of a count (an array length). *)
Definition ofNat (n : nat) : float := PrimFloat.of_uint63 (Uint63.of_Z (Z.of_nat n)).

(** The binary64 nearest to [n / d] (ties to even). *)
Definition roundRatio (n d : positive) : spec_float :=
  let s := Z.max 0 (Z.log2 (Zpos d) - Z.log2 (Zpos n) + 55) in
  let q := (Zpos n * 2 ^ s) / Zpos d in
  let r := (Zpos n * 2 ^ s) mod Zpos d in
  let l := if r =? 0 then loc_Exact else loc_Inexact (Z.compare (2 * r) (Zpos d)) in
  binary_round_aux prec emax false q (- s) l.

(** The binary64 nearest to [m * 10 ^ e]. *)
Definition decimalToFloat (m : N) (e : Z) : float :=
  match m with
  | N0 => 0%float
  | Npos p =>
      if 0 <=? e then SF2Prim (binary_normalize prec emax (Zpos p * 10 ^ e) 0 false)
      else SF2Prim (roundRatio p (Z.to_pos (10 ^ (- e))))
  end.

Definition isDigit (c : ascii) : bool :=
  let n := nat_of_ascii c in ((48 <=? n) && (n <=? 57))%nat.

Definition digitValue (c : ascii) : N := N.of_nat (nat_of_ascii c - 48).

(** The leading decimal digits of a string: their value, their number, and
    the rest of the string. *)
Fixpoint takeDigits (s : string) (acc : N) (count : nat) : N * nat * string :=
  match s with
  | String c rest =>
      if isDigit c then takeDigits rest (acc * 10 + digitValue c)%N (S count)
      else (acc, count, s)
  | EmptyString => (acc, count, s)
  end.

(** The exponent part [e±ddd] at the head of a string, when well formed. *)
Definition takeExponent (s : string) : Z :=
  match s with
  | String c rest =>
      if (Ascii.eqb c "e" || Ascii.eqb c "E")%char then
        let '(negative, digits) :=
          match rest with
          | String "-" r => (true, r)
          | String "+" r => (false, r)
          | _ => (false, rest)
          end in
        let '(v, count, _) := takeDigits digits 0%N 0%nat in
        if (count =? 0)%nat then 0
        else if negative then - Z.of_N v else Z.of_N v
      else 0
  | EmptyString => 0
  end.

(** [parseFloat] on a string: leading white space is skipped, the longest
    prefix that is a decimal literal (or [Infinity]) is read, and the rest
    is ignored; without such a prefix the result is [NaN]. *)
Definition parseFloatString (s : string) : float :=
  let s := trimStart s in
  let '(negative, body) :=
    match s with
    | String "-" r => (true, r)
    | String "+" r => (false, r)
    | _ => (false, s)
    end in
  let signed (x : float) := if negative then (- x)%float else x in
  if startsWith body "Infinity" then signed infinity
  else
    let '(intValue, intCount, afterInt) := takeDigits body 0%N 0%nat in
    let '(value, fracCount, afterFrac) :=
      match afterInt with
      | String "." r => takeDigits r intValue 0%nat
      | _ => (intValue, 0%nat, afterInt)
      end in
    if ((intCount + fracCount) =? 0)%nat then nan
    else signed (decimalToFloat value (takeExponent afterFrac - Z.of_nat fracCount)).

(** [parseFloat(v)]: the argument is first converted to a string. A number
    prints to a literal that reads back as itself (the sign of zero is
    lost); [true], [null], [undefined] and dates print to text that is no
    number. *)
Definition parseFloat (v : JsVal) : float :=
  match v with
  | JStr s => parseFloatString s
  | JNum x => (x + 0)%float
  | JUndefined | JNull | JBool _ | JDate _ => nan
  end.

(** Decimal digits of a natural number, most significant first. *)
Fixpoint digitsFrom (fuel : nat) (n : N) (acc : string) : string :=
  match fuel with
  | O => acc
  | S fuel' =>
      let acc' := String (ascii_of_N (48 + n mod 10)) acc in
      if (n / 10 =? 0)%N then acc' else digitsFrom fuel' (n / 10)%N acc'
  end.

Definition digitsOf (n : N) : string := digitsFrom (S (N.to_nat (N.log2 n))) n "".

Fixpoint zeros (k : nat) : string :=
  match k with O => "" | S k' => String "0" (zeros k') end.

(** [n / 10^f] written with exactly [f] decimals. *)
Definition fixedNotation (n : N) (f : nat) : string :=
  let m := digitsOf n in
  let m := if (String.length m <=? f)%nat
           then (zeros (S f - String.length m) ++ m)%string else m in
  if (f =? 0)%nat then m
  else
    let k := String.length m in
    (String.substring 0 (k - f) m ++ "." ++ String.substring (k - f) f m)%string.

(** [x.toFixed(f)]: the decimal nearest to [x] with [f] decimals, the
    larger one on a tie. Magnitudes from 1e21 on, which print in exponent
    notation, are outside this model ([None]). *)
Definition toFixed (x : float) (f : nat) : option string :=
  match Prim2SF x with
  | S754_nan => Some "NaN"
  | S754_infinity s => Some (if s then "-Infinity" else "Infinity")
  | S754_zero _ => Some (fixedNotation 0 f)
  | S754_finite s m e =>
      let scaled := Zpos m * 10 ^ Z.of_nat f in
      let n := if 0 <=? e then scaled * 2 ^ e
               else (2 * scaled + 2 ^ (- e)) / 2 ^ (- e + 1) in
      let large := if 0 <=? e then 10 ^ 21 <=? Zpos m * 2 ^ e
                   else 10 ^ 21 * 2 ^ (- e) <=? Zpos m in
      if large then None
      else Some ((if s then "-" else "") ++ fixedNotation (Z.to_N n) f)%string
  end.

End Js.

Import Js.

(* ===================================================================== *)
(** * ETLConfig (src/etl/config.js) *)
(* ===================================================================== *)

Module Config.

(** One filter of a table descriptor: a list ([IN]), an object of
    operator/value pairs, or a scalar ([=]). *)
Inductive FilterCond :=
| FList (vs : list JsVal)
| FOps (ops : list (string * JsVal))
| FScalar (v : JsVal).

(** One entry of [transformations]: a function of the current value and the
    source row, which may throw, or a value that is not a function. *)
Inductive TransformEntry :=
| TFunction (f : JsVal -> Obj -> Completion JsVal)
| TNotAFunction.

Record Validations := {
  v_required : option (list string);
  v_email : option string;
  v_numeric : option (list string);
  v_positive : option (list string);
  v_maxLength : option (list (string * N));
  v_unique : option (list string)
}.

(** A table descriptor. Object literals of the configuration keep the order
    in which their properties are written. *)
Record Mapping := {
  sourceTable : string;
  targetTable : string;
  primaryKey : string;
  incrementalField : option string;
  enabled : bool;
  filters : option (list (string * FilterCond));
  fieldMapping : list (string * string);
  transformations : option (list (string * TransformEntry));
  validations : option Validations
}.

Record ETLConfig := {
  general_batchSize : N;
  mappings : gmap string Mapping
}.

(** The [_etl_metadata] object the transformer attaches to an accepted
    record (its [transformed_at] timestamp is left out). *)
Record EtlMetadata := {
  source_table : string;
  target_table : string;
  source_id : JsVal
}.

(** A record as it travels from the transformer to the loader: its columns,
    and the two bookkeeping properties [_etl_metadata] and [_unique_fields]
    when they have been set. *)
Record EtlRecord := {
  rec_fields : Obj;
  rec_etl_metadata : option EtlMetadata;
  rec_unique_fields : option (list string)
}.

End Config.

Import Config.

(* ===================================================================== *)
(** * DataExtractor (src/etl/extractors/dataExtractor.js) *)
(* ===================================================================== *)

Module Extractor.

(** The [options] argument of [extractTable]; an absent property takes the
    default of the destructuring pattern. *)
Record Options := {
  opt_batchSize : option N;
  opt_offset : option N;
  opt_incrementalField : option string;
  opt_lastSyncTime : option JsVal;
  opt_filters : list (string * JsVal);
  opt_orderBy : option string
}.

(** A condition of the WHERE clause; every value is a bound parameter. *)
Inductive Condition :=
| CIn (field : string) (vs : list JsVal)
| COp (field op : string) (v : JsVal)
| CEq (field : string) (v : JsVal).

(** The statement built by [buildExtractQuery], by its clauses. *)
Record Query := {
  q_from : string;
  q_where : list Condition;
  q_orderBy : option string;
  q_limit : option N;
  q_offset : option N
}.

Definition filterConditions (f : string * FilterCond) : list Condition :=
  match f with
  | (field, FList vs) => [CIn field vs]
  | (field, FOps ops) => map (fun '(op, v) => COp field op v) ops
  | (field, FScalar v) => [CEq field v]
  end.

(** [if (batchSize)] and [if (offset)]: zero is falsy. *)
Definition nonzero (n : N) : option N := if (n =? 0)%N then None else Some n.

Definition buildExtractQuery (m : Mapping) (batchSize offset : N)
    (incrementalField : option string) (lastSyncTime : option JsVal)
    (extraFilters : list (string * JsVal)) (orderBy : option string) : Query :=
  let configured := concat (map filterConditions (default [] (filters m))) in
  let extra := map (fun '(field, v) => CEq field v) extraFilters in
  let incremental :=
    match incrementalField, lastSyncTime with
    | Some f, Some t => if truthy t && negb (String.eqb f "") then [COp f ">" t] else []
    | _, _ => []
    end in
  {| q_from := sourceTable m;
     q_where := configured ++ extra ++ incremental;
     q_orderBy := match orderBy with
                  | Some o => if String.eqb o "" then None else Some o
                  | None => None
                  end;
     q_limit := nonzero batchSize;
     q_offset := nonzero offset |}.

(** The source database as the extractor sees it: acquiring the pool and
    running a statement either succeed or throw. *)
Record SourceDb := {
  connect : Completion unit;
  query : Query -> Completion (list Obj)
}.

Record Metadata := {
  md_table : string;
  md_recordCount : nat;
  md_batchSize : N;
  md_offset : N;
  md_hasMore : bool
}.

(** The object [extractTable] resolves to: [success: true] with the rows and
    their metadata, or [success: false] with the message of the error. *)
Inductive ExtractResult :=
| ExtractOk (data : list Obj) (metadata : Metadata)
| ExtractFailed (error : string).

Definition effectiveBatchSize (cfg : ETLConfig) (o : Options) : N :=
  default (general_batchSize cfg) (opt_batchSize o).

Definition extractTable (cfg : ETLConfig) (db : SourceDb) (tableName : string)
    (o : Options) : ExtractResult :=
  let batchSize := effectiveBatchSize cfg o in
  let offset := default 0%N (opt_offset o) in
  let attempt :=
    _ ← connect db;
    mapping ← match mappings cfg !! tableName with
               | Some m => if enabled m then Return m
                           else Throw (PlainError "table not configured or disabled")
               | None => Throw (PlainError "table not configured or disabled")
               end;
    let q := buildExtractQuery mapping batchSize offset (opt_incrementalField o)
               (opt_lastSyncTime o) (opt_filters o) (opt_orderBy o) in
    rows ← query db q;
    Return (ExtractOk rows
      {| md_table := sourceTable mapping;
         md_recordCount := length rows;
         md_batchSize := batchSize;
         md_offset := offset;
         md_hasMore := (N.of_nat (length rows) =? batchSize)%N |}) in
  match attempt with
  | Return r => r
  | Throw e => ExtractFailed (err_message e)
  end.

(** ** Properties *)

Lemma extractTable_ok_inv cfg db tableName o data md :
  extractTable cfg db tableName o = ExtractOk data md ->
  md_batchSize md = effectiveBatchSize cfg o /\
  md_recordCount md = length data /\
  md_hasMore md = (N.of_nat (length data) =? effectiveBatchSize cfg o)%N.
Proof.
  unfold extractTable. destruct (connect db) as [[]|e]; simpl; [|discriminate].
  destruct (mappings cfg !! tableName) as [m|]; simpl; [|discriminate].
  destruct (enabled m); simpl; [|discriminate].
  destruct (query db _) as [rows|e]; simpl; [|discriminate].
  intros H. injection H as <- <-. simpl. auto.
Qed.

(** C5. For every table and every successful batch read with batch size N,
    the result reports [hasMore = true] exactly when the number of returned
    rows equals N, and [hasMore = false] whenever fewer than N rows are
    returned. *)
Theorem extractTable_hasMore cfg db tableName o data md :
  extractTable cfg db tableName o = ExtractOk data md ->
  (md_hasMore md = true <-> N.of_nat (length data) = effectiveBatchSize cfg o) /\
  ((N.of_nat (length data) < effectiveBatchSize cfg o)%N -> md_hasMore md = false).
Proof.
  intros H. apply extractTable_ok_inv in H as (_ & _ & ->). split.
  - apply N.eqb_eq.
  - intros Hlt. apply N.eqb_neq. lia.
Qed.

(** A two-row table read with batch size 2: the page is full. *)
Definition demo_mapping : Mapping :=
  {| sourceTable := "users"; targetTable := "affiliates"; primaryKey := "id";
     incrementalField := Some "updated_at"; enabled := true; filters := None;
     fieldMapping := [("id", "external_user_id")]; transformations := None;
     validations := None |}.

Definition demo_config : ETLConfig :=
  {| general_batchSize := 1000; mappings := {[ "users" := demo_mapping ]} |}.

Definition demo_rows : list Obj :=
  [ {[ "id" := JNum 1%float ]}; {[ "id" := JNum 2%float ]} ].

Definition demo_db : SourceDb :=
  {| connect := Return tt;
     query := fun q => Return (match q_limit q with
                               | Some n => take (N.to_nat n) demo_rows
                               | None => demo_rows
                               end) |}.

Definition demo_options : Options :=
  {| opt_batchSize := Some 2%N; opt_offset := None; opt_incrementalField := None;
     opt_lastSyncTime := None; opt_filters := []; opt_orderBy := Some "id" |}.

Definition demo_metadata : Metadata :=
  {| md_table := "users"; md_recordCount := 2; md_batchSize := 2; md_offset := 0;
     md_hasMore := true |}.

Lemma extractTable_hasMore_witness :
  (md_hasMore demo_metadata = true <->
     N.of_nat (length demo_rows) = effectiveBatchSize demo_config demo_options) /\
  ((N.of_nat (length demo_rows) < effectiveBatchSize demo_config demo_options)%N ->
     md_hasMore demo_metadata = false).
Proof.
  apply (extractTable_hasMore demo_config demo_db "users" demo_options
           demo_rows demo_metadata).
  vm_compute. reflexivity.
Defined.

End Extractor.

(* ===================================================================== *)
(** * DataLoader (etl/loaders/dataLoader.js) *)
(* ===================================================================== *)

Module Loader.

(** The statements the loader sends on its client. *)
Inductive Statement :=
| SBegin
| SCommit
| SRollback
| SSelectId (table keyField : string) (key : JsVal)
| SInsert (table : string) (record : Obj)
| SUpdate (table : string) (record : Obj) (id : JsVal).

Record ErrorEntry := {
  ee_table : string;
  ee_record : EtlRecord;
  ee_error : string
}.

Record Stats := {
  recordsLoaded : nat;
  recordsSkipped : nat;
  recordsUpdated : nat;
  recordsInserted : nat;
  errors : list ErrorEntry
}.

Definition emptyStats : Stats :=
  {| recordsLoaded := 0; recordsSkipped := 0; recordsUpdated := 0;
     recordsInserted := 0; errors := [] |}.

Section WithClient.

(** The target database is any state [Db] with an interpretation of the
    statements: each one answers with rows or throws, and moves the state. *)
Context {Db : Type}.
Variable poolConnect : Db -> Completion unit.
Variable exec : Statement -> Db -> Completion (list Obj) * Db.

(** What a load mutates: the database behind the client, the statements
    sent so far (in order), and the loader's [loadStats]. *)
Record St := {
  db : Db;
  issued : list Statement;
  loadStats : Stats
}.

Definition M (A : Type) : Type := St -> Completion A * St.

Definition ret {A} (a : A) : M A := fun st => (Return a, st).
Definition throw {A} (e : JsError) : M A := fun st => (Throw e, st).
Definition bindM {A B} (c : M A) (k : A -> M B) : M B := fun st =>
  match c st with
  | (Return a, st') => k a st'
  | (Throw e, st') => (Throw e, st')
  end.
Definition tryCatch {A} (c : M A) (h : JsError -> M A) : M A := fun st =>
  match c st with
  | (Return a, st') => (Return a, st')
  | (Throw e, st') => h e st'
  end.

Notation "'let*' x := c 'in' k" := (bindM c (fun x => k))
  (at level 10, x name, c at level 100, k at level 200).

(** [client.query(...)] *)
Definition query (s : Statement) : M (list Obj) := fun st =>
  let (r, db') := exec s (db st) in
  (r, {| db := db'; issued := issued st ++ [s]; loadStats := loadStats st |}).

Definition updStats (f : Stats -> Stats) : M unit := fun st =>
  (Return tt, {| db := db st; issued := issued st; loadStats := f (loadStats st) |}).

(** [result.rows[0].id]: reading [id] of a missing first row throws. *)
Definition firstRowId (rows : list Obj) : M JsVal :=
  match rows with
  | r :: _ => ret (get r "id")
  | [] => throw (TypeError "Cannot read properties of undefined (reading 'id')")
  end.

Definition keyFieldOf (m : Mapping) : string :=
  if String.eqb (targetTable m) "referrals" then "external_transaction_id"
  else if String.eqb (targetTable m) "bet_activities" then "external_bet_id"
  else "external_user_id".

Definition findExistingRecord (m : Mapping) (record : Obj) : M (option Obj) :=
  let keyField := keyFieldOf m in
  if negb (truthy (get record keyField)) then ret None
  else
    let* rows := query (SSelectId (targetTable m) keyField (get record keyField)) in
    ret (head rows).

Definition insertRecord (m : Mapping) (record : Obj) : M JsVal :=
  let* rows := query (SInsert (targetTable m) record) in
  firstRowId rows.

Definition updateRecord (m : Mapping) (record existing : Obj) : M JsVal :=
  let* rows := query (SUpdate (targetTable m) record (get existing "id")) in
  firstRowId rows.

(** The [try] block of [loadRecord]. *)
Definition attemptRecord (m : Mapping) (record : EtlRecord) : M unit :=
  let cleanRecord := rec_fields record in
  let* existingRecord := findExistingRecord m cleanRecord in
  let* _ :=
    match existingRecord with
    | Some existing =>
        let* _ := updateRecord m cleanRecord existing in
        updStats (fun s => {| recordsLoaded := recordsLoaded s;
                              recordsSkipped := recordsSkipped s;
                              recordsUpdated := S (recordsUpdated s);
                              recordsInserted := recordsInserted s;
                              errors := errors s |})
    | None =>
        let* _ := insertRecord m cleanRecord in
        updStats (fun s => {| recordsLoaded := recordsLoaded s;
                              recordsSkipped := recordsSkipped s;
                              recordsUpdated := recordsUpdated s;
                              recordsInserted := S (recordsInserted s);
                              errors := errors s |})
    end in
  updStats (fun s => {| recordsLoaded := S (recordsLoaded s);
                        recordsSkipped := recordsSkipped s;
                        recordsUpdated := recordsUpdated s;
                        recordsInserted := recordsInserted s;
                        errors := errors s |}).

Definition isUniqueViolation (e : JsError) : bool :=
  match err_code e with
  | Some c => String.eqb c "23505"
  | None => false
  end.

(** The [catch] block of [loadRecord]. *)
Definition onRecordError (m : Mapping) (record : EtlRecord) (error : JsError) : M unit :=
  let* _ := updStats (fun s =>
    {| recordsLoaded := recordsLoaded s;
       recordsSkipped := recordsSkipped s;
       recordsUpdated := recordsUpdated s;
       recordsInserted := recordsInserted s;
       errors := errors s ++ [ {| ee_table := targetTable m; ee_record := record;
                                  ee_error := err_message error |} ] |}) in
  if isUniqueViolation error then
    updStats (fun s => {| recordsLoaded := recordsLoaded s;
                          recordsSkipped := S (recordsSkipped s);
                          recordsUpdated := recordsUpdated s;
                          recordsInserted := recordsInserted s;
                          errors := errors s |})
  else throw error.

Definition loadRecord (m : Mapping) (record : EtlRecord) : M unit :=
  tryCatch (attemptRecord m record) (onRecordError m record).

(** [for (const record of batch) await this.loadRecord(client, mapping, record)] *)
Fixpoint loadRecords (m : Mapping) (batch : list EtlRecord) : M unit :=
  match batch with
  | [] => ret tt
  | record :: rest => let* _ := loadRecord m record in loadRecords m rest
  end.

(** [loadBatch]: the pool hands out a client (outside the [try]); releasing
    it in the [finally] block has no effect on the state modelled here. *)
Definition loadBatch (m : Mapping) (batch : list EtlRecord) : M unit := fun st =>
  match poolConnect (db st) with
  | Throw e => (Throw e, st)
  | Return _ =>
      tryCatch
        (let* _ := query SBegin in
         let* _ := loadRecords m batch in
         let* _ := query SCommit in
         ret tt)
        (fun error => let* _ := query SRollback in throw error) st
  end.

(** ** How a row ends *)

(** A row is loaded, skipped (its attempt threw SQLSTATE 23505) or fatal
    (its attempt threw anything else). *)
Inductive RowOutcome :=
| RowLoaded
| RowSkipped
| RowFatal (e : JsError).

Definition classify (c : Completion unit) : RowOutcome :=
  match c with
  | Return _ => RowLoaded
  | Throw e => if isUniqueViolation e then RowSkipped else RowFatal e
  end.

Definition settled (o : RowOutcome) : bool :=
  match o with RowFatal _ => false | _ => true end.

Definition isSkipped (o : RowOutcome) : bool :=
  match o with RowSkipped => true | _ => false end.

Definition isLoaded (o : RowOutcome) : bool :=
  match o with RowLoaded => true | _ => false end.

(** The outcomes of the rows of a batch, in order, as the loop meets them:
    nothing is attempted after a fatal row. *)
Fixpoint rowOutcomes (m : Mapping) (batch : list EtlRecord) (st : St) : list RowOutcome :=
  match batch with
  | [] => []
  | record :: rest =>
      let o := classify (fst (attemptRecord m record st)) in
      o :: (if settled o then rowOutcomes m rest (snd (loadRecord m record st)) else [])
  end.

(** The statements sent between two states. *)
Definition sentSince (st st' : St) : list Statement :=
  drop (length (issued st)) (issued st').

Definition isRowStatement (s : Statement) : bool :=
  match s with
  | SBegin | SCommit | SRollback => false
  | _ => true
  end.

(** ** Row-level statements only *)

(** A computation that sends nothing but SELECT/INSERT/UPDATE. *)
Definition rowOnly {A} (c : M A) : Prop :=
  forall st, exists new,
    issued (snd (c st)) = issued st ++ new /\ forallb isRowStatement new = true.

Lemma rowOnly_ret {A} (a : A) : rowOnly (ret a).
Proof. intros st. exists []. simpl. by rewrite app_nil_r. Qed.

Lemma rowOnly_throw {A} e : rowOnly (@throw A e).
Proof. intros st. exists []. simpl. by rewrite app_nil_r. Qed.

Lemma rowOnly_updStats f : rowOnly (updStats f).
Proof. intros st. exists []. simpl. by rewrite app_nil_r. Qed.

Lemma rowOnly_query s : isRowStatement s = true -> rowOnly (query s).
Proof.
  intros Hs st. exists [s]. unfold query. destruct (exec s (db st)) as [r db'].
  simpl. by rewrite Hs.
Qed.

Lemma rowOnly_bind {A B} (c : M A) (k : A -> M B) :
  rowOnly c -> (forall a, rowOnly (k a)) -> rowOnly (bindM c k).
Proof.
  intros Hc Hk st. unfold bindM. destruct (Hc st) as (n1 & E1 & F1).
  destruct (c st) as [[a|e] st1]; simpl in *.
  - destruct (Hk a st1) as (n2 & E2 & F2). exists (n1 ++ n2).
    rewrite E2, E1, forallb_app, F1, F2. by rewrite app_assoc.
  - by exists n1.
Qed.

Lemma rowOnly_tryCatch {A} (c : M A) (h : JsError -> M A) :
  rowOnly c -> (forall e, rowOnly (h e)) -> rowOnly (tryCatch c h).
Proof.
  intros Hc Hh st. unfold tryCatch. destruct (Hc st) as (n1 & E1 & F1).
  destruct (c st) as [[a|e] st1]; simpl in *.
  - by exists n1.
  - destruct (Hh e st1) as (n2 & E2 & F2). exists (n1 ++ n2).
    rewrite E2, E1, forallb_app, F1, F2. by rewrite app_assoc.
Qed.

Lemma rowOnly_firstRowId rows : rowOnly (firstRowId rows).
Proof. destruct rows; [apply rowOnly_throw | apply rowOnly_ret]. Qed.

Lemma rowOnly_attemptRecord m record : rowOnly (attemptRecord m record).
Proof.
  unfold attemptRecord, findExistingRecord, updateRecord, insertRecord.
  repeat first
    [ apply rowOnly_bind; [|intros ?]
    | apply rowOnly_updStats
    | apply rowOnly_ret
    | apply rowOnly_firstRowId
    | apply rowOnly_query; reflexivity
    | match goal with |- rowOnly (if ?b then _ else _) => destruct b end
    | match goal with |- rowOnly (match ?x with Some _ => _ | None => _ end) => destruct x end ].
Qed.

Lemma rowOnly_loadRecord m record : rowOnly (loadRecord m record).
Proof.
  apply rowOnly_tryCatch; [apply rowOnly_attemptRecord|]. intros e.
  unfold onRecordError. apply rowOnly_bind; [apply rowOnly_updStats|]. intros _.
  destruct (isUniqueViolation e); [apply rowOnly_updStats | apply rowOnly_throw].
Qed.

Lemma rowOnly_loadRecords m batch : rowOnly (loadRecords m batch).
Proof.
  induction batch as [|record rest IH]; simpl; [apply rowOnly_ret|].
  apply rowOnly_bind; [apply rowOnly_loadRecord | intros _; exact IH].
Qed.

(** ** One row *)

Lemma loadRecord_returned m record st :
  fst (attemptRecord m record st) = Return tt ->
  loadRecord m record st = attemptRecord m record st.
Proof.
  unfold loadRecord, tryCatch. destruct (attemptRecord m record st) as [[[]|e] st1]; simpl; congruence.
Qed.

Lemma loadRecord_threw m record st e :
  fst (attemptRecord m record st) = Throw e ->
  let st1 := snd (attemptRecord m record st) in
  let res := loadRecord m record st in
  db (snd res) = db st1 /\ issued (snd res) = issued st1 /\
  recordsLoaded (loadStats (snd res)) = recordsLoaded (loadStats st1) /\
  recordsUpdated (loadStats (snd res)) = recordsUpdated (loadStats st1) /\
  recordsInserted (loadStats (snd res)) = recordsInserted (loadStats st1) /\
  if isUniqueViolation e
  then fst res = Return tt /\
       recordsSkipped (loadStats (snd res)) = S (recordsSkipped (loadStats st1))
  else fst res = Throw e /\
       recordsSkipped (loadStats (snd res)) = recordsSkipped (loadStats st1).
Proof.
  unfold loadRecord, tryCatch. destruct (attemptRecord m record st) as [[[]|e'] st1]; simpl;
    [discriminate|].
  intros [= ->]. unfold onRecordError, bindM, updStats, throw. simpl.
  destruct (isUniqueViolation e); simpl; auto 10.
Qed.

Lemma loadRecord_classify m record st :
  returns (fst (loadRecord m record st)) =
  settled (classify (fst (attemptRecord m record st))).
Proof.
  destruct (fst (attemptRecord m record st)) as [[]|e] eqn:E.
  - by rewrite (loadRecord_returned _ _ _ E), E.
  - pose proof (loadRecord_threw _ _ _ _ E) as H. simpl in H.
    destruct H as (_ & _ & _ & _ & _ & H). simpl.
    destruct (isUniqueViolation e); destruct H as [-> _]; reflexivity.
Qed.

Lemma attemptRecord_stats m record st :
  let res := attemptRecord m record st in
  recordsSkipped (loadStats (snd res)) = recordsSkipped (loadStats st) /\
  recordsLoaded (loadStats (snd res)) =
    (if returns (fst res) then S (recordsLoaded (loadStats st))
     else recordsLoaded (loadStats st)).
Proof.
  unfold attemptRecord, findExistingRecord, updateRecord, insertRecord, firstRowId,
    bindM, query, updStats, ret, throw. simpl.
  destruct (truthy (get (rec_fields record) (keyFieldOf m))); simpl;
    repeat match goal with
           | |- context [exec ?s ?d] => destruct (exec s d) as [[[|? ?]|?] ?]; simpl
           end; auto.
Qed.

Lemma loadRecord_stats m record st :
  let o := classify (fst (attemptRecord m record st)) in
  let res := loadRecord m record st in
  recordsSkipped (loadStats (snd res)) =
    (if isSkipped o then S (recordsSkipped (loadStats st))
     else recordsSkipped (loadStats st)) /\
  recordsLoaded (loadStats (snd res)) =
    (if isLoaded o then S (recordsLoaded (loadStats st))
     else recordsLoaded (loadStats st)).
Proof.
  simpl. destruct (attemptRecord_stats m record st) as [Hs Hl].
  destruct (fst (attemptRecord m record st)) as [[]|e] eqn:E.
  - rewrite (loadRecord_returned _ _ _ E). simpl in *. auto.
  - destruct (loadRecord_threw _ _ _ _ E) as (_ & _ & Hl' & _ & _ & H).
    simpl in *. rewrite Hl', Hl.
    destruct (isUniqueViolation e); destruct H as [_ ->]; simpl; rewrite Hs; auto.
Qed.

(** ** The loop over a batch *)

Lemma loadRecords_returns m batch st :
  returns (fst (loadRecords m batch st)) = forallb settled (rowOutcomes m batch st).
Proof.
  revert st. induction batch as [|record rest IH]; intros st; simpl; [reflexivity|].
  unfold bindM. pose proof (loadRecord_classify m record st) as Hc.
  destruct (loadRecord m record st) as [[[]|e] st1]; simpl in *; rewrite <- Hc; simpl.
  - apply IH.
  - reflexivity.
Qed.

Definition countOutcomes (p : RowOutcome -> bool) (out : list RowOutcome) : nat :=
  length (List.filter p out).

Lemma loadRecords_stats m batch st :
  let res := loadRecords m batch st in
  let out := rowOutcomes m batch st in
  recordsSkipped (loadStats (snd res)) =
    (recordsSkipped (loadStats st) + countOutcomes isSkipped out)%nat /\
  recordsLoaded (loadStats (snd res)) =
    (recordsLoaded (loadStats st) + countOutcomes isLoaded out)%nat.
Proof.
  revert st. induction batch as [|record rest IH]; intros st; simpl.
  - unfold countOutcomes. simpl. lia.
  - unfold bindM. destruct (loadRecord_stats m record st) as [Hs Hl].
    pose proof (loadRecord_classify m record st) as Hc.
    simpl in Hs, Hl.
    destruct (loadRecord m record st) as [[[]|e] st1]; simpl in *;
      destruct (classify (fst (attemptRecord m record st))) eqn:Ec; simpl in *;
      try discriminate; unfold countOutcomes in *; simpl;
      try (destruct (IH st1) as [IHs IHl]; rewrite IHs, IHl, Hs, Hl); lia.
Qed.

(** ** The batch *)

Ltac settle :=
  repeat match goal with
         | |- _ /\ _ => split
         | |- _ <-> _ => split
         | |- _ -> _ => intro
         | |- ~ _ => intro
         end;
  repeat match goal with H : _ \/ _ |- _ => destruct H end;
  try done; try tauto.

Lemma query_sent s st r st' :
  query s st = (r, st') ->
  issued st' = issued st ++ [s] /\ loadStats st' = loadStats st.
Proof.
  unfold query. destruct (exec s (db st)) as [r0 d]. intros [= _ <-]. auto.
Qed.


End WithClient.

(** ** A small target database

    One table whose [email] column is unique: an INSERT of a taken email
    raises SQLSTATE 23505, every other statement succeeds. *)

Definition sameString (a b : JsVal) : bool :=
  match a, b with
  | JStr x, JStr y => String.eqb x y
  | _, _ => false
  end.

Definition sameNumber (a b : JsVal) : bool :=
  match a, b with
  | JNum x, JNum y => PrimFloat.eqb x y
  | _, _ => false
  end.

Definition demoExec (s : Statement) (rows : list Obj) : Completion (list Obj) * list Obj :=
  match s with
  | SBegin | SCommit | SRollback => (Return [], rows)
  | SSelectId _ keyField key =>
      (Return (List.filter (fun r => sameNumber (get r keyField) key) rows), rows)
  | SInsert _ record =>
      if existsb (fun r => sameString (get r "email") (get record "email")) rows
      then (Throw (PgError "23505" "duplicate key value violates unique constraint"), rows)
      else let stored := <["id" := JNum (PrimFloat.of_uint63 (Uint63.of_Z (Z.of_nat (length rows))))]> record in
           (Return [stored], rows ++ [stored])
  | SUpdate _ record id => (Return [ {[ "id" := id ]} ], rows)
  end.

Definition demoMapping : Mapping :=
  {| sourceTable := "users"; targetTable := "affiliates"; primaryKey := "id";
     incrementalField := Some "updated_at"; enabled := true; filters := None;
     fieldMapping := [("id", "external_user_id"); ("email", "email")];
     transformations := None; validations := None |}.

Definition demoRecord (id : float) (email : string) : EtlRecord :=
  {| rec_fields := {[ "external_user_id" := JNum id; "email" := JStr email ]};
     rec_etl_metadata := None; rec_unique_fields := None |}.

Definition demoBatch : list EtlRecord :=
  [ demoRecord 1 "ana@example.com"; demoRecord 2 "ana@example.com" ].

Definition demoStart : @St (list Obj) :=
  {| db := []; issued := []; loadStats := emptyStats |}.

Definition demoBegun : @St (list Obj) :=
  {| db := []; issued := [SBegin]; loadStats := emptyStats |}.

Definition demoRun : Completion unit * @St (list Obj) :=
  loadBatch (fun _ => Return tt) demoExec demoMapping demoBatch demoStart.

(** The second INSERT hits the unique email: the row is skipped and the
    batch still ends with COMMIT. *)
Example demoRun_skips_duplicate :
  fst demoRun = Return tt /\
  map isRowStatement (issued (snd demoRun)) = [false; true; true; true; true; false] /\
  last (issued (snd demoRun)) = Some SCommit /\
  recordsInserted (loadStats (snd demoRun)) = 1%nat /\
  recordsSkipped (loadStats (snd demoRun)) = 1%nat /\
  recordsLoaded (loadStats (snd demoRun)) = 1%nat /\
  rowOutcomes demoExec demoMapping demoBatch demoBegun = [RowLoaded; RowSkipped].
Proof. vm_compute. repeat split; reflexivity. Qed.


End Loader.

(* ===================================================================== *)
(** * ETLScheduler (etl/schedulers/etlScheduler.js) *)
(* ===================================================================== *)

Module Scheduler.

(** The three recurrences. Each [execute...] method guards itself with the
    name of its kind in the [currentJobs] set. *)
Inductive Kind := FullSync | IncrementalSync | Cleanup.

Definition kindName (k : Kind) : string :=
  match k with
  | FullSync => "fullSync"
  | IncrementalSync => "incrementalSync"
  | Cleanup => "cleanup"
  end.

#[export] Instance Kind_eq_dec : EqDecision Kind.
Proof. solve_decision. Defined.

Record Stats := {
  totalJobs : nat;
  successfulJobs : nat;
  failedJobs : nat
}.

Inductive LogEntry :=
| WarnAlreadyRunning (k : Kind)
| InfoStarting (k : Kind)
| InfoCompleted (k : Kind)
| ErrorFailed (k : Kind).

(** The fields of the scheduler object that its jobs read and write. *)
Record State := {
  currentJobs : gset string;
  stats : Stats;
  log : list LogEntry
}.

Definition initial : State :=
  {| currentJobs := ∅;
     stats := {| totalJobs := 0; successfulJobs := 0; failedJobs := 0 |};
     log := [] |}.

(** The synchronous head of [executeFullSync], [executeIncrementalSync] and
    [executeCleanup], up to the [try]: the three differ in the kind only.
    The result says whether the call goes on into its body. *)
Definition enter (k : Kind) (s : State) : State * bool :=
  if bool_decide (kindName k ∈ currentJobs s) then
    ({| currentJobs := currentJobs s; stats := stats s;
        log := log s ++ [WarnAlreadyRunning k] |}, false)
  else
    ({| currentJobs := {[ kindName k ]} ∪ currentJobs s;
        stats := {| totalJobs := S (totalJobs (stats s));
                    successfulJobs := successfulJobs (stats s);
                    failedJobs := failedJobs (stats s) |};
        log := log s ++ [InfoStarting k] |}, true).

(** The end of a body: the last statements of the [try] block or the
    [catch] block, then [finally]. *)
Definition leave (k : Kind) (succeeded : bool) (s : State) : State :=
  {| currentJobs := currentJobs s ∖ {[ kindName k ]};
     stats := if succeeded
              then {| totalJobs := totalJobs (stats s);
                      successfulJobs := S (successfulJobs (stats s));
                      failedJobs := failedJobs (stats s) |}
              else {| totalJobs := totalJobs (stats s);
                      successfulJobs := successfulJobs (stats s);
                      failedJobs := S (failedJobs (stats s)) |};
     log := log s ++ [if succeeded then InfoCompleted k else ErrorFailed k] |}.

Definition executeFullSync_enter := enter FullSync.
Definition executeIncrementalSync_enter := enter IncrementalSync.
Definition executeCleanup_enter := enter Cleanup.

(** The scheduler together with the calls in progress: [running k] counts
    the calls of kind [k] that went past the guard and have not yet reached
    [finally]. Between its head and its end a call only awaits (table
    syncs, delays), so other calls interleave with it there. *)
Record System := {
  sched : State;
  running : Kind -> nat
}.

Definition start : System := {| sched := initial; running := fun _ => 0%nat |}.

(** A fire of kind [k]: a cron tick or a manual sync calls the method. *)
Definition fire (k : Kind) (sys : System) : System :=
  let (s', goes_on) := enter k (sched sys) in
  {| sched := s';
     running := if goes_on
                then fun k' => if decide (k' = k) then S (running sys k') else running sys k'
                else running sys |}.

(** A call of kind [k] in progress comes to its end. *)
Definition finish (k : Kind) (succeeded : bool) (sys : System) : System :=
  {| sched := leave k succeeded (sched sys);
     running := fun k' => if decide (k' = k) then pred (running sys k') else running sys k' |}.

Inductive Reachable : System -> Prop :=
| reach_start : Reachable start
| reach_fire k sys : Reachable sys -> Reachable (fire k sys)
| reach_finish k succeeded sys :
    Reachable sys -> (0 < running sys k)%nat -> Reachable (finish k succeeded sys).

(** ** Properties *)

Lemma kindName_inj k k' : kindName k = kindName k' -> k = k'.
Proof. destruct k, k'; simpl; intros H; try reflexivity; discriminate. Qed.

(** The guard set mirrors the calls in progress. *)
Definition mirrors (sys : System) : Prop :=
  forall k, (running sys k <= 1)%nat /\
            (kindName k ∈ currentJobs (sched sys) <-> running sys k = 1%nat).

Lemma mirrors_reachable sys : Reachable sys -> mirrors sys.
Proof.
  induction 1 as [|k sys Hr IH|k ok sys Hr IH Hpos]; intros k'.
  - simpl. split; [lia|]. split; [set_solver | discriminate].
  - unfold fire, enter. destruct (IH k') as [Hle Hiff]. destruct (IH k) as [Hlek Hiffk].
    case_bool_decide as Hin; simpl; [auto|].
    destruct (decide (k' = k)) as [->|Hne].
    + assert (running sys k = 0%nat) by (destruct (running sys k) as [|[|n]]; [done|tauto|lia]).
      split; [lia|]. split; [lia | set_solver].
    + split; [lia|]. rewrite <- Hiff. split; [|set_solver].
      intros [Hk|?]%elem_of_union; [|done].
      apply elem_of_singleton in Hk. apply kindName_inj in Hk. done.
  - unfold finish, leave. simpl. destruct (IH k') as [Hle Hiff].
    destruct (decide (k' = k)) as [->|Hne].
    + split; [lia|]. split; [set_solver | lia].
    + split; [lia|]. rewrite <- Hiff. split; [set_solver|].
      intros Hin. apply elem_of_difference. split; [done|].
      intros Hk. apply elem_of_singleton in Hk. apply kindName_inj in Hk. done.
Qed.

Lemma overlap_reachable :
  Reachable (fire IncrementalSync (fire FullSync start)) /\
  running (fire IncrementalSync (fire FullSync start)) FullSync = 1%nat /\
  running (fire IncrementalSync (fire FullSync start)) IncrementalSync = 1%nat.
Proof.
  split; [do 2 apply reach_fire; apply reach_start|].
  split; vm_compute; reflexivity.
Qed.

(** C3. In every reachable state at most one call of each kind is in
    progress; a fire of a kind that is in [currentJobs] only logs a warning:
    it starts nothing and leaves [totalJobs] and the set untouched; and calls
    of two different kinds can be in progress together. *)
Theorem at_most_one_job_per_kind sys :
  Reachable sys ->
  (forall k, (running sys k <= 1)%nat) /\
  (forall k, kindName k ∈ currentJobs (sched sys) <-> running sys k = 1%nat) /\
  (forall k, kindName k ∈ currentJobs (sched sys) ->
     running (fire k sys) = running sys /\
     totalJobs (stats (sched (fire k sys))) = totalJobs (stats (sched sys)) /\
     currentJobs (sched (fire k sys)) = currentJobs (sched sys) /\
     log (sched (fire k sys)) = log (sched sys) ++ [WarnAlreadyRunning k]) /\
  (exists sys', Reachable sys' /\
     running sys' FullSync = 1%nat /\ running sys' IncrementalSync = 1%nat).
Proof.
  intros Hr. pose proof (mirrors_reachable sys Hr) as Hm.
  split_and!.
  - intros k. apply Hm.
  - intros k. apply Hm.
  - intros k Hin. unfold fire, enter. rewrite bool_decide_eq_true_2 by done. simpl. auto.
  - eexists. apply overlap_reachable.
Qed.

Lemma at_most_one_job_per_kind_witness :
  (forall k, (running (fire FullSync (fire FullSync start)) k <= 1)%nat) /\
  totalJobs (stats (sched (fire FullSync (fire FullSync start)))) = 1%nat.
Proof.
  split.
  - apply (at_most_one_job_per_kind (fire FullSync (fire FullSync start))).
    do 2 apply reach_fire. apply reach_start.
  - vm_compute. reflexivity.
Defined.

End Scheduler.

(* ===================================================================== *)
(** * DataModel (src/models/dataModel.js) and the user_analytics table *)
(* ===================================================================== *)

Module Model.

(** The analytics object handed to [upsertUserAnalytics], and equally the
    24 columns it writes. The three key columns are typed as the table
    declares them (INTEGER, VARCHAR, TIMESTAMP in milliseconds), the other
    columns carry the JavaScript value that is bound to the statement. *)
Record UserAnalytics := {
  user_id : Z;
  affiliate_id : JsVal;
  period_type : string;
  period_start : Z;
  period_end : Z;
  total_deposits : JsVal;
  deposit_count : JsVal;
  first_deposit_date : JsVal;
  last_deposit_date : JsVal;
  avg_deposit_amount : JsVal;
  total_bets : JsVal;
  bet_count : JsVal;
  first_bet_date : JsVal;
  last_bet_date : JsVal;
  avg_bet_amount : JsVal;
  days_active : JsVal;
  sessions_count : JsVal;
  total_session_time_minutes : JsVal;
  total_wins : JsVal;
  total_losses : JsVal;
  net_result : JsVal;
  cpa_qualified : JsVal;
  cpa_qualification_date : JsVal;
  cpa_amount : JsVal
}.

Definition zero : JsVal := JNum 0%float.

(** The [values] array of [upsertUserAnalytics]: [$1 .. $24]. *)
Definition valuesOf (analyticsData : UserAnalytics) : UserAnalytics :=
  {| user_id := user_id analyticsData;
     affiliate_id := affiliate_id analyticsData;
     period_type := period_type analyticsData;
     period_start := period_start analyticsData;
     period_end := period_end analyticsData;
     total_deposits := or_else (total_deposits analyticsData) zero;
     deposit_count := or_else (deposit_count analyticsData) zero;
     first_deposit_date := first_deposit_date analyticsData;
     last_deposit_date := last_deposit_date analyticsData;
     avg_deposit_amount := or_else (avg_deposit_amount analyticsData) zero;
     total_bets := or_else (total_bets analyticsData) zero;
     bet_count := or_else (bet_count analyticsData) zero;
     first_bet_date := first_bet_date analyticsData;
     last_bet_date := last_bet_date analyticsData;
     avg_bet_amount := or_else (avg_bet_amount analyticsData) zero;
     days_active := or_else (days_active analyticsData) zero;
     sessions_count := or_else (sessions_count analyticsData) zero;
     total_session_time_minutes := or_else (total_session_time_minutes analyticsData) zero;
     total_wins := or_else (total_wins analyticsData) zero;
     total_losses := or_else (total_losses analyticsData) zero;
     net_result := or_else (net_result analyticsData) zero;
     cpa_qualified := or_else (cpa_qualified analyticsData) (JBool false);
     cpa_qualification_date := cpa_qualification_date analyticsData;
     cpa_amount := or_else (cpa_amount analyticsData) zero |}.

(** A stored row: the generated [id], the written columns, and the two
    timestamps the table keeps itself. *)
Record Row := {
  id : N;
  cols : UserAnalytics;
  last_updated : Z;
  created_at : Z
}.

Record Table := {
  rows : list Row;
  next_id : N
}.

Definition emptyTable : Table := {| rows := []; next_id := 0 |}.

(** The columns of [UNIQUE(user_id, period_type, period_start)]. *)
Definition keyOf (a : UserAnalytics) : Z * string * Z :=
  (user_id a, period_type a, period_start a).

Definition sameKey (a b : UserAnalytics) : bool :=
  (user_id a =? user_id b) && String.eqb (period_type a) (period_type b)
  && (period_start a =? period_start b).

(** [DO UPDATE SET ...]: every written column except the three of the key
    is taken from the proposed row, [last_updated] is the current time, and
    [id] and [created_at] stay. *)
Definition conflictUpdate (now : Z) (excluded : UserAnalytics) (old : Row) : Row :=
  {| id := id old;
     cols :=
       {| user_id := user_id (cols old);
          affiliate_id := affiliate_id excluded;
          period_type := period_type (cols old);
          period_start := period_start (cols old);
          period_end := period_end excluded;
          total_deposits := total_deposits excluded;
          deposit_count := deposit_count excluded;
          first_deposit_date := first_deposit_date excluded;
          last_deposit_date := last_deposit_date excluded;
          avg_deposit_amount := avg_deposit_amount excluded;
          total_bets := total_bets excluded;
          bet_count := bet_count excluded;
          first_bet_date := first_bet_date excluded;
          last_bet_date := last_bet_date excluded;
          avg_bet_amount := avg_bet_amount excluded;
          days_active := days_active excluded;
          sessions_count := sessions_count excluded;
          total_session_time_minutes := total_session_time_minutes excluded;
          total_wins := total_wins excluded;
          total_losses := total_losses excluded;
          net_result := net_result excluded;
          cpa_qualified := cpa_qualified excluded;
          cpa_qualification_date := cpa_qualification_date excluded;
          cpa_amount := cpa_amount excluded |};
     last_updated := now;
     created_at := created_at old |}.

Definition insertedRow (now : Z) (t : Table) (proposed : UserAnalytics) : Row :=
  {| id := next_id t; cols := proposed; last_updated := now; created_at := now |}.

Section WithConstraints.

(** The table's NOT NULL, column-type and CHECK constraints (valid period
    type, [period_end > period_start], non-negative amounts) as the server
    applies them to the bound values: a proposed row passes or the
    statement fails with [rejection]. *)
Variable accepts : UserAnalytics -> bool.
Variable rejection : UserAnalytics -> JsError.

(** [INSERT ... ON CONFLICT (user_id, period_type, period_start) DO UPDATE
    SET ... RETURNING *] at time [now]. *)
Definition upsertStatement (now : Z) (proposed : UserAnalytics) (t : Table)
    : Completion Row * Table :=
  if negb (accepts proposed) then (Throw (rejection proposed), t)
  else
    match List.find (fun r => sameKey (cols r) proposed) (rows t) with
    | Some old =>
        let updated := conflictUpdate now proposed old in
        (Return updated,
         {| rows := map (fun r => if sameKey (cols r) proposed
                                  then conflictUpdate now proposed r else r) (rows t);
            next_id := next_id t |})
    | None =>
        let row := insertedRow now t proposed in
        (Return row, {| rows := rows t ++ [row]; next_id := N.succ (next_id t) |})
    end.

Definition upsertUserAnalytics (now : Z) (analyticsData : UserAnalytics) (t : Table)
    : Completion Row * Table :=
  upsertStatement now (valuesOf analyticsData) t.

(** The rows of a key. *)
Definition rowsOf (key : UserAnalytics) (t : Table) : list Row :=
  List.filter (fun r => sameKey (cols r) key) (rows t).

Definition uniqueKeys (t : Table) : Prop := NoDup (map (fun r => keyOf (cols r)) (rows t)).

(** ** Properties *)

Lemma sameKey_true a b : sameKey a b = true <-> keyOf a = keyOf b.
Proof.
  unfold sameKey, keyOf. rewrite !andb_true_iff, !Z.eqb_eq, String.eqb_eq.
  split; [intros [[-> ->] ->]; reflexivity | intros [= -> -> ->]; auto].
Qed.

Lemma sameKey_sym a b : sameKey a b = sameKey b a.
Proof.
  unfold sameKey. by rewrite (Z.eqb_sym (user_id a)), (String.eqb_sym (period_type a)),
    (Z.eqb_sym (period_start a)).
Qed.

Lemma sameKey_trans a b c : sameKey a b = true -> sameKey b c = true -> sameKey a c = true.
Proof. rewrite !sameKey_true. congruence. Qed.

Lemma conflictUpdate_key now p old : keyOf (cols (conflictUpdate now p old)) = keyOf (cols old).
Proof. reflexivity. Qed.

Lemma conflictUpdate_cols now p old :
  sameKey (cols old) p = true -> cols (conflictUpdate now p old) = p.
Proof.
  rewrite sameKey_true. unfold keyOf. intros [= H1 H2 H3].
  destruct p. simpl in *. unfold conflictUpdate. simpl. by rewrite H1, H2, H3.
Qed.

Lemma filter_none (p : UserAnalytics) (l : list Row) :
  List.find (fun r => sameKey (cols r) p) l = None ->
  List.filter (fun r => sameKey (cols r) p) l = [].
Proof.
  induction l as [|r l IH]; simpl; [done|].
  destruct (sameKey (cols r) p); [discriminate | exact IH].
Qed.

Lemma find_none_key (p : UserAnalytics) (l : list Row) :
  List.find (fun r => sameKey (cols r) p) l = None ->
  ~ In (keyOf p) (map (fun r => keyOf (cols r)) l).
Proof.
  induction l as [|r l IH]; simpl; [tauto|].
  destruct (sameKey (cols r) p) eqn:E; [discriminate|].
  intros Hf [Hk|Hin]; [|by apply IH].
  symmetry in Hk. apply sameKey_true in Hk. rewrite sameKey_sym in Hk. congruence.
Qed.

Lemma filter_unique (p : UserAnalytics) (l : list Row) old :
  NoDup (map (fun r => keyOf (cols r)) l) ->
  List.find (fun r => sameKey (cols r) p) l = Some old ->
  List.filter (fun r => sameKey (cols r) p) l = [old].
Proof.
  induction l as [|r l IH]; simpl; [discriminate|].
  intros Hnd. apply NoDup_cons in Hnd as [Hnotin Hnd].
  destruct (sameKey (cols r) p) eqn:E.
  - intros [= ->]. f_equal. apply filter_none.
    destruct (List.find _ l) as [r'|] eqn:Ef; [|reflexivity].
    exfalso. apply Hnotin. apply find_some in Ef as [Hin Hk].
    apply sameKey_true in E, Hk. rewrite E, <- Hk.
    apply list_elem_of_In, (in_map (fun r => keyOf (cols r))), Hin.
  - intros Hf. by apply IH.
Qed.

Lemma map_update_keys now p (l : list Row) :
  map (fun r => keyOf (cols r))
      (map (fun r => if sameKey (cols r) p then conflictUpdate now p r else r) l)
  = map (fun r => keyOf (cols r)) l.
Proof.
  rewrite map_map. apply map_ext. intros r. by destruct (sameKey (cols r) p).
Qed.

Lemma filter_map_update now p q (l : list Row) :
  List.filter (fun r => sameKey (cols r) q)
      (map (fun r => if sameKey (cols r) p then conflictUpdate now p r else r) l)
  = map (fun r => if sameKey (cols r) p then conflictUpdate now p r else r)
      (List.filter (fun r => sameKey (cols r) q) l).
Proof.
  induction l as [|r l IH]; simpl; [done|].
  assert (Hk : sameKey (cols (if sameKey (cols r) p then conflictUpdate now p r else r)) q
               = sameKey (cols r) q).
  { destruct (sameKey (cols r) p); [|done]. unfold sameKey. reflexivity. }
  rewrite Hk. destruct (sameKey (cols r) q); simpl; by rewrite IH.
Qed.

(** One accepted write to a table with unique keys: the keys stay unique,
    the key written holds exactly one row, and that row carries the written
    values and the time of the write. *)
Lemma upsertStatement_accepted now p t :
  accepts p = true -> uniqueKeys t ->
  let res := upsertStatement now p t in
  uniqueKeys (snd res) /\
  exists row, fst res = Return row /\ rowsOf p (snd res) = [row] /\
    cols row = p /\ last_updated row = now /\
    (forall old, rowsOf p t = [old] -> id row = id old /\ created_at row = created_at old).
Proof.
  intros Hacc Hu. unfold upsertStatement. rewrite Hacc. simpl.
  destruct (List.find _ (rows t)) as [old|] eqn:Ef; simpl.
  - split; [unfold uniqueKeys; simpl; by rewrite map_update_keys|].
    exists (conflictUpdate now p old).
    pose proof (filter_unique p _ _ Hu Ef) as Hflt.
    apply find_some in Ef as [Hin Hk].
    unfold rowsOf. simpl. rewrite filter_map_update, Hflt. simpl. rewrite Hk.
    split_and!; try reflexivity.
    + exact (conflictUpdate_cols now p old Hk).
    + by intros old' [= <-].
  - split.
    + unfold uniqueKeys. simpl. rewrite map_app. simpl.
      apply NoDup_app. split_and!; [exact Hu| |apply NoDup_singleton].
      intros k Hk Hk'. apply list_elem_of_In in Hk. apply list_elem_of_singleton in Hk'. subst k.
      by apply (find_none_key p (rows t)).
    + exists (insertedRow now t p). unfold rowsOf. simpl.
      rewrite List.filter_app, (filter_none _ _ Ef). simpl.
      assert (Hpp : sameKey p p = true) by by apply sameKey_true.
      rewrite Hpp. split_and!; try reflexivity.
      intros old' Hd. discriminate Hd.
Qed.

(** C4. Two accepted writes with the same (user_id, period_type,
    period_start): afterwards the key holds exactly one row, the row first
    written and updated in place; its written columns are the values of
    the second write and its [last_updated] is the time of that write. *)
Theorem upsert_same_key_keeps_one_row now1 now2 d1 d2 t r1 t1 r2 t2 :
  uniqueKeys t ->
  sameKey (valuesOf d1) (valuesOf d2) = true ->
  upsertUserAnalytics now1 d1 t = (Return r1, t1) ->
  upsertUserAnalytics now2 d2 t1 = (Return r2, t2) ->
  uniqueKeys t2 /\
  rowsOf (valuesOf d2) t2 = [r2] /\
  cols r2 = valuesOf d2 /\
  last_updated r2 = now2 /\
  id r2 = id r1 /\ created_at r2 = created_at r1.
Proof.
  unfold upsertUserAnalytics. intros Hu Hk H1 H2.
  assert (Ha1 : accepts (valuesOf d1) = true).
  { revert H1. unfold upsertStatement. destruct (accepts (valuesOf d1)); [done|discriminate]. }
  assert (Ha2 : accepts (valuesOf d2) = true).
  { revert H2. unfold upsertStatement. destruct (accepts (valuesOf d2)); [done|discriminate]. }
  destruct (upsertStatement_accepted now1 _ t Ha1 Hu) as (Hu1 & row1 & E1 & F1 & C1 & _).
  rewrite H1 in *. simpl in *. injection E1 as <-.
  destruct (upsertStatement_accepted now2 _ t1 Ha2 Hu1) as (Hu2 & row2 & E2 & F2 & C2 & L2 & I2).
  rewrite H2 in *. simpl in *. injection E2 as <-.
  split_and!; try done; apply (I2 r1);
    unfold rowsOf in *; rewrite <- F1; apply filter_ext; intros r;
    apply eq_true_iff_eq; rewrite !sameKey_true; apply sameKey_true in Hk; rewrite Hk; done.
Qed.

End WithConstraints.

(** ** Two daily roll-ups of user 42 for 2025-03-10 *)

Definition demoAccepts (a : UserAnalytics) : bool :=
  existsb (String.eqb (period_type a)) ["DAILY"; "WEEKLY"; "MONTHLY"; "YEARLY"]
  && (period_start a <? period_end a).

Definition demoRejection (a : UserAnalytics) : JsError :=
  PgError "23514" "new row violates check constraint".

Definition demoWrite (deposits : float) (count : float) : UserAnalytics :=
  {| user_id := 42; affiliate_id := JNum 7; period_type := "DAILY";
     period_start := 1741564800000; period_end := 1741651199999;
     total_deposits := JNum deposits; deposit_count := JNum count;
     first_deposit_date := JUndefined; last_deposit_date := JUndefined;
     avg_deposit_amount := JNum (deposits / count);
     total_bets := JNum 0; bet_count := JNum 0;
     first_bet_date := JUndefined; last_bet_date := JUndefined;
     avg_bet_amount := JNum 0; days_active := JNum 1; sessions_count := JNum 1;
     total_session_time_minutes := JNum 5;
     total_wins := JNum 0; total_losses := JNum 0; net_result := JNum 0;
     cpa_qualified := JBool false; cpa_qualification_date := JNull;
     cpa_amount := JNum 0 |}.

Definition demoFirst : UserAnalytics := demoWrite 50 1.
Definition demoSecond : UserAnalytics := demoWrite 80 2.

Definition demoRow1 : Row := insertedRow 1741600000000 emptyTable (valuesOf demoFirst).
Definition demoTable1 : Table := {| rows := [demoRow1]; next_id := 1 |}.
Definition demoRow2 : Row := conflictUpdate 1741603600000 (valuesOf demoSecond) demoRow1.
Definition demoTable2 : Table := {| rows := [demoRow2]; next_id := 1 |}.

Lemma upsert_same_key_witness :
  uniqueKeys demoTable2 /\
  rowsOf (valuesOf demoSecond) demoTable2 = [demoRow2] /\
  cols demoRow2 = valuesOf demoSecond /\
  last_updated demoRow2 = 1741603600000 /\
  id demoRow2 = id demoRow1 /\ created_at demoRow2 = created_at demoRow1.
Proof.
  apply (upsert_same_key_keeps_one_row demoAccepts demoRejection
           1741600000000 1741603600000 demoFirst demoSecond emptyTable
           demoRow1 demoTable1 demoRow2 demoTable2).
  - constructor.
  - reflexivity.
  - reflexivity.
  - reflexivity.
Defined.

End Model.

(* ===================================================================== *)
(** * DataService: synchronisation (src/services/dataService.js) *)
(* ===================================================================== *)

Module Sync.

(** A row of [data_sync_logs]; the clock columns ([start_time],
    [end_time], [duration_ms]) are left out. *)
Inductive ErrorMessage :=
| RecordsFailed (n : nat)
| Message (s : string).

Record SyncLog := {
  sync_type : string;
  table_name : string;
  operation : string;
  records_processed : nat;
  records_success : nat;
  records_failed : nat;
  status : string;
  error_message : option ErrorMessage
}.

Record Logs := {
  logRows : gmap N SyncLog;
  nextLogId : N
}.

Record SyncSettings := {
  batch_size : N;
  max_retry_attempts : N
}.

Record SyncOptions := {
  o_batchSize : option N;
  o_maxRetries : option N;
  o_dateFrom : JsVal;
  o_dateTo : JsVal;
  o_userId : JsVal;
  o_affiliateId : JsVal
}.

Record Filters := {
  dateFrom : JsVal;
  dateTo : JsVal;
  userId : JsVal;
  affiliateId : JsVal
}.

Record SyncResult := {
  syncLogId : N;
  recordsProcessed : nat;
  recordsSuccess : nat;
  recordsFailed : nat
}.

(** The two statements on [data_sync_logs]. *)
Inductive LogStatement :=
| InsertLog (id : N) (row : SyncLog)
| UpdateLog (id : N) (processed success failed : nat) (st : string)
    (msg : option ErrorMessage).

(** [a || b] on counts: zero and an absent value are falsy. *)
Definition orN (a : option N) (b : N) : N :=
  match a with
  | Some n => if (n =? 0)%N then b else n
  | None => b
  end.

(** lodash's [_.chunk(array, size)]: consecutive slices of [size] elements,
    the last one shorter; no chunk at all when [size] is below 1. *)
Fixpoint chunkFrom {A} (fuel size : nat) (l : list A) : list (list A) :=
  match fuel, l with
  | S fuel', _ :: _ => take size l :: chunkFrom fuel' size (drop size l)
  | _, _ => []
  end.

Definition chunk {A} (l : list A) (size : N) : list (list A) :=
  if (size =? 0)%N then [] else chunkFrom (length l) (N.to_nat size) l.

Section WithCollaborators.

(** What the method calls: the configuration client, the read of the
    external table, the per-chunk processing (by position and content of
    the chunk) and the server's verdict on each statement on the log table;
    each may throw. *)
Variable getDataSyncSettings : Completion SyncSettings.
Variable getExternalData : string -> Filters -> N -> Completion (list Obj).
Variable processDataChunk : nat -> string -> list Obj -> Completion unit.
Variable logStatementFails : LogStatement -> option JsError.

Definition createSyncLog (syncType tableName op : string) (logs : Logs)
    : Completion N * Logs :=
  let id := nextLogId logs in
  let row := {| sync_type := syncType; table_name := tableName; operation := op;
                records_processed := 0; records_success := 0; records_failed := 0;
                status := "RUNNING"; error_message := None |} in
  match logStatementFails (InsertLog id row) with
  | Some e => (Throw e, logs)
  | None => (Return id, {| logRows := <[id := row]> (logRows logs);
                            nextLogId := N.succ id |})
  end.

Definition updateSyncLog (id : N) (processed success failed : nat) (st : string)
    (msg : option ErrorMessage) (logs : Logs) : Completion unit * Logs :=
  match logStatementFails (UpdateLog id processed success failed st msg) with
  | Some e => (Throw e, logs)
  | None =>
      (Return tt,
       {| logRows := alter (fun row =>
            {| sync_type := sync_type row; table_name := table_name row;
               operation := operation row;
               records_processed := processed; records_success := success;
               records_failed := failed; status := st; error_message := msg |})
            id (logRows logs);
          nextLogId := nextLogId logs |})
  end.

(** The loop over the chunks: a chunk that throws is counted as failed. *)
Fixpoint processChunks (tableName : string) (index : nat) (chunks : list (list Obj))
    (success failed : nat) : nat * nat :=
  match chunks with
  | [] => (success, failed)
  | c :: rest =>
      match processDataChunk index tableName c with
      | Return _ => processChunks tableName (S index) rest (success + length c) failed
      | Throw _ => processChunks tableName (S index) rest success (failed + length c)
      end
  end.

Definition syncExternalData (tableName : string) (options : SyncOptions) (logs : Logs)
    : Completion SyncResult * Logs :=
  match getDataSyncSettings with
  | Throw e => (Throw e, logs)
  | Return syncSettings =>
    let batchSize := orN (o_batchSize options) (orN (Some (batch_size syncSettings)) 1000) in
    match createSyncLog "EXTERNAL_SYNC" tableName "SYNC" logs with
    | (Throw e, logs1) => (Throw e, logs1)
    | (Return logId, logs1) =>
      (* catch: record the failure, then throw the error again *)
      let failed (processed success failedCount : nat) (error : JsError) (l : Logs) :=
        match updateSyncLog logId processed success failedCount "FAILED"
                (Some (Message (err_message error))) l with
        | (Throw e', l') => (Throw e', l')
        | (Return _, l') => (Throw error, l')
        end in
      let filters := {| dateFrom := o_dateFrom options; dateTo := o_dateTo options;
                        userId := o_userId options; affiliateId := o_affiliateId options |} in
      match getExternalData tableName filters batchSize with
      | Throw e => failed 0%nat 0%nat 0%nat e logs1
      | Return externalData =>
        let recordsProcessed := length externalData in
        let chunks := chunk externalData (N.min batchSize 100) in
        let '(recordsSuccess, recordsFailed) :=
          processChunks tableName 0 chunks 0%nat 0%nat in
        match updateSyncLog logId recordsProcessed recordsSuccess recordsFailed
                (if (recordsFailed =? 0)%nat then "COMPLETED" else "COMPLETED")
                (if (0 <? recordsFailed)%nat then Some (RecordsFailed recordsFailed) else None)
                logs1 with
        | (Throw e, logs2) => failed recordsProcessed recordsSuccess recordsFailed e logs2
        | (Return _, logs2) =>
            (Return {| syncLogId := logId; recordsProcessed := recordsProcessed;
                       recordsSuccess := recordsSuccess; recordsFailed := recordsFailed |},
             logs2)
        end
      end
    end
  end.

(** ** Properties *)

Lemma orN_positive a b : (1 <= b)%N -> (1 <= orN a b)%N.
Proof.
  unfold orN. destruct a as [n|]; [|done].
  destruct (N.eqb_spec n 0); lia.
Qed.

Lemma chunkFrom_concat {A} fuel size (l : list A) :
  (1 <= size)%nat -> (length l <= fuel)%nat -> concat (chunkFrom fuel size l) = l.
Proof.
  intros Hsize. revert l. induction fuel as [|fuel IH]; intros l Hlen.
  - destruct l; [reflexivity | simpl in Hlen; lia].
  - destruct l as [|x l]; [reflexivity|].
    cbn [chunkFrom concat]. rewrite IH.
    + apply take_drop.
    + rewrite length_drop. simpl in *. lia.
Qed.

Lemma chunk_concat {A} (l : list A) size : (1 <= size)%N -> concat (chunk l size) = l.
Proof.
  intros Hs. unfold chunk. destruct (N.eqb_spec size 0); [lia|].
  apply chunkFrom_concat; lia.
Qed.

Lemma processChunks_total tableName index chunks success failed :
  let res := processChunks tableName index chunks success failed in
  (fst res + snd res = success + failed + length (concat chunks))%nat.
Proof.
  revert index success failed. induction chunks as [|c rest IH]; intros index success failed.
  - simpl. lia.
  - cbn [processChunks concat]. rewrite length_app.
    destruct (processDataChunk index tableName c); rewrite IH; lia.
Qed.

(** C10. When [syncExternalData] returns normally, the row it created in
    [data_sync_logs] is finalized with status COMPLETED, also when chunks
    failed (the count of failed records goes to [error_message] only), and
    [records_success + records_failed = records_processed]; that row has
    status FAILED only in runs that end in an exception. *)
Theorem syncExternalData_log_row tableName options logs :
  let run := syncExternalData tableName options logs in
  let logId := nextLogId logs in
  (forall res, fst run = Return res ->
     syncLogId res = logId /\
     (recordsSuccess res + recordsFailed res = recordsProcessed res)%nat /\
     exists row, logRows (snd run) !! logId = Some row /\
       status row = "COMPLETED" /\
       records_processed row = recordsProcessed res /\
       records_success row = recordsSuccess res /\
       records_failed row = recordsFailed res /\
       (records_success row + records_failed row = records_processed row)%nat /\
       error_message row =
         (if (0 <? records_failed row)%nat then Some (RecordsFailed (records_failed row))
          else None)) /\
  (forall row, logRows (snd run) !! logId = Some row -> status row = "FAILED" ->
     returns (fst run) = false).
Proof.
  intros run logId. subst run logId. unfold syncExternalData.
  destruct getDataSyncSettings as [syncSettings|e0]; simpl.
  2:{ split; [intros res [=] | reflexivity]. }
  set (batchSize := orN (o_batchSize options) (orN (Some (batch_size syncSettings)) 1000)).
  assert (Hbs : (1 <= N.min batchSize 100)%N).
  { assert (1 <= batchSize)%N by (subst batchSize; repeat apply orN_positive; lia). lia. }
  unfold createSyncLog.
  destruct (logStatementFails (InsertLog _ _)) as [e1|]; simpl.
  { split; [intros res [=] | reflexivity]. }
  destruct (getExternalData _ _ _) as [externalData|e2]; simpl.
  2:{ unfold updateSyncLog. destruct (logStatementFails _); simpl;
        (split; [intros res [=] | reflexivity]). }
  pose proof (processChunks_total tableName 0%nat
                (chunk externalData (N.min batchSize 100)) 0%nat 0%nat) as Htot.
  rewrite (chunk_concat _ _ Hbs) in Htot.
  destruct (processChunks _ _ _ _ _) as [recordsSuccess recordsFailed]. simpl in Htot.
  unfold updateSyncLog.
  destruct (logStatementFails (UpdateLog _ _ _ _ _ _)) as [e3|]; simpl.
  { destruct (logStatementFails _); simpl; (split; [intros res [=] | reflexivity]). }
  split.
  - intros res [= <-]. simpl. split_and!; [done | lia |].
    eexists. rewrite lookup_alter_eq, lookup_insert_eq. simpl. split_and!; try reflexivity.
    + by destruct (recordsFailed =? 0)%nat.
    + simpl. lia.
  - intros row. rewrite lookup_alter_eq, lookup_insert_eq. simpl. intros [= <-]. simpl.
    by destruct (recordsFailed =? 0)%nat.
Qed.

End WithCollaborators.

End Sync.

(* ===================================================================== *)
(** * The part of moment.js used by the services

    moment.js is a dependency of the service, not part of its sources. The
    calendar below follows the ECMAScript definitions on which [Date] and
    moment's getters rest (Day, DayFromYear, InLeapYear, MonthFromTime,
    DateFromTime, WeekDay, MakeDay), and [startOf]/[endOf] follow moment
    2.29 (lib/moment/start-end-of.js) for a moment in local mode. Instants
    are unbounded integers of milliseconds since the epoch; the local zone
    is a fixed offset from UTC (no daylight-saving transitions). *)
(* ===================================================================== *)

Module Moment.

Definition msPerDay : Z := 86400000.

Definition Day (t : Z) : Z := t / msPerDay.

Definition DayFromYear (y : Z) : Z :=
  365 * (y - 1970) + (y - 1969) / 4 - (y - 1901) / 100 + (y - 1601) / 400.

Definition InLeapYear (y : Z) : bool :=
  (y mod 4 =? 0) && (negb (y mod 100 =? 0) || (y mod 400 =? 0)).

Definition DaysInYear (y : Z) : Z := if InLeapYear y then 366 else 365.

(** The year of a day number: the estimate from the mean year length is off
    by at most one. *)
Definition YearFromDay (day : Z) : Z :=
  let y0 := 1970 + (400 * day) / 146097 in
  if DayFromYear (y0 + 1) <=? day then y0 + 1
  else if day <? DayFromYear y0 then y0 - 1
  else y0.

Definition DayWithinYear (day : Z) : Z := day - DayFromYear (YearFromDay day).

(** The day within the year on which month [m] (0 = January) starts;
    [monthStart leap 12] is the length of the year. *)
Definition monthStart (leap : bool) (m : Z) : Z :=
  let l := if leap then 1 else 0 in
  match m with
  | 0 => 0
  | 1 => 31
  | 2 => 59 + l
  | 3 => 90 + l
  | 4 => 120 + l
  | 5 => 151 + l
  | 6 => 181 + l
  | 7 => 212 + l
  | 8 => 243 + l
  | 9 => 273 + l
  | 10 => 304 + l
  | 11 => 334 + l
  | _ => 365 + l
  end.

Definition MonthFromDay (day : Z) : Z :=
  let leap := InLeapYear (YearFromDay day) in
  let d := DayWithinYear day in
  if d <? monthStart leap 1 then 0
  else if d <? monthStart leap 2 then 1
  else if d <? monthStart leap 3 then 2
  else if d <? monthStart leap 4 then 3
  else if d <? monthStart leap 5 then 4
  else if d <? monthStart leap 6 then 5
  else if d <? monthStart leap 7 then 6
  else if d <? monthStart leap 8 then 7
  else if d <? monthStart leap 9 then 8
  else if d <? monthStart leap 10 then 9
  else if d <? monthStart leap 11 then 10
  else 11.

Definition DateFromDay (day : Z) : Z :=
  DayWithinYear day - monthStart (InLeapYear (YearFromDay day)) (MonthFromDay day) + 1.

(** 0 = Sunday; 1 January 1970 was a Thursday. *)
Definition WeekDay (day : Z) : Z := (day + 4) mod 7.

(** [MakeDay(year, month, date)]: the month may lie outside 0..11 and the
    date outside the month; both carry over. *)
Definition MakeDay (year month date : Z) : Z :=
  let ym := year + month / 12 in
  let mn := month mod 12 in
  DayFromYear ym + monthStart (InLeapYear ym) mn + date - 1.

(** The process environment of a moment in local mode: the offset of the
    local zone from UTC in milliseconds (east is positive). The locale is
    moment's default, [en], whose week starts on Sunday ([dow = 0]). *)
Definition localeDow : Z := 0.

Section Local.

Variable zoneOffset : Z.

Definition localDay (t : Z) : Z := Day (t + zoneOffset).

Definition year (t : Z) : Z := YearFromDay (localDay t).
Definition month (t : Z) : Z := MonthFromDay (localDay t).
Definition date (t : Z) : Z := DateFromDay (localDay t).
Definition day (t : Z) : Z := WeekDay (localDay t).
Definition weekday (t : Z) : Z := (day t + 7 - localeDow) mod 7.
Definition isoWeekday (t : Z) : Z := if day t =? 0 then 7 else day t.

(** [new Date(y, m, d).valueOf()] *)
Definition localStartOfDate (y m d : Z) : Z := MakeDay y m d * msPerDay - zoneOffset.

Inductive Unit := UYear | UMonth | UWeek | UIsoWeek | UDay.

Definition startOf (u : Unit) (t : Z) : Z :=
  match u with
  | UYear => localStartOfDate (year t) 0 1
  | UMonth => localStartOfDate (year t) (month t) 1
  | UWeek => localStartOfDate (year t) (month t) (date t - weekday t)
  | UIsoWeek => localStartOfDate (year t) (month t) (date t - (isoWeekday t - 1))
  | UDay => localStartOfDate (year t) (month t) (date t)
  end.

Definition endOf (u : Unit) (t : Z) : Z :=
  match u with
  | UYear => localStartOfDate (year t + 1) 0 1 - 1
  | UMonth => localStartOfDate (year t) (month t + 1) 1 - 1
  | UWeek => localStartOfDate (year t) (month t) (date t - weekday t + 7) - 1
  | UIsoWeek => localStartOfDate (year t) (month t) (date t - (isoWeekday t - 1) + 7) - 1
  | UDay => localStartOfDate (year t) (month t) (date t + 1) - 1
  end.

End Local.

(** ** Creation and formatting *)

(** The integer part of a finite number (truncation toward zero). *)
Definition truncate (x : float) : option Z :=
  match Prim2SF x with
  | S754_zero _ => Some 0
  | S754_finite s m e =>
      let magnitude := if 0 <=? e then Zpos m * 2 ^ e else Zpos m / 2 ^ (- e) in
      Some (if s then - magnitude else magnitude)
  | S754_infinity _ | S754_nan => None
  end.

(** [new Date(x)] for a number: the time value, or nothing for an Invalid
    Date (a non-finite number or one beyond 8.64e15 ms from the epoch). *)
Definition timeClip (x : float) : option Z :=
  match truncate x with
  | Some t => if Z.abs t <=? 8640000000000000 then Some t else None
  | None => None
  end.

(** [n] in decimal, padded with zeros to [width] digits. *)
Definition padded (width : nat) (n : Z) : string :=
  let digits := digitsOf (Z.to_N n) in
  (zeros (width - String.length digits) ++ digits)%string.

(** [toISOString()] of a valid moment: UTC, [YYYY-MM-DDTHH:mm:ss.SSSZ],
    with a signed six-digit year outside 0..9999. *)
Definition toISOString (t : Z) : string :=
  let d := Day t in
  let ms := t mod msPerDay in
  let y := YearFromDay d in
  let sign := if y <? 0 then "-" else "+" in
  let yearText := if (0 <=? y) && (y <=? 9999) then padded 4 y
                  else (sign ++ padded 6 (Z.abs y))%string in
  (yearText ++ "-" ++ padded 2 (MonthFromDay d + 1) ++ "-" ++ padded 2 (DateFromDay d)
   ++ "T" ++ padded 2 (ms / 3600000) ++ ":" ++ padded 2 (ms / 60000 mod 60)
   ++ ":" ++ padded 2 (ms / 1000 mod 60) ++ "." ++ padded 3 (ms mod 1000) ++ "Z")%string.

(** ** The calendar *)

Lemma DayFromYear_succ y : DayFromYear (y + 1) = DayFromYear y + DaysInYear y.
Proof.
  assert (H4 : (y - 1968) / 4 = (y - 1969) / 4 + (if y mod 4 =? 0 then 1 else 0)).
  { destruct (Z.eqb_spec (y mod 4) 0); Z.div_mod_to_equations; lia. }
  assert (H100 : (y - 1900) / 100 = (y - 1901) / 100 + (if y mod 100 =? 0 then 1 else 0)).
  { destruct (Z.eqb_spec (y mod 100) 0); Z.div_mod_to_equations; lia. }
  assert (H400 : (y - 1600) / 400 = (y - 1601) / 400 + (if y mod 400 =? 0 then 1 else 0)).
  { destruct (Z.eqb_spec (y mod 400) 0); Z.div_mod_to_equations; lia. }
  assert (Ha : y mod 100 = 0 -> y mod 4 = 0) by (intros; Z.div_mod_to_equations; lia).
  assert (Hb : y mod 400 = 0 -> y mod 100 = 0) by (intros; Z.div_mod_to_equations; lia).
  unfold DayFromYear, DaysInYear, InLeapYear.
  replace (y + 1 - 1969) with (y - 1968) by lia.
  replace (y + 1 - 1901) with (y - 1900) by lia.
  replace (y + 1 - 1601) with (y - 1600) by lia.
  rewrite H4, H100, H400.
  destruct (Z.eqb_spec (y mod 4) 0), (Z.eqb_spec (y mod 100) 0),
    (Z.eqb_spec (y mod 400) 0); simpl; lia.
Qed.

Lemma DaysInYear_range y : 365 <= DaysInYear y <= 366.
Proof. unfold DaysInYear. destruct (InLeapYear y); lia. Qed.

(** [YearFromDay] is the year of the ECMAScript definition: the one whose
    first day is the latest not after the day. *)
Lemma YearFromDay_spec d :
  DayFromYear (YearFromDay d) <= d < DayFromYear (YearFromDay d + 1).
Proof.
  assert (Hlo : DayFromYear (1970 + 400 * d / 146097 - 1) <= d).
  { unfold DayFromYear. Z.div_mod_to_equations. lia. }
  assert (Hhi : d < DayFromYear (1970 + 400 * d / 146097 + 2)).
  { unfold DayFromYear. Z.div_mod_to_equations. lia. }
  unfold YearFromDay. set (y0 := 1970 + 400 * d / 146097) in *.
  destruct (Z.leb_spec (DayFromYear (y0 + 1)) d).
  - split; [done|]. by replace (y0 + 1 + 1) with (y0 + 2) by lia.
  - destruct (Z.ltb_spec d (DayFromYear y0)).
    + split; [done|]. by replace (y0 - 1 + 1) with y0 by lia.
    + done.
Qed.

Lemma DayFromYear_mono a b : a <= b -> DayFromYear a <= DayFromYear b.
Proof. intros H. unfold DayFromYear. Z.div_mod_to_equations. lia. Qed.

Lemma YearFromDay_unique y d :
  DayFromYear y <= d < DayFromYear (y + 1) -> YearFromDay d = y.
Proof.
  intros [Hlo Hhi]. destruct (YearFromDay_spec d) as [Hlo' Hhi'].
  destruct (Z.lt_trichotomy (YearFromDay d) y) as [Hlt|[->|Hgt]]; [|done|].
  - pose proof (DayFromYear_mono (YearFromDay d + 1) y ltac:(lia)). lia.
  - pose proof (DayFromYear_mono (y + 1) (YearFromDay d) ltac:(lia)). lia.
Qed.

Lemma DayWithinYear_range d :
  0 <= DayWithinYear d < DaysInYear (YearFromDay d).
Proof.
  unfold DayWithinYear. pose proof (YearFromDay_spec d) as H.
  rewrite DayFromYear_succ in H. lia.
Qed.

Lemma monthStart_12 leap : monthStart leap 12 = if leap then 366 else 365.
Proof. by destruct leap. Qed.

(** The month of a day is the one whose span holds its day within the year. *)
Lemma MonthFromDay_spec d :
  let leap := InLeapYear (YearFromDay d) in
  0 <= MonthFromDay d <= 11 /\
  monthStart leap (MonthFromDay d) <= DayWithinYear d < monthStart leap (MonthFromDay d + 1).
Proof.
  pose proof (DayWithinYear_range d) as Hr. unfold DaysInYear in Hr.
  unfold MonthFromDay. simpl.
  destruct (InLeapYear (YearFromDay d)); simpl in *;
    repeat match goal with
           | |- context [?a <? ?b] => destruct (Z.ltb_spec a b)
           end; simpl; lia.
Qed.

Lemma MakeDay_in_year y m dt :
  0 <= m <= 11 -> MakeDay y m dt = DayFromYear y + monthStart (InLeapYear y) m + dt - 1.
Proof.
  intros Hm. unfold MakeDay.
  replace (m / 12) with 0 by (Z.div_mod_to_equations; lia).
  replace (m mod 12) with m by (Z.div_mod_to_equations; lia).
  by rewrite Z.add_0_r.
Qed.

Lemma MakeDay_next_year y : MakeDay y 12 1 = DayFromYear (y + 1).
Proof.
  unfold MakeDay. change (12 / 12) with 1. change (12 mod 12) with 0.
  simpl. lia.
Qed.

(** Year, month and date of a day give the day back. *)
Lemma MakeDay_of_day d :
  MakeDay (YearFromDay d) (MonthFromDay d) (DateFromDay d) = d.
Proof.
  destruct (MonthFromDay_spec d) as [Hm _].
  rewrite MakeDay_in_year by done. unfold DateFromDay, DayWithinYear. lia.
Qed.

Lemma MakeDay_shift y m dt k : MakeDay y m (dt + k) = MakeDay y m dt + k.
Proof. unfold MakeDay. lia. Qed.

Lemma month_span d :
  MakeDay (YearFromDay d) (MonthFromDay d) 1 <= d
  < MakeDay (YearFromDay d) (MonthFromDay d + 1) 1.
Proof.
  destruct (MonthFromDay_spec d) as [Hm Hs]. simpl in Hs.
  rewrite MakeDay_in_year by done.
  destruct (Z.eq_dec (MonthFromDay d) 11) as [E|E].
  - rewrite E in *. change (11 + 1) with 12 in *. rewrite MakeDay_next_year, DayFromYear_succ.
    rewrite monthStart_12 in Hs. unfold DayWithinYear, DaysInYear in *. lia.
  - rewrite MakeDay_in_year by lia. unfold DayWithinYear in *. lia.
Qed.

Lemma year_span d :
  MakeDay (YearFromDay d) 0 1 <= d < MakeDay (YearFromDay d + 1) 0 1.
Proof.
  rewrite !MakeDay_in_year by lia. simpl. pose proof (YearFromDay_spec d). lia.
Qed.

(** The first day of month [m] of year [y] is read back as such. *)
Lemma civil_of_month_start y m :
  0 <= m <= 11 ->
  let d := MakeDay y m 1 in
  YearFromDay d = y /\ MonthFromDay d = m /\ DateFromDay d = 1.
Proof.
  intros Hm d. subst d. rewrite MakeDay_in_year by done.
  set (d := DayFromYear y + monthStart (InLeapYear y) m + 1 - 1).
  assert (Hy : YearFromDay d = y).
  { apply YearFromDay_unique. rewrite DayFromYear_succ. unfold DaysInYear. subst d.
    destruct (InLeapYear y);
      assert (m = 0 \/ m = 1 \/ m = 2 \/ m = 3 \/ m = 4 \/ m = 5 \/ m = 6 \/ m = 7 \/
              m = 8 \/ m = 9 \/ m = 10 \/ m = 11) as Hc by lia;
      repeat (destruct Hc as [->|Hc]); try subst m; simpl; lia. }
  assert (Hw : DayWithinYear d = monthStart (InLeapYear y) m).
  { unfold DayWithinYear. rewrite Hy. subst d. lia. }
  assert (Hmo : MonthFromDay d = m).
  { unfold MonthFromDay. rewrite Hw, Hy.
    destruct (InLeapYear y);
      assert (m = 0 \/ m = 1 \/ m = 2 \/ m = 3 \/ m = 4 \/ m = 5 \/ m = 6 \/ m = 7 \/
              m = 8 \/ m = 9 \/ m = 10 \/ m = 11) as Hc by lia;
      repeat (destruct Hc as [->|Hc]); try subst m; reflexivity. }
  split_and!; [done|done|]. unfold DateFromDay. rewrite Hw, Hy, Hmo. lia.
Qed.

End Moment.

(* ===================================================================== *)
(** * DataService: analytics (src/services/dataService.js) *)
(* ===================================================================== *)

Module Analytics.

Import Moment.

Example civil_2025_03_10 :
  YearFromDay 20157 = 2025 /\ MonthFromDay 20157 = 2 /\ DateFromDay 20157 = 10 /\ WeekDay 20157 = 1.
Proof. vm_compute. auto. Qed.

Section Periods.
Variable zoneOffset : Z.

Definition getPeriodRange (date : Z) (periodType : string) : Completion (Z * Z) :=
  if String.eqb periodType "DAILY" then
    Return (startOf zoneOffset UDay date, endOf zoneOffset UDay date)
  else if String.eqb periodType "WEEKLY" then
    Return (startOf zoneOffset UWeek date, endOf zoneOffset UWeek date)
  else if String.eqb periodType "MONTHLY" then
    Return (startOf zoneOffset UMonth date, endOf zoneOffset UMonth date)
  else if String.eqb periodType "YEARLY" then
    Return (startOf zoneOffset UYear date, endOf zoneOffset UYear date)
  else Throw (PlainError "invalid period type").

(** The period of the specification's wording for WEEKLY, the ISO week
    (Monday to Sunday): moment's own unit [isoWeek]. *)
Definition isoWeekRange (date : Z) : Z * Z :=
  (startOf zoneOffset UIsoWeek date, endOf zoneOffset UIsoWeek date).

Definition localMidnight (t : Z) : Prop := (t + zoneOffset) mod msPerDay = 0.

(** The local calendar date of an instant: year, month (0 = January), day. *)
Definition civil (t : Z) : Z * Z * Z :=
  (year zoneOffset t, month zoneOffset t, date zoneOffset t).

(** The month after month [m] of year [y]. *)
Definition nextMonth (y m : Z) : Z * Z := if m =? 11 then (y + 1, 0) else (y, m + 1).

Lemma localDay_bounds t :
  localDay zoneOffset t * msPerDay <= t + zoneOffset
  < (localDay zoneOffset t + 1) * msPerDay.
Proof. unfold localDay, Day, msPerDay. Z.div_mod_to_equations. lia. Qed.

Lemma localDay_of_midnight d : localDay zoneOffset (d * msPerDay - zoneOffset) = d.
Proof.
  unfold localDay, Day. replace (d * msPerDay - zoneOffset + zoneOffset) with (d * msPerDay) by lia.
  apply Z.div_mul. done.
Qed.

Lemma localMidnight_of_day d : localMidnight (d * msPerDay - zoneOffset).
Proof.
  unfold localMidnight. replace (d * msPerDay - zoneOffset + zoneOffset) with (d * msPerDay) by lia.
  apply Z.mod_mul. done.
Qed.

Lemma localMidnight_plus_days s k :
  localMidnight s -> localMidnight (s + k * msPerDay).
Proof.
  unfold localMidnight. intros H.
  replace (s + k * msPerDay + zoneOffset) with (s + zoneOffset + k * msPerDay) by lia.
  by rewrite Z.mod_add.
Qed.

Lemma weekday_range t : 0 <= weekday zoneOffset t <= 6.
Proof. unfold weekday. Z.div_mod_to_equations. lia. Qed.

Lemma daily_range t :
  let s := startOf zoneOffset UDay t in
  let e := endOf zoneOffset UDay t in
  s <= t <= e /\ localMidnight s /\ e = s + msPerDay - 1.
Proof.
  simpl. unfold localStartOfDate, year, month, date.
  rewrite MakeDay_shift, MakeDay_of_day. pose proof (localDay_bounds t).
  split_and!; [lia|lia|apply localMidnight_of_day|lia].
Qed.
Lemma weekly_range t :
  let s := startOf zoneOffset UWeek t in
  let e := endOf zoneOffset UWeek t in
  s <= t <= e /\ localMidnight s /\ day zoneOffset s = localeDow /\
  e = s + 7 * msPerDay - 1.
Proof.
  simpl. unfold localStartOfDate, year, month, date.
  replace (DateFromDay (localDay zoneOffset t) - weekday zoneOffset t + 7)
    with (DateFromDay (localDay zoneOffset t) + (7 - weekday zoneOffset t)) by lia.
  replace (DateFromDay (localDay zoneOffset t) - weekday zoneOffset t)
    with (DateFromDay (localDay zoneOffset t) + (- weekday zoneOffset t)) by lia.
  rewrite !MakeDay_shift, MakeDay_of_day.
  pose proof (localDay_bounds t). pose proof (weekday_range t) as Hw.
  assert (msPerDay = 86400000) as Hms by reflexivity.
  split_and!; [nia|nia|apply localMidnight_of_day| |lia].
  unfold day at 1. rewrite localDay_of_midnight. unfold weekday, day, WeekDay, localeDow.
  Z.div_mod_to_equations. lia.
Qed.

Lemma MakeDay_nextMonth y m :
  0 <= m <= 11 ->
  MakeDay y (m + 1) 1 = MakeDay (fst (nextMonth y m)) (snd (nextMonth y m)) 1.
Proof.
  intros Hm. unfold nextMonth. destruct (Z.eqb_spec m 11) as [->|Hne]; simpl; [|done].
  rewrite MakeDay_next_year, MakeDay_in_year by lia. simpl. lia.
Qed.

Lemma monthly_range t :
  let s := startOf zoneOffset UMonth t in
  let e := endOf zoneOffset UMonth t in
  s <= t <= e /\ s < e /\ localMidnight s /\ localMidnight (e + 1) /\
  civil s = (year zoneOffset t, month zoneOffset t, 1) /\
  civil (e + 1) = (fst (nextMonth (year zoneOffset t) (month zoneOffset t)),
                   snd (nextMonth (year zoneOffset t) (month zoneOffset t)), 1).
Proof.
  unfold civil. simpl. unfold localStartOfDate, year, month, date.
  set (d := localDay zoneOffset t).
  pose proof (localDay_bounds t) as Hb. fold d in Hb.
  pose proof (month_span d) as Hs.
  destruct (MonthFromDay_spec d) as [Hm _].
  destruct (civil_of_month_start (YearFromDay d) (MonthFromDay d) Hm) as (Cy & Cm & Cd).
  assert (Hn : 0 <= snd (nextMonth (YearFromDay d) (MonthFromDay d)) <= 11).
  { unfold nextMonth. destruct (Z.eqb_spec (MonthFromDay d) 11); simpl; lia. }
  destruct (civil_of_month_start (fst (nextMonth (YearFromDay d) (MonthFromDay d))) _ Hn)
    as (Ny & Nm & Nd).
  rewrite (MakeDay_nextMonth _ _ Hm) in *.
  assert (msPerDay = 86400000) as Hms by reflexivity.
  set (a := MakeDay (YearFromDay d) (MonthFromDay d) 1) in *.
  set (b := MakeDay _ _ 1) in Ny, Nm, Nd, Hs |- *.
  replace (b * msPerDay - zoneOffset - 1 + 1) with (b * msPerDay - zoneOffset) by lia.
  rewrite !localDay_of_midnight, Cy, Cm, Cd, Ny, Nm, Nd.
  split_and!; try done; try apply localMidnight_of_day; nia.
Qed.

Lemma yearly_range t :
  let s := startOf zoneOffset UYear t in
  let e := endOf zoneOffset UYear t in
  s <= t <= e /\ s < e /\ localMidnight s /\ localMidnight (e + 1) /\
  civil s = (year zoneOffset t, 0, 1) /\
  civil (e + 1) = (year zoneOffset t + 1, 0, 1).
Proof.
  unfold civil. simpl. unfold localStartOfDate, year, month, date.
  set (d := localDay zoneOffset t).
  pose proof (localDay_bounds t) as Hb. fold d in Hb.
  pose proof (year_span d) as Hs.
  destruct (civil_of_month_start (YearFromDay d) 0 ltac:(lia)) as (Cy & Cm & Cd).
  destruct (civil_of_month_start (YearFromDay d + 1) 0 ltac:(lia)) as (Ny & Nm & Nd).
  assert (msPerDay = 86400000) as Hms by reflexivity.
  set (a := MakeDay (YearFromDay d) 0 1) in *.
  set (b := MakeDay (YearFromDay d + 1) 0 1) in *.
  replace (b * msPerDay - zoneOffset - 1 + 1) with (b * msPerDay - zoneOffset) by lia.
  rewrite !localDay_of_midnight, Cy, Cm, Cd, Ny, Nm, Nd.
  split_and!; try done; try apply localMidnight_of_day; nia.
Qed.

Opaque startOf endOf.

Lemma getPeriodRange_cases date periodType s e :
  getPeriodRange date periodType = Return (s, e) ->
  (periodType = "DAILY" /\ s = startOf zoneOffset UDay date /\ e = endOf zoneOffset UDay date) \/
  (periodType = "WEEKLY" /\ s = startOf zoneOffset UWeek date /\ e = endOf zoneOffset UWeek date) \/
  (periodType = "MONTHLY" /\ s = startOf zoneOffset UMonth date /\ e = endOf zoneOffset UMonth date) \/
  (periodType = "YEARLY" /\ s = startOf zoneOffset UYear date /\ e = endOf zoneOffset UYear date).
Proof.
  unfold getPeriodRange.
  assert (Hinj : forall a b : Z * Z, Return a = Return b -> fst b = fst a /\ snd b = snd a).
  { intros a b H. by inversion H. }
  destruct (String.eqb_spec periodType "DAILY") as [->|_].
  { intros H. apply Hinj in H as [Hs He]; cbn [fst snd] in Hs, He; subst s e. left. split_and!; reflexivity. }
  destruct (String.eqb_spec periodType "WEEKLY") as [->|_].
  { intros H. apply Hinj in H as [Hs He]; cbn [fst snd] in Hs, He; subst s e. right. left. split_and!; reflexivity. }
  destruct (String.eqb_spec periodType "MONTHLY") as [->|_].
  { intros H. apply Hinj in H as [Hs He]; cbn [fst snd] in Hs, He; subst s e. right. right. left. split_and!; reflexivity. }
  destruct (String.eqb_spec periodType "YEARLY") as [->|_].
  { intros H. apply Hinj in H as [Hs He]; cbn [fst snd] in Hs, He; subst s e. right. right. right. split_and!; reflexivity. }
  discriminate.
Qed.

End Periods.


(** 2025-03-10T14:22Z; 2025-03-10 is a Monday. *)
Definition march10 : Z := 1741616520000.


(** With the process in UTC, the MONTHLY period of 2025-03-10T14:22Z is
    [2025-03-01T00:00:00.000Z, 2025-03-31T23:59:59.999Z]. *)
Example getPeriodRange_monthly_march :
  getPeriodRange 0 march10 "MONTHLY" = Return (1740787200000, 1743465599999) /\
  civil 0 1740787200000 = (2025, 2, 1) /\ civil 0 1743465599999 = (2025, 2, 31).
Proof. vm_compute. auto. Qed.


(** ** User analytics *)

(** [x || 0] for a number [x]. *)
Definition orZero (x : float) : float := if truthy (JNum x) then x else 0%float.

(** [rows.reduce((sum, r) => sum + parseFloat(r[field] || 0), 0)] *)
Definition sumOf (field : string) (rows : list Obj) : float :=
  fold_left (fun sum r => (sum + parseFloat (or_else (get r field) (JNum 0)))%float) rows 0%float.

(** The result of [calculateDepositMetrics] and of [calculateBetMetrics]. *)
Record AmountMetrics := {
  total : float;
  count : nat;
  avg : float;
  first_date : JsVal;
  last_date : JsVal
}.

Record ActivityMetrics := {
  m_days_active : nat;
  m_sessions : nat;
  m_total_time : nat
}.

Record ResultMetrics := {
  wins : float;
  losses : float
}.

Record CpaMetrics := {
  qualified : bool;
  qualification_date : JsVal;
  amount : JsVal
}.

Record UserData := {
  ud_affiliate_id : JsVal;
  ud_deposits : AmountMetrics;
  ud_bets : AmountMetrics;
  ud_activity : ActivityMetrics;
  ud_results : ResultMetrics;
  ud_cpa : CpaMetrics
}.

(** The filters of a read of the external database. *)
Record Filters := {
  f_userId : Z;
  f_dateFrom : option Z;
  f_dateTo : option Z
}.

Section UserAnalytics.

Variable zoneOffset : Z.

(** What the computation draws on besides the rows: the read of the
    external database and the configuration client (either may throw), the
    clock, and two date computations left to the runtime: the dates of the
    least and the greatest [created_at] of a non-empty list of rows, and
    the number of distinct local days ([YYYY-MM-DD]) among rows. *)
Variable getExternalData : string -> Filters -> Completion (list Obj).
Variable cpaValidationRules : Completion unit.
Variable cpaLevel1 : Completion JsVal.
Variable now : Z.
Variable dateExtremes : list Obj -> JsVal * JsVal.
Variable distinctDays : list Obj -> nat.

Definition calculateAmountMetrics (rows : list Obj) : AmountMetrics :=
  match rows with
  | [] => {| total := 0; count := 0; avg := 0;
             first_date := JUndefined; last_date := JUndefined |}
  | _ :: _ =>
      let total := sumOf "amount" rows in
      let count := length rows in
      let avg := if (0 <? count)%nat then (total / ofNat count)%float else 0%float in
      {| total := total; count := count; avg := avg;
         first_date := fst (dateExtremes rows); last_date := snd (dateExtremes rows) |}
  end.

Definition calculateDepositMetrics (deposits : list Obj) : AmountMetrics :=
  calculateAmountMetrics deposits.

Definition calculateBetMetrics (bets : list Obj) : AmountMetrics :=
  calculateAmountMetrics bets.

Definition calculateActivityMetrics (transactions bets : list Obj) : ActivityMetrics :=
  let allActivities := transactions ++ bets in
  match allActivities with
  | [] => {| m_days_active := 0; m_sessions := 0; m_total_time := 0 |}
  | _ :: _ =>
      {| m_days_active := distinctDays allActivities;
         m_sessions := Nat.div (length allActivities + 9) 10;
         m_total_time := length allActivities * 5 |}
  end.

Definition resultIs (r : string) (bet : Obj) : bool :=
  match get bet "result" with
  | JStr s => String.eqb s r
  | _ => false
  end.

Definition calculateResultMetrics (bets : list Obj) : ResultMetrics :=
  match bets with
  | [] => {| wins := 0; losses := 0 |}
  | _ :: _ =>
      {| wins := sumOf "win_amount" (List.filter (resultIs "win") bets);
         losses := sumOf "amount" (List.filter (resultIs "loss") bets) |}
  end.

Definition calculateCpaMetrics (deposits bets : list Obj) : Completion CpaMetrics :=
  _ ← cpaValidationRules;
  let totalDeposits := sumOf "amount" deposits in
  let totalBets := sumOf "amount" bets in
  let betCount := length bets in
  let qualified := (30 <=? totalDeposits)%float && (10 <=? betCount)%nat
                   && (100 <=? totalBets)%float in
  if qualified then
    level_1 ← cpaLevel1;
    Return {| qualified := true; qualification_date := JDate (Some now); amount := level_1 |}
  else Return {| qualified := false; qualification_date := JNull; amount := JNum 0 |}.

(** [getUserDataForPeriod]: any error inside is caught and gives [null]. *)
Definition getUserDataForPeriod (userId periodStart periodEnd : Z) : option UserData :=
  let attempt : Completion (option UserData) :=
    userData ← getExternalData "users"
      {| f_userId := userId; f_dateFrom := None; f_dateTo := None |};
    match userData with
    | [] => Return None
    | user :: _ =>
        let window := {| f_userId := userId; f_dateFrom := Some periodStart;
                         f_dateTo := Some periodEnd |} in
        transactions ← getExternalData "transactions" window;
        bets ← getExternalData "bets" window;
        deposits ← getExternalData "deposits" window;
        cpaMetrics ← calculateCpaMetrics deposits bets;
        Return (Some {| ud_affiliate_id := get user "affiliate_id";
                        ud_deposits := calculateDepositMetrics deposits;
                        ud_bets := calculateBetMetrics bets;
                        ud_activity := calculateActivityMetrics transactions bets;
                        ud_results := calculateResultMetrics bets;
                        ud_cpa := cpaMetrics |})
    end in
  match attempt with
  | Return r => r
  | Throw _ => None
  end.

(** The [analytics] object literal of [generateUserAnalytics]. *)
Definition analyticsOf (userId : Z) (periodType : string) (periodStart periodEnd : Z)
    (userData : UserData) : Model.UserAnalytics :=
  {| Model.user_id := userId;
     Model.affiliate_id := ud_affiliate_id userData;
     Model.period_type := periodType;
     Model.period_start := periodStart;
     Model.period_end := periodEnd;
     Model.total_deposits := JNum (orZero (total (ud_deposits userData)));
     Model.deposit_count := JNum (orZero (ofNat (count (ud_deposits userData))));
     Model.first_deposit_date := first_date (ud_deposits userData);
     Model.last_deposit_date := last_date (ud_deposits userData);
     Model.avg_deposit_amount := JNum (orZero (avg (ud_deposits userData)));
     Model.total_bets := JNum (orZero (total (ud_bets userData)));
     Model.bet_count := JNum (orZero (ofNat (count (ud_bets userData))));
     Model.first_bet_date := first_date (ud_bets userData);
     Model.last_bet_date := last_date (ud_bets userData);
     Model.avg_bet_amount := JNum (orZero (avg (ud_bets userData)));
     Model.days_active := JNum (orZero (ofNat (m_days_active (ud_activity userData))));
     Model.sessions_count := JNum (orZero (ofNat (m_sessions (ud_activity userData))));
     Model.total_session_time_minutes :=
       JNum (orZero (ofNat (m_total_time (ud_activity userData))));
     Model.total_wins := JNum (orZero (wins (ud_results userData)));
     Model.total_losses := JNum (orZero (losses (ud_results userData)));
     Model.net_result :=
       JNum (orZero (wins (ud_results userData)) - orZero (losses (ud_results userData)));
     Model.cpa_qualified := or_else (JBool (qualified (ud_cpa userData))) (JBool false);
     Model.cpa_qualification_date := qualification_date (ud_cpa userData);
     Model.cpa_amount := or_else (amount (ud_cpa userData)) (JNum 0) |}.

(** [generateUserAnalytics] up to the write: the analytics object handed to
    [upsertUserAnalytics], nothing when no data was found ([null] is
    returned), or the error of an invalid period type. *)
Definition analyticsToWrite (userId : Z) (periodType : string) (specificDate : option Z)
    : Completion (option Model.UserAnalytics) :=
  let date := default now specificDate in
  '(periodStart, periodEnd) ← getPeriodRange zoneOffset date periodType;
  match getUserDataForPeriod userId periodStart periodEnd with
  | None => Return None
  | Some userData => Return (Some (analyticsOf userId periodType periodStart periodEnd userData))
  end.

(** ** Properties *)


Section Write.

Variable accepts : Model.UserAnalytics -> bool.
Variable rejection : Model.UserAnalytics -> JsError.

Definition generateUserAnalytics (userId : Z) (periodType : string)
    (specificDate : option Z) (t : Model.Table) : Completion (option Model.Row) * Model.Table :=
  match analyticsToWrite userId periodType specificDate with
  | Throw e => (Throw e, t)
  | Return None => (Return None, t)
  | Return (Some analytics) =>
      match Model.upsertUserAnalytics accepts rejection now analytics t with
      | (Return row, t') => (Return (Some row), t')
      | (Throw e, t') => (Throw e, t')
      end
  end.

End Write.

End UserAnalytics.

(** ** Ten deposits of 9999999999999.99 *)

Definition bigDeposit : Obj := {[ "amount" := JStr "9999999999999.99" ]}.

Definition demoExternalData (table : string) (f : Filters) : Completion (list Obj) :=
  if String.eqb table "users" then Return [ {[ "id" := JNum 42; "affiliate_id" := JNum 7 ]} ]
  else if String.eqb table "deposits" then Return (replicate 10 bigDeposit)
  else Return [].

Definition demoAnalytics : Completion (option Model.UserAnalytics) :=
  analyticsToWrite 0 demoExternalData (Return tt) (Return (JNum 50)) 1741616520000
    (fun _ => (JUndefined, JUndefined)) (fun _ => 0%nat) 42 "DAILY" (Some march10).

Definition demoRow : Model.UserAnalytics :=
  match demoAnalytics with
  | Return (Some a) => a
  | _ => Model.demoFirst
  end.



End Analytics.

(* ===================================================================== *)
(** * DataTransformer (src/etl/transformers/dataTransformer.js) *)
(* ===================================================================== *)

Module Transformer.

Import Moment.

(** What the transformer sends to the logger. *)
Inductive LogEntry :=
| WarnFieldTransform (field : string) (message : string)
| WarnInvalidDate (field : string)
| ErrorTransformRecord (sourceId : JsVal) (message : string).

(** One message of [validateRecord]. *)
Inductive ValidationError :=
| RequiredEmpty (field : string)
| InvalidEmail (field : string)
| NotNumeric (field : string)
| NotPositive (field : string)
| TooLong (field : string) (maxLength : N).

(** The [errors] of a rejected record: the messages of the validation, or
    the message of the exception that was caught. *)
Inductive Rejection :=
| FailedValidation (errors : list ValidationError)
| Raised (message : string).

Record Rejected := {
  rj_sourceRecord : Obj;
  rj_errors : Rejection
}.

Record Stats := {
  recordsProcessed : nat;
  recordsTransformed : nat;
  recordsRejected : nat;
  successRate : option string
}.

Record TransformResult := {
  transformedData : list EtlRecord;
  rejectedRecords : list Rejected;
  stats : Stats
}.

(** An assignment to a binding declared with [const] throws when it is
    executed, after its right-hand side has been evaluated. *)
Definition assignToConst {A} (binding : string) (value : A) : Completion A :=
  Throw (TypeError "Assignment to constant variable.").

(** [typeof value === 'string'] *)
Definition isString (v : JsVal) : bool :=
  match v with JStr _ => true | _ => false end.

Section WithMoment.

(** [moment(s)] for a string [s]: the instant it is parsed to, when it is
    parsed to a valid one. *)
Variable momentParse : string -> option Z.

(** [moment(value)] for a truthy value: the instant, or nothing when
    [isValid()] is false. *)
Definition momentOf (value : JsVal) : option Z :=
  match value with
  | JStr s => momentParse s
  | JNum x => timeClip x
  | JDate t => t
  | JBool _ | JNull | JUndefined => None
  end.

(** *** mapFields *)

Definition mapFields (sourceRecord : Obj) (fieldMapping : list (string * string)) : Obj :=
  fold_left (fun mappedRecord '(sourceField, targetField) =>
               match sourceRecord !! sourceField with
               | Some v => <[targetField := v]> mappedRecord
               | None => mappedRecord
               end) fieldMapping ∅.

(** *** applyDefaultTransformations *)

Definition isDateColumn (field : string) : bool :=
  includes field "_at" || includes field "_date" || includes field "date_".

Definition isNumberColumn (field : string) : bool :=
  includes field "amount" || includes field "_id" || String.eqb field "id".

Definition isBooleanText (v : JsVal) : bool :=
  match v with
  | JStr s => String.eqb (toLowerCase s) "true" || String.eqb (toLowerCase s) "false"
  | _ => false
  end.

(** [value !== null && value !== undefined && value !== ''] *)
Definition isPresent (v : JsVal) : bool :=
  match v with
  | JNull | JUndefined => false
  | JStr s => negb (String.eqb s "")
  | _ => true
  end.

(** The body of the [forEach] for one entry [(field, value)] of the
    snapshot, acting on the log and on [transformed]. *)
Definition defaultStep (field : string) (value : JsVal) (acc : list LogEntry * Obj)
    : list LogEntry * Obj :=
  let '(log, transformed) := acc in
  (* strings are trimmed, and empty ones become null *)
  let transformed :=
    match value with
    | JStr s => if String.eqb (trim s) "" then <[field := JNull]> transformed
                else <[field := JStr (trim s)]> transformed
    | _ => transformed
    end in
  (* dates *)
  let '(log, transformed) :=
    if isDateColumn field then
      if truthy value && negb (bool_decide (is_Some (momentOf value)))
      then (log ++ [WarnInvalidDate field], <[field := JNull]> transformed)
      else if truthy value
           then (log, <[field := match momentOf value with
                                 | Some t => JStr (toISOString t)
                                 | None => JNull
                                 end]> transformed)
           else (log, transformed)
    else (log, transformed) in
  (* numbers *)
  let transformed :=
    if isNumberColumn field && isPresent value && negb (isNaN (parseFloat value))
    then <[field := JNum (parseFloat value)]> transformed
    else transformed in
  (* booleans *)
  let transformed :=
    match value with
    | JStr s => if isBooleanText value
                then <[field := JBool (String.eqb (toLowerCase s) "true")]> transformed
                else transformed
    | _ => transformed
    end in
  (log, transformed).

Definition applyDefaultTransformations (record : Obj) : list LogEntry * Obj :=
  map_fold defaultStep ([], record) record.

(** *** applyTransformations *)

(** One entry of [transformations] applied to [transformedRecord]. *)
Definition transformStep (originalRecord : Obj) (acc : list LogEntry * Obj)
    (entry : string * TransformEntry) : list LogEntry * Obj :=
  let '(log, transformedRecord) := acc in
  let '(field, transformFunction) := entry in
  match transformedRecord !! field, transformFunction with
  | Some current, TFunction f =>
      match f current originalRecord with
      | Return v => (log, <[field := v]> transformedRecord)
      | Throw error => (log ++ [WarnFieldTransform field (err_message error)], transformedRecord)
      end
  | _, _ => (log, transformedRecord)
  end.

(** [transformedRecord] is declared with [const]: its properties may be
    written, but the assignment of the defaulted record to it throws. *)
Definition applyTransformations (record : Obj)
    (transformations : list (string * TransformEntry)) (originalRecord : Obj)
    : list LogEntry * Completion Obj :=
  let '(log, transformedRecord) :=
    fold_left (transformStep originalRecord) transformations ([], record) in
  let '(log', defaulted) := applyDefaultTransformations transformedRecord in
  (log ++ log',
   transformedRecord ← assignToConst "transformedRecord" defaulted;
   Return transformedRecord).

(** *** validateRecord *)

(** [/^[^\s@]+@[^\s@]+\.[^\s@]+$/] on a string. *)
Definition plainChar (c : ascii) : bool := negb (isWhiteSpace c) && negb (Ascii.eqb c "@").

Fixpoint allPlain (s : string) : bool :=
  match s with
  | EmptyString => true
  | String c rest => plainChar c && allPlain rest
  end.

(** A dot with plain text on both sides. *)
Fixpoint hasInnerDot (s : string) (seen : bool) : bool :=
  match s with
  | EmptyString => false
  | String c rest =>
      (seen && Ascii.eqb c "." && negb (String.eqb rest "") && allPlain rest)
      || (plainChar c && hasInnerDot rest true)
  end.

Fixpoint emailFrom (s : string) (seen : bool) : bool :=
  match s with
  | EmptyString => false
  | String c rest =>
      if Ascii.eqb c "@" then seen && hasInnerDot rest false
      else plainChar c && emailFrom rest true
  end.

Definition emailRegexTest (v : JsVal) : bool :=
  match v with
  | JStr s => emailFrom s false
  | _ => false
  end.

Definition requiredErrors (record : Obj) (fields : list string) : list ValidationError :=
  map RequiredEmpty (List.filter (fun field => negb (truthy (get record field))) fields).

Definition emailErrors (record : Obj) (emailField : string) : list ValidationError :=
  if truthy (get record emailField) && negb (emailRegexTest (get record emailField))
  then [InvalidEmail emailField] else [].

Definition isNullish (v : JsVal) : bool :=
  match v with JNull | JUndefined => true | _ => false end.

Definition numericErrors (record : Obj) (fields : list string) : list ValidationError :=
  map NotNumeric
    (List.filter (fun field => negb (isNullish (get record field))
                               && isNaN (parseFloat (get record field))) fields).

Definition positiveErrors (record : Obj) (fields : list string) : list ValidationError :=
  map NotPositive
    (List.filter (fun field =>
       negb (isNullish (get record field))
       && negb (isNaN (parseFloat (get record field)))
       && (parseFloat (get record field) <=? 0)%float) fields).

Definition maxLengthErrors (record : Obj) (limits : list (string * N)) : list ValidationError :=
  concat (map (fun '(field, maxLength) =>
                 match get record field with
                 | JStr s => if negb (String.eqb s "")
                                && (maxLength <? N.of_nat (String.length s))%N
                             then [TooLong field maxLength] else []
                 | _ => []
                 end) limits).

(** [validateRecord]: the errors, and the [_unique_fields] it sets. *)
Definition validateRecord (record : Obj) (v : Validations)
    : list ValidationError * option (list string) :=
  let errors :=
    match v_required v with Some fields => requiredErrors record fields | None => [] end
    ++ match v_email v with
       | Some emailField => if String.eqb emailField "" then [] else emailErrors record emailField
       | None => []
       end
    ++ match v_numeric v with Some fields => numericErrors record fields | None => [] end
    ++ match v_positive v with Some fields => positiveErrors record fields | None => [] end
    ++ match v_maxLength v with Some limits => maxLengthErrors record limits | None => [] end in
  (errors, v_unique v).

Definition noValidations : Validations :=
  {| v_required := None; v_email := None; v_numeric := None; v_positive := None;
     v_maxLength := None; v_unique := None |}.

(** *** transformTable *)

(** The [try] block of the loop of [transformTable] for one source record:
    the record to push, accepted or rejected, or the exception. *)
Definition transformRecord (mapping : Mapping) (sourceRecord : Obj)
    : list LogEntry * Completion (EtlRecord + Rejected) :=
  let mappedRecord := mapFields sourceRecord (fieldMapping mapping) in
  let '(log, applied) :=
    applyTransformations mappedRecord (default [] (transformations mapping)) sourceRecord in
  (log,
   transformedRecord ← applied;
   let '(errors, unique) :=
     validateRecord transformedRecord (default noValidations (validations mapping)) in
   match errors with
   | [] => Return (inl {| rec_fields := transformedRecord;
                          rec_etl_metadata :=
                            Some {| source_table := sourceTable mapping;
                                    target_table := targetTable mapping;
                                    source_id := get sourceRecord (primaryKey mapping) |};
                          rec_unique_fields := unique |})
   | _ :: _ => Return (inr {| rj_sourceRecord := sourceRecord;
                              rj_errors := FailedValidation errors |})
   end).

(** The loop: [transformedData] and [rejectedRecords] grow in source order. *)
Fixpoint transformRecords (mapping : Mapping) (sourceData : list Obj)
    : list LogEntry * list EtlRecord * list Rejected :=
  match sourceData with
  | [] => ([], [], [])
  | sourceRecord :: rest =>
      let '(log, outcome) := transformRecord mapping sourceRecord in
      let '(logRest, accepted, rejected) := transformRecords mapping rest in
      match outcome with
      | Return (inl record) => (log ++ logRest, record :: accepted, rejected)
      | Return (inr rejection) => (log ++ logRest, accepted, rejection :: rejected)
      | Throw error =>
          (log ++ [ErrorTransformRecord (get sourceRecord (primaryKey mapping))
                     (err_message error)] ++ logRest,
           accepted,
           {| rj_sourceRecord := sourceRecord; rj_errors := Raised (err_message error) |}
           :: rejected)
      end
  end.

(** [((transformed / input) * 100).toFixed(2)] *)
Definition successRateOf (transformed input : nat) : option string :=
  toFixed (ofNat transformed / ofNat input * 100)%float 2.

Definition transformTable (cfg : ETLConfig) (tableName : string) (sourceData : list Obj)
    : list LogEntry * Completion TransformResult :=
  match mappings cfg !! tableName with
  | None => ([], Throw (PlainError "mapping not found"))
  | Some mapping =>
      let '(log, transformedData, rejectedRecords) := transformRecords mapping sourceData in
      (log,
       Return {| transformedData := transformedData;
                 rejectedRecords := rejectedRecords;
                 stats := {| recordsProcessed := length sourceData;
                             recordsTransformed := length transformedData;
                             recordsRejected := length rejectedRecords;
                             successRate := successRateOf (length transformedData)
                                              (length sourceData) |} |})
  end.


(** *** The default coercions, field by field *)

(** What [applyDefaultTransformations] leaves in [field] when it held
    [value]: of the writes of one pass of the loop body, the last one. *)
Definition coerce (field : string) (value : JsVal) : JsVal :=
  if isBooleanText value
  then JBool (match value with
              | JStr s => String.eqb (toLowerCase s) "true"
              | _ => false
              end)
  else if isNumberColumn field && isPresent value && negb (isNaN (parseFloat value))
  then JNum (parseFloat value)
  else if isDateColumn field && truthy value
  then match momentOf value with
       | Some t => JStr (toISOString t)
       | None => JNull
       end
  else match value with
       | JStr s => if String.eqb (trim s) "" then JNull else JStr (trim s)
       | _ => value
       end.

(** The columns as the specification words them: a name that ends in [_at]
    or [_date] or begins with [date_], and a name that equals [id], contains
    [amount] or ends in [_id]. *)
Definition specDateColumn (field : string) : bool :=
  endsWith field "_at" || endsWith field "_date" || startsWith field "date_".

Definition specNumberColumn (field : string) : bool :=
  String.eqb field "id" || includes field "amount" || endsWith field "_id".

Lemma startsWith_includes s p : startsWith s p = true -> includes s p = true.
Proof. intros H. destruct s; cbn [includes]; rewrite H; reflexivity. Qed.

Lemma prefix_substring m s : String.prefix (String.substring 0 m s) s = true.
Proof.
  revert s. induction m as [|m IH]; intros [|c s]; simpl; try reflexivity.
  rewrite IH. destruct (ascii_dec c c); [reflexivity | contradiction].
Qed.

Lemma substring_includes n m s : includes s (String.substring n m s) = true.
Proof.
  revert s. induction n as [|n IH]; intros s.
  - apply startsWith_includes, prefix_substring.
  - destruct s as [|c s].
    + destruct m; reflexivity.
    + cbn [includes String.substring]. rewrite IH. apply orb_true_r.
Qed.

Lemma endsWith_includes s p : endsWith s p = true -> includes s p = true.
Proof.
  unfold endsWith. intros H. apply andb_true_iff in H as [_ H].
  apply String.eqb_eq in H. rewrite <- H. apply substring_includes.
Qed.

Lemma specDateColumn_isDateColumn field :
  specDateColumn field = true -> isDateColumn field = true.
Proof.
  unfold specDateColumn, isDateColumn. rewrite !orb_true_iff.
  intros [[H | H] | H];
    [ left; left; apply endsWith_includes
    | left; right; apply endsWith_includes
    | right; apply startsWith_includes ]; exact H.
Qed.

Lemma specNumberColumn_isNumberColumn field :
  specNumberColumn field = true -> isNumberColumn field = true.
Proof.
  unfold specNumberColumn, isNumberColumn. rewrite !orb_true_iff.
  intros [[H | H] | H]; [right | left; left | left; right; apply endsWith_includes]; exact H.
Qed.

(** One pass of the loop body writes [coerce field value], if anything. *)
Lemma defaultStep_insert field value log (transformed : Obj) :
  transformed !! field = Some value ->
  snd (defaultStep field value (log, transformed)) = <[field := coerce field value]> transformed.
Proof.
  intros Hcur. unfold defaultStep, coerce.
  destruct (isDateColumn field), (isNumberColumn field), value as [| |b|x|s|t];
    cbn [isBooleanText isPresent truthy andb negb snd momentOf bool_decide];
    repeat match goal with
           | |- context [if ?c then _ else _] => destruct c eqn:?
           | |- context [match ?o with Some _ => _ | None => _ end] => destruct o eqn:?
           end;
    cbn [snd]; rewrite ?insert_insert_eq; try reflexivity;
    try (symmetry; apply insert_id; exact Hcur); try discriminate; try congruence.
Qed.

Lemma defaultStep_fold (record init : Obj) :
  record ⊆ init ->
  forall field,
    snd (map_fold defaultStep ([], init) record) !! field
    = match record !! field with
      | Some value => Some (coerce field value)
      | None => init !! field
      end.
Proof.
  revert record.
  apply (map_fold_weak_ind (fun (r : list LogEntry * Obj) (m : Obj) =>
          m ⊆ init ->
          forall field, snd r !! field
                        = match m !! field with
                          | Some value => Some (coerce field value)
                          | None => init !! field
                          end)).
  - intros _ field. rewrite lookup_empty. reflexivity.
  - intros i x m [log transformed] Hfresh IH Hsub field.
    assert (Hm : m ⊆ init).
    { etrans; [apply insert_subseteq, Hfresh | exact Hsub]. }
    assert (Hx : init !! i = Some x).
    { eapply lookup_weaken; [apply lookup_insert_eq | exact Hsub]. }
    specialize (IH Hm).
    assert (Hcur : transformed !! i = Some x).
    { specialize (IH i). rewrite Hfresh in IH. cbn [snd] in IH. congruence. }
    rewrite (defaultStep_insert _ _ _ _ Hcur).
    destruct (decide (i = field)) as [-> | Hne].
    + rewrite !lookup_insert_eq. reflexivity.
    + rewrite !lookup_insert_ne by exact Hne. apply IH.
Qed.


(** *** Transformations that raise *)

Definition constAssignment : JsError := TypeError "Assignment to constant variable.".

(** The entry of [rejectedRecords] for a record whose [try] block raised
    the [const] assignment error. *)
Definition rejectedByAssignment (sourceRecord : Obj) : Rejected :=
  {| rj_sourceRecord := sourceRecord; rj_errors := Raised (err_message constAssignment) |}.

Lemma transformStep_raise originalRecord log (transformedRecord : Obj) field f current error :
  transformedRecord !! field = Some current ->
  f current originalRecord = Throw error ->
  transformStep originalRecord (log, transformedRecord) (field, TFunction f)
  = (log ++ [WarnFieldTransform field (err_message error)], transformedRecord).
Proof. intros Hcur Hf. unfold transformStep. rewrite Hcur, Hf. reflexivity. Qed.

Lemma applyTransformations_completion record transformations originalRecord :
  snd (applyTransformations record transformations originalRecord) = Throw constAssignment.
Proof.
  unfold applyTransformations.
  destruct (fold_left _ _ _) as [log transformedRecord].
  destruct (applyDefaultTransformations transformedRecord) as [log' defaulted].
  reflexivity.
Qed.

Lemma transformRecord_completion mapping sourceRecord :
  snd (transformRecord mapping sourceRecord) = Throw constAssignment.
Proof.
  unfold transformRecord.
  pose proof (applyTransformations_completion
                (mapFields sourceRecord (fieldMapping mapping))
                (default [] (transformations mapping)) sourceRecord) as H.
  destruct (applyTransformations _ _ _) as [log applied].
  cbn [snd] in *. rewrite H. reflexivity.
Qed.

Lemma transformRecords_rejects mapping sourceData :
  snd (fst (transformRecords mapping sourceData)) = []
  /\ snd (transformRecords mapping sourceData) = map rejectedByAssignment sourceData.
Proof.
  induction sourceData as [|sourceRecord rest [IHa IHr]]; [split; reflexivity |].
  cbn [transformRecords map].
  pose proof (transformRecord_completion mapping sourceRecord) as H.
  destruct (transformRecord mapping sourceRecord) as [log outcome].
  destruct (transformRecords mapping rest) as [[logRest accepted] rejected].
  cbn [fst snd] in *. subst outcome accepted rejected. split; reflexivity.
Qed.

(** C1 (what the code does). A transformation that raises leaves the
    record as it was and a warning is logged for the field; but
    [applyTransformations] then assigns to its [const] binding, for every
    record and every [transformations] object, so that it returns no record:
    it throws the type error. The [catch] of [transformTable] therefore puts
    every source record in [rejectedRecords], none in [transformedData], and
    no record is validated. *)
Theorem raising_transform_rejects_the_row :
  (forall originalRecord log (transformedRecord : Obj) field f current error,
      transformedRecord !! field = Some current ->
      f current originalRecord = Throw error ->
      transformStep originalRecord (log, transformedRecord) (field, TFunction f)
      = (log ++ [WarnFieldTransform field (err_message error)], transformedRecord))
  /\ (forall record transformations originalRecord,
         snd (applyTransformations record transformations originalRecord)
         = Throw (TypeError "Assignment to constant variable."))
  /\ (forall mapping sourceData,
         snd (fst (transformRecords mapping sourceData)) = []
         /\ snd (transformRecords mapping sourceData)
            = map (fun sourceRecord =>
                     {| rj_sourceRecord := sourceRecord;
                        rj_errors := Raised "Assignment to constant variable." |})
                  sourceData).
Proof.
  split_and!.
  - apply transformStep_raise.
  - apply applyTransformations_completion.
  - apply transformRecords_rejects.
Qed.

(** C6 (amended). After [applyDefaultTransformations] a field of the record
    holds [coerce] of the value it held, and the record has no other field.
    So: a string that reads true or false in any letter case becomes the
    boolean; otherwise, in a column whose name contains [amount] or [_id],
    or is [id], a value that is present and that [parseFloat] reads becomes
    that number; otherwise, in a column whose name contains [_at], [_date]
    or [date_], a truthy value becomes its ISO timestamp, or null when it is
    not a valid date; otherwise a string is trimmed, and becomes null when
    nothing is left. The columns that the specification names (a name ending
    in [_at] or [_date] or beginning with [date_]; a name that is [id],
    contains [amount] or ends in [_id]) are among these date and number
    columns. *)
Theorem applyDefaultTransformations_coerces (record : Obj) :
  (forall field,
      snd (applyDefaultTransformations record) !! field = coerce field <$> record !! field)
  /\ (forall field, specDateColumn field = true -> isDateColumn field = true)
  /\ (forall field, specNumberColumn field = true -> isNumberColumn field = true).
Proof.
  split_and!.
  - intros field. unfold applyDefaultTransformations.
    rewrite (defaultStep_fold record record) by reflexivity.
    destruct (record !! field); reflexivity.
  - apply specDateColumn_isDateColumn.
  - apply specNumberColumn_isNumberColumn.
Qed.

(** C9 (what the code does). The statistic is the quotient of the two
    lengths, times one hundred, printed with two decimals, for every batch;
    for the empty batch of a configured table the quotient is 0/0, and the
    statistic is the text NaN. An unconfigured table makes the call throw. *)
Theorem successRate_of_empty_batch cfg tableName :
  (forall sourceData,
      match snd (transformTable cfg tableName sourceData) with
      | Return r => successRate (stats r)
                    = toFixed (ofNat (recordsTransformed (stats r))
                               / ofNat (recordsProcessed (stats r)) * 100)%float 2
      | Throw _ => mappings cfg !! tableName = None
      end)
  /\ match snd (transformTable cfg tableName []) with
     | Return r => recordsProcessed (stats r) = 0%nat /\ successRate (stats r) = Some "NaN"
     | Throw _ => mappings cfg !! tableName = None
     end.
Proof.
  unfold transformTable. split.
  - intros sourceData. destruct (mappings cfg !! tableName) as [mapping|]; [| reflexivity].
    destruct (transformRecords mapping sourceData) as [[log accepted] rejected].
    reflexivity.
  - destruct (mappings cfg !! tableName) as [mapping|]; [| reflexivity].
    split; reflexivity.
Qed.

End WithMoment.

(** ** The users table of the configuration *)

(** [value.replace(/[^\\d]/g, '')] on a string. *)
Fixpoint stripNonDigits (s : string) : string :=
  match s with
  | EmptyString => EmptyString
  | String c rest => if isDigit c then String c (stripNonDigits rest) else stripNonDigits rest
  end.

(** [(value) => value ? value.replace(/[^\\d]/g, '') : null]: a truthy value
    that is not a string has no [replace] method, and the call throws. *)
Definition digitsOnly (value : JsVal) (row : Obj) : Completion JsVal :=
  if truthy value then
    match value with
    | JStr s => Return (JStr (stripNonDigits s))
    | _ => Throw (TypeError "value.replace is not a function")
    end
  else Return JNull.

(** [(value) => statusMap[value] || 'INACTIVE'], for a value that does not
    name a property that [statusMap] inherits from [Object.prototype]. *)
Definition userStatus (value : JsVal) (row : Obj) : Completion JsVal :=
  Return (JStr (match value with
                | JStr "active" => "ACTIVE"
                | JStr "inactive" => "INACTIVE"
                | JStr "suspended" => "SUSPENDED"
                | JStr "banned" => "BANNED"
                | _ => "INACTIVE"
                end)).

Definition usersMapping : Mapping :=
  {| sourceTable := "users";
     targetTable := "affiliates";
     primaryKey := "id";
     incrementalField := Some "updated_at";
     enabled := true;
     filters := None;
     fieldMapping :=
       [("id", "external_user_id"); ("username", "username"); ("email", "email");
        ("first_name", "first_name"); ("last_name", "last_name"); ("phone", "phone");
        ("document", "document"); ("birth_date", "birth_date");
        ("created_at", "created_at"); ("updated_at", "updated_at");
        ("status", "status"); ("referrer_id", "referrer_id")];
     transformations :=
       Some [("status", TFunction userStatus); ("document", TFunction digitsOnly);
             ("phone", TFunction digitsOnly)];
     validations :=
       Some {| v_required := Some ["external_user_id"; "username"; "email"];
               v_email := Some "email";
               v_numeric := None;
               v_positive := None;
               v_maxLength := None;
               v_unique := Some ["external_user_id"; "username"; "email"] |} |}.

(** The configuration, with its users table. *)
Definition usersConfig : ETLConfig :=
  {| general_batchSize := 1000; mappings := {["users" := usersMapping]} |}.

(** A user whose [document] column arrives as a number. *)
Definition ana : Obj :=
  list_to_map [("id", JNum 7); ("username", JStr "ana"); ("email", JStr "ana@example.com");
               ("document", JNum 12345678900)].

(** The transformation of [document] raises on the number, which is
    logged; the row is then rejected, with the error of the assignment, and
    the batch has no transformed record. *)
Example users_row_is_rejected momentParse :
  transformTable momentParse usersConfig "users" [ana]
  = ([WarnFieldTransform "document" "value.replace is not a function";
      ErrorTransformRecord (JNum 7) "Assignment to constant variable."],
     Return {| transformedData := [];
               rejectedRecords :=
                 [{| rj_sourceRecord := ana;
                     rj_errors := Raised "Assignment to constant variable." |}];
               stats := {| recordsProcessed := 1;
                           recordsTransformed := 0;
                           recordsRejected := 1;
                           successRate := Some "0.00" |} |}).
Proof. vm_compute. reflexivity. Qed.

(** Had the assignment been to a [let] binding, the same row would have
    been accepted with its [document] unchanged: the record passes the
    validations of the users table. *)
Example users_row_would_be_valid momentParse :
  let '(log, transformedRecord) :=
    fold_left (transformStep ana) (default [] (transformations usersMapping))
      ([], mapFields ana (fieldMapping usersMapping)) in
  let defaulted := snd (applyDefaultTransformations momentParse transformedRecord) in
  defaulted !! "document" = Some (JNum 12345678900)
  /\ fst (validateRecord defaulted (default noValidations (validations usersMapping))) = [].
Proof. vm_compute. split; reflexivity. Qed.

(** An empty batch of users. *)
Example users_empty_batch momentParse :
  transformTable momentParse usersConfig "users" []
  = ([], Return {| transformedData := [];
                   rejectedRecords := [];
                   stats := {| recordsProcessed := 0;
                               recordsTransformed := 0;
                               recordsRejected := 0;
                               successRate := Some "NaN" |} |}).
Proof. vm_compute. reflexivity. Qed.

(** ** Columns that only contain the marker *)

(** A parser of date strings that recognises none: the records below hold
    no string in a date column. *)
Definition noDateString (s : string) : option Z := None.

(** C6 (counterexample). [user_id_ref] does not end in [_id], is not [id]
    and does not contain [amount], yet its text 42 becomes the number 42;
    [login_attempts] neither ends in [_at] or [_date] nor begins with
    [date_], yet its count 3 becomes the timestamp of the third millisecond
    of 1970. *)
Lemma marker_inside_the_name_is_coerced :
  specNumberColumn "user_id_ref" = false
  /\ snd (applyDefaultTransformations noDateString {["user_id_ref" := JStr "42"]})
     = {["user_id_ref" := JNum 42]}
  /\ specDateColumn "login_attempts" = false
  /\ snd (applyDefaultTransformations noDateString {["login_attempts" := JNum 3]})
     = {["login_attempts" := JStr "1970-01-01T00:00:00.003Z"]}.
Proof. vm_compute. split_and!; reflexivity. Qed.

End Transformer.

(* ===================================================================== *)
(** * DataExtractor: extraction of a whole table
      (src/etl/extractors/dataExtractor.js, extractIncremental and extractFull) *)
(* ===================================================================== *)

Module FullExtraction.

Import Extractor.

(** The quotient of two counts as a JavaScript number: a division by zero
    gives Infinity, or NaN for 0/0. Counts are below 2^53. *)
Inductive Quotient :=
| Finite (n : N)
| Infinity
| NotANumber.

(** [Math.floor(a / b) + 1] *)
Definition floorDivPlusOne (a b : N) : Quotient :=
  if (b =? 0)%N then (if (a =? 0)%N then NotANumber else Infinity)
  else Finite (a / b + 1).

(** [Math.ceil(a / b)] *)
Definition ceilDiv (a b : N) : Quotient :=
  if (b =? 0)%N then (if (a =? 0)%N then NotANumber else Infinity)
  else Finite ((a + b - 1) / b).

(** The second argument of [onBatch]. *)
Record BatchInfo := {
  bi_batch : Quotient;
  bi_offset : N;
  bi_totalRecords : nat
}.

Record FullResult := {
  fr_totalRecords : nat;
  fr_batches : Quotient
}.

(** [extractIncremental]: a table without mapping or without incremental
    field throws; otherwise one page is read, from offset 0, of the rows
    newer than [lastSyncTime], in the order of the incremental field. *)
Definition extractIncremental (cfg : ETLConfig) (db : SourceDb) (tableName : string)
    (lastSyncTime : option JsVal) : Completion ExtractResult :=
  match mappings cfg !! tableName with
  | None => Throw (PlainError "table does not support incremental extraction")
  | Some mapping =>
      match incrementalField mapping with
      | None => Throw (PlainError "table does not support incremental extraction")
      | Some field =>
          if String.eqb field "" then
            Throw (PlainError "table does not support incremental extraction")
          else
            Return (extractTable cfg db tableName
                      {| opt_batchSize := None; opt_offset := None;
                         opt_incrementalField := Some field;
                         opt_lastSyncTime := lastSyncTime;
                         opt_filters := [];
                         opt_orderBy := Some field |})
      end
  end.

Section WithCallback.

(** What [onBatch] acts on, and the callback itself (absent when the
    caller passes none): it may throw, and what it did before stays done. *)
Context {W : Type}.
Variable cfg : ETLConfig.
Variable db : SourceDb.
Variable onBatch : option (list Obj -> BatchInfo -> W -> Completion unit * W).

Definition pageOptions (mapping : Mapping) (offset : N) : Options :=
  {| opt_batchSize := Some (general_batchSize cfg);
     opt_offset := Some offset;
     opt_incrementalField := None;
     opt_lastSyncTime := None;
     opt_filters := [];
     opt_orderBy := Some (primaryKey mapping) |}.

(** The [while (hasMore)] loop, from its state at the top of an iteration.
    [None]: the iterations allowed were not enough. *)
Fixpoint extractLoop (fuel : nat) (tableName : string) (mapping : Mapping)
    (offset : N) (totalRecords : nat) (s : W) : option (Completion nat * W) :=
  match fuel with
  | O => None
  | S fuel' =>
      let batchSize := general_batchSize cfg in
      match extractTable cfg db tableName (pageOptions mapping offset) with
      | ExtractFailed error =>
          Some (Throw (PlainError ("extraction error: " ++ error)), s)
      | ExtractOk data metadata =>
          let totalRecords := (totalRecords + length data)%nat in
          let hasMore := md_hasMore metadata in
          let '(called, s') :=
            match onBatch with
            | Some callback =>
                callback data {| bi_batch := floorDivPlusOne offset batchSize;
                                 bi_offset := offset;
                                 bi_totalRecords := totalRecords |} s
            | None => (Return tt, s)
            end in
          match called with
          | Throw e => Some (Throw e, s')
          | Return _ =>
              if hasMore
              then extractLoop fuel' tableName mapping (offset + batchSize)%N totalRecords s'
              else Some (Return totalRecords, s')
          end
      end
  end.

Definition extractFull (fuel : nat) (tableName : string) (s : W)
    : option (Completion FullResult * W) :=
  match mappings cfg !! tableName with
  | None => Some (Throw (PlainError "table not configured"), s)
  | Some mapping =>
      match extractLoop fuel tableName mapping 0%N 0%nat s with
      | None => None
      | Some (Throw e, s') => Some (Throw e, s')
      | Some (Return totalRecords, s') =>
          Some (Return {| fr_totalRecords := totalRecords;
                          fr_batches := ceilDiv (N.of_nat totalRecords)
                                          (general_batchSize cfg) |}, s')
      end
  end.

(** ** A table that does not change while it is read *)

(** The [k]-th page of [rows], for pages of [b] rows. *)
Definition pageAt (b : nat) (rows : list Obj) (k : nat) : list Obj :=
  take b (drop (k * b) rows).

(** The calls of [onBatch] for the pages [ks], in order, up to the first
    one that throws. *)
Fixpoint deliver (b : nat) (rows : list Obj) (ks : list nat) (s : W) : Completion unit * W :=
  match ks with
  | [] => (Return tt, s)
  | k :: rest =>
      let '(called, s') :=
        match onBatch with
        | Some callback =>
            callback (pageAt b rows k)
              {| bi_batch := Finite (N.of_nat k + 1);
                 bi_offset := N.of_nat (k * b);
                 bi_totalRecords := Nat.min (length rows) ((k + 1) * b) |} s
        | None => (Return tt, s)
        end in
      match called with
      | Throw e => (Throw e, s')
      | Return _ => deliver b rows rest s'
      end
  end.

(** What [extractFull] makes of the calls of [onBatch]. *)
Definition finish (totalRecords : nat) (batches : Quotient) (r : Completion unit * W)
    : Completion FullResult * W :=
  match r with
  | (Return _, s') => (Return {| fr_totalRecords := totalRecords; fr_batches := batches |}, s')
  | (Throw e, s') => (Throw e, s')
  end.

Section StaticTable.

Variable tableName : string.
Variable mapping : Mapping.
Variable rows : list Obj.

Let b : nat := N.to_nat (general_batchSize cfg).

Hypothesis batchSize_positive : (1 <= general_batchSize cfg)%N.
Hypothesis table_configured : mappings cfg !! tableName = Some mapping.
Hypothesis table_enabled : enabled mapping = true.
Hypothesis source_connects : connect db = Return tt.
(** LIMIT and OFFSET on the rows in the order of the primary key. *)
Hypothesis source_pages : forall offset,
  query db (buildExtractQuery mapping (general_batchSize cfg) offset None None []
              (Some (primaryKey mapping)))
  = Return (take b (drop (N.to_nat offset) rows)).

Lemma extractTable_page offset :
  extractTable cfg db tableName (pageOptions mapping offset)
  = ExtractOk (take b (drop (N.to_nat offset) rows))
      {| md_table := sourceTable mapping;
         md_recordCount := length (take b (drop (N.to_nat offset) rows));
         md_batchSize := general_batchSize cfg;
         md_offset := offset;
         md_hasMore := (N.of_nat (length (take b (drop (N.to_nat offset) rows)))
                        =? general_batchSize cfg)%N |}.
Proof.
  unfold extractTable, pageOptions, effectiveBatchSize. cbn [opt_batchSize opt_offset
    opt_incrementalField opt_lastSyncTime opt_filters opt_orderBy default from_option id].
  rewrite source_connects, table_configured. cbn [mbind completion_bind].
  rewrite table_enabled. cbn [mbind completion_bind].
  rewrite source_pages. reflexivity.
Qed.

Lemma b_positive : (1 <= b)%nat.
Proof. subst b. lia. Qed.

Lemma page_length k :
  length (pageAt b rows k) = Nat.min b (length rows - k * b).
Proof. unfold pageAt. rewrite length_take, length_drop. reflexivity. Qed.

Lemma extractLoop_pages d : forall k fuel s,
  (k + d = length rows / b)%nat -> (d < fuel)%nat ->
  extractLoop fuel tableName mapping (N.of_nat (k * b)) (k * b) s
  = Some (match deliver b rows (seq k (d + 1)) s with
          | (Return _, s') => (Return (length rows), s')
          | (Throw e, s') => (Throw e, s')
          end).
Proof.
  pose proof b_positive as Hb.
  assert (Hdiv : (length rows = b * (length rows / b) + length rows mod b)%nat)
    by (apply Nat.div_mod_eq).
  assert (Hmod : (length rows mod b < b)%nat) by (apply Nat.mod_upper_bound; lia).
  assert (HbN : general_batchSize cfg = N.of_nat b) by (subst b; lia).
  induction d as [|d IH]; intros k fuel s Hk Hfuel;
    (destruct fuel as [|fuel]; [lia|]); cbn [extractLoop];
    rewrite extractTable_page; cbn [md_hasMore];
    rewrite Nat2N.id; fold (pageAt b rows k); rewrite page_length;
    assert (Hbatch : floorDivPlusOne (N.of_nat (k * b)) (general_batchSize cfg)
                     = Finite (N.of_nat k + 1))
      by (unfold floorDivPlusOne; rewrite HbN;
          destruct (N.eqb_spec (N.of_nat b) 0); [lia|];
          rewrite Nat2N.inj_mul, N.div_mul by lia; reflexivity);
    rewrite Hbatch;
    assert (Htot : (k * b + Nat.min b (length rows - k * b)
                    = Nat.min (length rows) ((k + 1) * b))%nat) by nia;
    rewrite Htot.
  - assert (Hmore : (N.of_nat (Nat.min b (length rows - k * b)) =? general_batchSize cfg)%N
                    = false) by (apply N.eqb_neq; rewrite HbN; nia).
    rewrite Hmore. cbn [seq Nat.add deliver].
    assert (Hn : Nat.min (length rows) ((k + 1) * b) = length rows) by nia.
    destruct onBatch as [callback|].
    + destruct (callback _ _ s) as [[[]|e] s']; rewrite ?Hn; reflexivity.
    + rewrite Hn. reflexivity.
  - assert (Hmore : (N.of_nat (Nat.min b (length rows - k * b)) =? general_batchSize cfg)%N
                    = true) by (apply N.eqb_eq; rewrite HbN; nia).
    rewrite Hmore. cbn [seq Nat.add deliver].
    assert (Hn : Nat.min (length rows) ((k + 1) * b) = (S k * b)%nat) by nia.
    assert (Hoff : (N.of_nat (k * b) + general_batchSize cfg)%N = N.of_nat (S k * b))
      by (rewrite HbN; lia).
    rewrite Hoff.
    destruct onBatch as [callback|].
    + destruct (callback _ _ s) as [[[]|e] s']; [|reflexivity].
      rewrite Hn. apply IH; lia.
    + rewrite Hn. apply IH; lia.
Qed.

Lemma pages_concat d : forall k,
  (k + d = length rows / b)%nat ->
  concat (map (pageAt b rows) (seq k (d + 1))) = drop (k * b) rows.
Proof.
  pose proof b_positive as Hb.
  assert (Hdiv : (length rows = b * (length rows / b) + length rows mod b)%nat)
    by (apply Nat.div_mod_eq).
  assert (Hmod : (length rows mod b < b)%nat) by (apply Nat.mod_upper_bound; lia).
  induction d as [|d IH]; intros k Hk; cbn [seq Nat.add map concat].
  - rewrite app_nil_r. unfold pageAt. apply take_ge. rewrite length_drop. nia.
  - rewrite IH by lia. unfold pageAt.
    replace (S k * b)%nat with (k * b + b)%nat by lia.
    rewrite <- drop_drop. apply take_drop.
Qed.

End StaticTable.

(** X1. Over a source that answers LIMIT/OFFSET on a table that does not
    change, with a batch size of at least 1, [extractFull] returns after
    [n / b + 1] queries: [onBatch] receives the pages of [b] rows in order,
    numbered from 1, up to the first call that throws; the last page is the
    remainder, empty when [b] divides [n]; the pages together are the table;
    [totalRecords] is [n] and [batches] is [n / b] rounded up. *)
Theorem extractFull_reads_every_page tableName mapping rows fuel s :
  (1 <= general_batchSize cfg)%N ->
  mappings cfg !! tableName = Some mapping ->
  enabled mapping = true ->
  connect db = Return tt ->
  (forall offset,
      query db (buildExtractQuery mapping (general_batchSize cfg) offset None None []
                  (Some (primaryKey mapping)))
      = Return (take (N.to_nat (general_batchSize cfg)) (drop (N.to_nat offset) rows))) ->
  let b := N.to_nat (general_batchSize cfg) in
  let pages := seq 0 (length rows / b + 1) in
  (length rows / b < fuel)%nat ->
  extractFull fuel tableName s
  = Some (finish (length rows)
            (Finite ((N.of_nat (length rows) + general_batchSize cfg - 1)
                     / general_batchSize cfg))
            (deliver b rows pages s))
  /\ concat (map (pageAt b rows) pages) = rows
  /\ length (pageAt b rows (length rows / b)) = (length rows mod b)%nat.
Proof.
  intros Hb Hm Hen Hconn Hpage b pages Hfuel. split_and!.
  - unfold extractFull. rewrite Hm.
    pose proof (extractLoop_pages tableName mapping rows Hb Hm Hen Hconn Hpage
                  (length rows / b) 0%nat fuel s eq_refl Hfuel) as Hloop.
    change (extractLoop fuel tableName mapping 0%N 0%nat s = Some
              match deliver b rows (seq 0 (length rows / b + 1)) s with
              | (Return _, s') => (Return (length rows), s')
              | (Throw e, s') => (Throw e, s')
              end) in Hloop.
    rewrite Hloop.
    unfold ceilDiv. destruct (N.eqb_spec (general_batchSize cfg) 0); [lia|].
    subst pages. destruct (deliver b rows _ s) as [[[]|e] s']; reflexivity.
  - pose proof (pages_concat rows Hb (length rows / b) 0%nat) as Hc.
    fold b in Hc. subst pages. rewrite Hc by lia. reflexivity.
  - fold b. rewrite (page_length rows).
    assert (1 <= b)%nat by (subst b; lia).
    pose proof (Nat.div_mod_eq (length rows) b).
    pose proof (Nat.mod_upper_bound (length rows) b). nia.
Qed.

End WithCallback.

(** ** Four users read two at a time *)

Definition pagedConfig : ETLConfig :=
  {| general_batchSize := 2; mappings := {["users" := demo_mapping]} |}.

Definition fourUsers : list Obj :=
  [ {["id" := JNum 1]}; {["id" := JNum 2]}; {["id" := JNum 3]}; {["id" := JNum 4]} ].

(** A source that holds [rows] and honours LIMIT and OFFSET. *)
Definition pagedDb (rows : list Obj) : SourceDb :=
  {| connect := Return tt;
     query := fun q =>
       let rest := drop (N.to_nat (default 0%N (q_offset q))) rows in
       Return (match q_limit q with
               | Some n => take (N.to_nat n) rest
               | None => rest
               end) |}.

(** A callback that keeps the pages it receives. *)
Definition keepPages (data : list Obj) (info : BatchInfo) (kept : list (list Obj * BatchInfo))
    : Completion unit * list (list Obj * BatchInfo) :=
  (Return tt, kept ++ [(data, info)]).

Lemma extractFull_reads_every_page_witness :
  extractFull pagedConfig (pagedDb fourUsers) (Some keepPages) 3 "users" []
  = Some (Return {| fr_totalRecords := 4; fr_batches := Finite 2 |},
          [ ([ {["id" := JNum 1]}; {["id" := JNum 2]} ],
             {| bi_batch := Finite 1; bi_offset := 0; bi_totalRecords := 2 |});
            ([ {["id" := JNum 3]}; {["id" := JNum 4]} ],
             {| bi_batch := Finite 2; bi_offset := 2; bi_totalRecords := 4 |});
            ([], {| bi_batch := Finite 3; bi_offset := 4; bi_totalRecords := 4 |}) ]).
Proof.
  refine (proj1 (extractFull_reads_every_page pagedConfig (pagedDb fourUsers)
                   (Some keepPages) "users" demo_mapping fourUsers 3 [] _ _ _ _ _ _)).
  - vm_compute. discriminate.
  - reflexivity.
  - reflexivity.
  - reflexivity.
  - intros offset. destruct offset; reflexivity.
  - vm_compute. lia.
Defined.

End FullExtraction.

(* ===================================================================== *)
(** * DataLoader: loading a table (etl/loaders/dataLoader.js, loadTable and
      chunkArray) *)
(* ===================================================================== *)

Module TableLoad.

Import Loader.

(** [array.slice(i, i + chunkSize)] *)
Definition slice {A} (array : list A) (i chunkSize : nat) : list A :=
  take chunkSize (drop i array).

(** The [for] loop of [chunkArray], from index [i]. [None]: the iterations
    allowed were not enough. *)
Fixpoint chunkLoop {A} (fuel : nat) (array : list A) (chunkSize i : nat)
    : option (list (list A)) :=
  if (i <? length array)%nat then
    match fuel with
    | O => None
    | S fuel' =>
        match chunkLoop fuel' array chunkSize (i + chunkSize) with
        | Some chunks => Some (slice array i chunkSize :: chunks)
        | None => None
        end
    end
  else Some [].

Definition chunkArray {A} (fuel : nat) (array : list A) (chunkSize : nat)
    : option (list (list A)) :=
  chunkLoop fuel array chunkSize 0.

(** What [loadTable] resolves to: [success: true] with the loader's
    statistics and [recordsProcessed], or [success: false] with the message
    of the error and the statistics. *)
Inductive LoadResult :=
| LoadOk (stats : Stats) (recordsProcessed : nat)
| LoadFailed (error : string) (stats : Stats).

Section WithClient.

Context {Db : Type}.
Variable poolConnect : Db -> Completion unit.
Variable exec : Statement -> Db -> Completion (list Obj) * Db.
(** [this.connect()], with its retries. *)
Variable connect : @M Db unit.

Notation "'let*' x := c 'in' k" := (bindM c (fun x => k))
  (at level 10, x name, c at level 100, k at level 200).

(** The loop over the batches. *)
Fixpoint loadBatches (mapping : Mapping) (batches : list (list EtlRecord))
    (recordsProcessed : nat) : @M Db nat :=
  match batches with
  | [] => ret recordsProcessed
  | batch :: rest =>
      let* _ := loadBatch poolConnect exec mapping batch in
      loadBatches mapping rest (recordsProcessed + length batch)
  end.

Definition loadTable (fuel : nat) (cfg : ETLConfig) (tableName : string)
    (transformedData : list EtlRecord) (st : @St Db)
    : option (Completion LoadResult * @St Db) :=
  match mappings cfg !! tableName with
  | None => Some (Throw (PlainError "mapping not found"), st)
  | Some mapping =>
      match connect st with
      | (Throw error, st1) =>
          Some (Return (LoadFailed (err_message error) (loadStats st1)), st1)
      | (Return _, st1) =>
          match chunkArray fuel transformedData (N.to_nat (general_batchSize cfg)) with
          | None => None
          | Some batches =>
              match loadBatches mapping batches 0 st1 with
              | (Return recordsProcessed, st2) =>
                  Some (Return (LoadOk (loadStats st2) recordsProcessed), st2)
              | (Throw error, st2) =>
                  Some (Return (LoadFailed (err_message error) (loadStats st2)), st2)
              end
          end
      end
  end.

End WithClient.

(** ** chunkArray *)

Lemma chunkLoop_spec {A} (array : list A) chunkSize : forall fuel i,
  (1 <= chunkSize)%nat -> (length array <= i + fuel)%nat ->
  exists chunks,
    chunkLoop fuel array chunkSize i = Some chunks
    /\ concat chunks = drop i array
    /\ Forall (fun c => 1 <= length c <= chunkSize)%nat chunks
    /\ (length chunks = (length array - i + chunkSize - 1) / chunkSize)%nat.
Proof.
  intros fuel i Hsize. revert i. induction fuel as [|fuel IH]; intros i Hlen.
  - exists []. cbn [chunkLoop]. destruct (Nat.ltb_spec i (length array)); [lia|].
    split_and!; [reflexivity | by rewrite drop_ge by lia | constructor |].
    cbn [length]. symmetry. apply Nat.div_small. lia.
  - cbn [chunkLoop]. destruct (Nat.ltb_spec i (length array)) as [Hlt|Hge].
    + destruct (IH (i + chunkSize)%nat) as (chunks & -> & Hc & Hf & Hn); [lia|].
      exists (slice array i chunkSize :: chunks). split_and!.
      * reflexivity.
      * cbn [concat]. rewrite Hc. unfold slice.
        rewrite <- drop_drop. apply take_drop.
      * constructor; [|exact Hf]. unfold slice. rewrite length_take, length_drop. lia.
      * cbn [length]. rewrite Hn.
        destruct (Nat.le_gt_cases (length array) (i + chunkSize)) as [Hlast|Hmore].
        -- replace (length array - (i + chunkSize))%nat with 0%nat by lia.
           rewrite (Nat.div_small (0 + chunkSize - 1)) by lia.
           apply (Nat.div_unique _ _ 1 (length array - i - 1)); lia.
        -- replace (length array - i + chunkSize - 1)%nat
             with ((length array - (i + chunkSize) + chunkSize - 1) + 1 * chunkSize)%nat by lia.
           rewrite Nat.div_add by lia. lia.
    + exists []. split_and!; [reflexivity | by rewrite drop_ge by lia | constructor |].
      cbn [length]. symmetry. apply Nat.div_small. lia.
Qed.

Lemma chunkLoop_stuck {A} (array : list A) i : forall fuel,
  (i < length array)%nat -> chunkLoop fuel array 0 i = None.
Proof.
  induction fuel as [|fuel IH]; intros Hi; cbn [chunkLoop];
    destruct (Nat.ltb_spec i (length array)); try lia; [reflexivity|].
  rewrite Nat.add_0_r, IH by lia. reflexivity.
Qed.

Lemma chunkLoop_within {A} (array : list A) chunkSize : forall fuel i chunks,
  chunkLoop fuel array chunkSize i = Some chunks ->
  (length (concat chunks) <= length array - i)%nat.
Proof.
  induction fuel as [|fuel IH]; intros i chunks; cbn [chunkLoop];
    destruct (Nat.ltb_spec i (length array)); try discriminate;
    try (intros [= <-]; simpl; lia).
  destruct (chunkLoop fuel array chunkSize (i + chunkSize)) as [rest|] eqn:E; [|discriminate].
  intros [= <-]. cbn [concat]. rewrite length_app. apply IH in E.
  unfold slice. rewrite length_take, length_drop. lia.
Qed.

(** X2. With a chunk size of at least 1, [chunkArray] returns within
    [array.length] iterations; its chunks, in order, make up the array,
    each holds between 1 and [chunkSize] elements, and there are
    [length / chunkSize] of them, rounded up (none for an empty array).
    With a chunk size of 0 and a non-empty array the loop never ends. *)
Theorem chunkArray_covers {A} (array : list A) (chunkSize fuel : nat) :
  ((1 <= chunkSize)%nat -> (length array <= fuel)%nat ->
     exists chunks,
       chunkArray fuel array chunkSize = Some chunks
       /\ concat chunks = array
       /\ Forall (fun c => 1 <= length c <= chunkSize)%nat chunks
       /\ (length chunks = (length array + chunkSize - 1) / chunkSize)%nat)
  /\ (chunkSize = 0%nat -> array <> [] -> chunkArray fuel array chunkSize = None).
Proof.
  split.
  - intros Hsize Hfuel.
    destruct (chunkLoop_spec array chunkSize fuel 0 Hsize) as (chunks & E & Hc & Hf & Hn);
      [lia|].
    exists chunks. rewrite Nat.sub_0_r in Hn. split_and!; done.
  - intros -> Hne. apply chunkLoop_stuck. destruct array; [done | simpl; lia].
Qed.

(** ** loadTable *)

Section Properties.

Context {Db : Type}.
Variable poolConnect : Db -> Completion unit.
Variable exec : Statement -> Db -> Completion (list Obj) * Db.
Variable connect : @M Db unit.

Lemma loadBatches_processed mapping batches : forall n st k st',
  loadBatches poolConnect exec mapping batches n st = (Return k, st') ->
  k = (n + length (concat batches))%nat.
Proof.
  induction batches as [|batch rest IH]; intros n st k st'; cbn [loadBatches concat].
  - intros [= <- _]. simpl. lia.
  - unfold bindM. destruct (loadBatch poolConnect exec mapping batch st) as [[[]|e] st1];
      [|discriminate].
    intros H. apply IH in H. rewrite length_app. lia.
Qed.

(** The statistics only grow while a row is attempted. *)
Lemma loadRecords_grows mapping batch (st : @St Db) :
  (recordsLoaded (loadStats st)
   <= recordsLoaded (loadStats (snd (loadRecords exec mapping batch st))))%nat.
Proof.
  destruct (loadRecords_stats exec mapping batch st) as [_ H]. simpl in H. lia.
Qed.

(** X21. The statements that one record makes the loader send: with a
    falsy key ([0], the empty string, null or no key at all) the record is
    inserted without any lookup; otherwise the row with that key is
    selected first, and the record is written by an UPDATE of the row found,
    or by an INSERT when none was found; when the SELECT throws nothing
    else is sent. *)
Theorem attemptRecord_statements mapping (record : EtlRecord) (st : @St Db) :
  let table := targetTable mapping in
  let key := get (rec_fields record) (keyFieldOf mapping) in
  let select := SSelectId table (keyFieldOf mapping) key in
  issued (snd (attemptRecord exec mapping record st))
  = issued st
    ++ (if truthy key then
          select ::
          match fst (exec select (db st)) with
          | Throw _ => []
          | Return [] => [SInsert table (rec_fields record)]
          | Return (existing :: _) => [SUpdate table (rec_fields record) (get existing "id")]
          end
        else [SInsert table (rec_fields record)]).
Proof.
  cbn zeta.
  unfold attemptRecord, findExistingRecord, updateRecord, insertRecord, firstRowId,
    bindM, query, updStats, ret, throw.
  destruct (truthy (get (rec_fields record) (keyFieldOf mapping))); cbn [negb].
  - destruct (exec (SSelectId _ _ _) (db st)) as [[[|existing rows]|e] db1]; cbn;
      try reflexivity;
      match goal with
      | |- context [exec ?s db1] => destruct (exec s db1) as [[[|row rows']|e'] db2]
      end; cbn; by rewrite <- app_assoc.
  - cbn.
    match goal with
    | |- context [exec ?s (db st)] => destruct (exec s (db st)) as [[[|row rows']|e'] db2]
    end; reflexivity.
Qed.

(** X3. For a configured table and a batch size of at least 1,
    [loadTable] always resolves, with [success: true] or [success: false];
    it does not throw, whatever the pool and the server answer. The
    statistics it reports are the loader's running totals at that moment.
    On success [recordsProcessed] is the number of records it was given;
    given no record, it succeeds after [connect] alone, sending nothing. *)
Theorem loadTable_resolves fuel cfg tableName mapping
    (transformedData : list EtlRecord) (st : @St Db) :
  mappings cfg !! tableName = Some mapping ->
  (1 <= general_batchSize cfg)%N ->
  (length transformedData <= fuel)%nat ->
  exists result st',
    loadTable poolConnect exec connect fuel cfg tableName transformedData st
    = Some (Return result, st')
    /\ match result with
       | LoadOk stats recordsProcessed =>
           stats = loadStats st'
           /\ recordsProcessed = length transformedData
           /\ fst (connect st) = Return tt
           /\ (transformedData = [] -> st' = snd (connect st))
       | LoadFailed error stats => stats = loadStats st'
       end.
Proof.
  intros Hm Hb Hfuel. unfold loadTable. rewrite Hm.
  destruct (connect st) as [[[]|e] st1] eqn:Hc.
  2:{ eexists _, _. split; [reflexivity | reflexivity]. }
  destruct (chunkLoop_spec transformedData (N.to_nat (general_batchSize cfg)) fuel 0)
    as (batches & E & Hcat & _ & Hn); [lia | lia |].
  unfold chunkArray. rewrite E.
  destruct (loadBatches poolConnect exec mapping batches 0 st1) as [[k|e] st2] eqn:Hl.
  - eexists _, _. split; [reflexivity|]. split_and!; try reflexivity.
    + apply loadBatches_processed in Hl. rewrite Hcat in Hl. exact Hl.
    + intros ->. cbn [length Nat.sub Nat.add] in Hn.
      rewrite Nat.div_small in Hn by lia.
      destruct batches; [|discriminate]. cbn in Hl. by injection Hl as _ <-.
  - eexists _, _. split; reflexivity.
Qed.

Lemma query_stats statement (st : @St Db) :
  loadStats (snd (query exec statement st)) = loadStats st.
Proof. unfold query. destruct (exec statement (db st)). reflexivity. Qed.

Lemma rowOutcomes_length mapping batch : forall st : @St Db,
  (length (rowOutcomes exec mapping batch st) <= length batch)%nat.
Proof.
  induction batch as [|record rest IH]; intros st; cbn [rowOutcomes length]; [lia|].
  destruct (settled _); [specialize (IH (snd (loadRecord exec mapping record st))) | simpl]; lia.
Qed.

Lemma loadRecords_bounds mapping batch (st : @St Db) :
  let after := loadStats (snd (loadRecords exec mapping batch st)) in
  (recordsLoaded (loadStats st) <= recordsLoaded after
   <= recordsLoaded (loadStats st) + length batch)%nat.
Proof.
  destruct (loadRecords_stats exec mapping batch st) as [_ H]. simpl in *.
  pose proof (rowOutcomes_length mapping batch st) as Hlen.
  assert (countOutcomes isLoaded (rowOutcomes exec mapping batch st)
          <= length (rowOutcomes exec mapping batch st))%nat
    by (unfold countOutcomes; apply List.filter_length_le).
  lia.
Qed.

Lemma loadBatch_bounds mapping batch (st : @St Db) :
  let after := loadStats (snd (loadBatch poolConnect exec mapping batch st)) in
  (recordsLoaded (loadStats st) <= recordsLoaded after
   <= recordsLoaded (loadStats st) + length batch)%nat.
Proof.
  unfold loadBatch. destruct (poolConnect (db st)); [|simpl; lia].
  unfold tryCatch, bindM, ret, throw.
  pose proof (query_stats SBegin st) as Hb.
  destruct (query exec SBegin st) as [[rows0|e0] st1]; cbn [snd] in Hb.
  - pose proof (loadRecords_bounds mapping batch st1) as Hr. cbn zeta in Hr.
    destruct (loadRecords exec mapping batch st1) as [[[]|e1] st2]; cbn [snd] in Hr.
    + pose proof (query_stats SCommit st2) as Hc.
      destruct (query exec SCommit st2) as [[rows1|e2] st3]; cbn [snd] in Hc.
      * cbn [snd]. rewrite Hc, <- Hb. exact Hr.
      * pose proof (query_stats SRollback st3) as Hk.
        destruct (query exec SRollback st3) as [[rows2|e3] st4]; cbn [snd] in *;
          rewrite Hk, Hc, <- Hb; exact Hr.
    + pose proof (query_stats SRollback st2) as Hk.
      destruct (query exec SRollback st2) as [[rows2|e3] st4]; cbn [snd] in *;
        rewrite Hk, <- Hb; exact Hr.
  - pose proof (query_stats SRollback st1) as Hk.
    destruct (query exec SRollback st1) as [[rows2|e3] st4]; cbn [snd] in *;
      rewrite Hk, Hb; lia.
Qed.

Lemma loadBatches_bounds mapping batches : forall n (st : @St Db),
  let after := loadStats (snd (loadBatches poolConnect exec mapping batches n st)) in
  (recordsLoaded (loadStats st) <= recordsLoaded after
   <= recordsLoaded (loadStats st) + length (concat batches))%nat.
Proof.
  induction batches as [|batch rest IH]; intros n st; cbn [loadBatches concat].
  - simpl. lia.
  - unfold bindM. pose proof (loadBatch_bounds mapping batch st) as Hb. cbn zeta in Hb.
    rewrite length_app.
    destruct (loadBatch poolConnect exec mapping batch st) as [[[]|e] st1]; cbn [snd] in *.
    + specialize (IH (n + length batch)%nat st1). cbn zeta in IH. lia.
    + lia.
Qed.

(** X4. [loadTable] never resets the statistics: what it reports as
    [recordsLoaded] is the total of the loader since it was created, at
    least the total before the call and at most that total plus the number
    of records given, whether the batches were committed or rolled back. *)
Theorem loadTable_reports_running_totals fuel cfg tableName
    (transformedData : list EtlRecord) (st st' : @St Db) result :
  (forall s, loadStats (snd (connect s)) = loadStats s) ->
  loadTable poolConnect exec connect fuel cfg tableName transformedData st
  = Some (Return result, st') ->
  let reported := match result with
                  | LoadOk stats _ => stats
                  | LoadFailed _ stats => stats
                  end in
  reported = loadStats st'
  /\ (recordsLoaded (loadStats st) <= recordsLoaded reported
      <= recordsLoaded (loadStats st) + length transformedData)%nat.
Proof.
  intros Hconn. unfold loadTable.
  destruct (mappings cfg !! tableName) as [mapping|]; [|discriminate].
  pose proof (Hconn st) as Hc.
  destruct (connect st) as [[[]|e] st1]; cbn [snd] in Hc.
  2:{ intros [= <- <-]. simpl. rewrite Hc. split; [reflexivity | lia]. }
  unfold chunkArray.
  destruct (chunkLoop fuel transformedData (N.to_nat (general_batchSize cfg)) 0)
    as [batches|] eqn:E; [|discriminate].
  pose proof (chunkLoop_within _ _ _ _ _ E) as Hcat.
  pose proof (loadBatches_bounds mapping batches 0 st1) as Hb. cbn zeta in Hb.
  rewrite Hc in Hb.
  destruct (loadBatches poolConnect exec mapping batches 0 st1) as [[k|e] st2];
    cbn [snd] in Hb; intros [= <- <-]; cbn zeta; (split; [reflexivity | lia]).
Qed.

End Properties.

(** ** Two loads into the small target database *)

Definition loadConfig : ETLConfig :=
  {| general_batchSize := 1; mappings := {["users" := demoMapping]} |}.

(** A loader whose pool is already connected. *)
Definition connected : @M (list Obj) unit := ret tt.

Definition demoLoad (fuel : nat) (records : list EtlRecord) (st : @St (list Obj))
    : option (Completion LoadResult * @St (list Obj)) :=
  loadTable (fun _ => Return tt) demoExec connected fuel loadConfig "users" records st.

Definition stateAfter (run : option (Completion LoadResult * @St (list Obj)))
    : @St (list Obj) :=
  match run with
  | Some (_, st') => st'
  | None => demoStart
  end.

Definition afterFirst : @St (list Obj) := stateAfter (demoLoad 2 demoBatch demoStart).

Definition newcomer : list EtlRecord := [demoRecord 3 "bia@example.com"].

Definition afterSecond : @St (list Obj) := stateAfter (demoLoad 1 newcomer afterFirst).

(** The first load inserts one row and skips the duplicate; the second one
    inserts one row and reports two. *)
Example second_load_reports_both :
  demoLoad 2 demoBatch demoStart
  = Some (Return (LoadOk {| recordsLoaded := 1; recordsSkipped := 1; recordsUpdated := 0;
                            recordsInserted := 1;
                            errors := errors (loadStats afterFirst) |} 2), afterFirst)
  /\ demoLoad 1 newcomer afterFirst
     = Some (Return (LoadOk {| recordsLoaded := 2; recordsSkipped := 1; recordsUpdated := 0;
                               recordsInserted := 2;
                               errors := errors (loadStats afterFirst) |} 1), afterSecond).
Proof. vm_compute. split; reflexivity. Qed.

Lemma loadTable_resolves_witness :
  exists result st',
    demoLoad 2 demoBatch demoStart = Some (Return result, st')
    /\ match result with
       | LoadOk stats recordsProcessed =>
           stats = loadStats st'
           /\ recordsProcessed = length demoBatch
           /\ fst (connected demoStart) = Return tt
           /\ (demoBatch = [] -> st' = snd (connected demoStart))
       | LoadFailed error stats => stats = loadStats st'
       end.
Proof.
  apply (loadTable_resolves (fun _ => Return tt) demoExec connected 2 loadConfig "users"
           demoMapping demoBatch demoStart).
  - reflexivity.
  - vm_compute. discriminate.
  - vm_compute. lia.
Defined.

Lemma loadTable_reports_running_totals_witness :
  loadStats afterSecond = loadStats afterSecond
  /\ (recordsLoaded (loadStats afterFirst) <= recordsLoaded (loadStats afterSecond)
      <= recordsLoaded (loadStats afterFirst) + length newcomer)%nat.
Proof.
  apply (loadTable_reports_running_totals (fun _ => Return tt) demoExec connected 1
           loadConfig "users" newcomer afterFirst afterSecond
           (LoadOk (loadStats afterSecond) 1)).
  - intros s. reflexivity.
  - vm_compute. reflexivity.
Defined.

End TableLoad.

(* ===================================================================== *)
(** * ETLScheduler: the synchronisation of a table and the jobs
      (etl/schedulers/etlScheduler.js: syncTable, runManualSync,
      summarizeResults, and the bodies of the three jobs) *)
(* ===================================================================== *)

Module Pipeline.

Import Extractor FullExtraction TableLoad.

(** [loadResult.stats]: the loader's statistics, with [recordsProcessed]
    when the load succeeded. *)
Definition LoadReport : Type := Loader.Stats * option nat.

Definition reportOf (r : LoadResult) : LoadReport :=
  match r with
  | LoadOk stats recordsProcessed => (stats, Some recordsProcessed)
  | LoadFailed _ stats => (stats, None)
  end.

(** An entry of [results] in the full synchronisation of a table. *)
Record BatchReport := {
  br_batch : Quotient;
  br_recordCount : nat;
  br_transform : Transformer.Stats;
  br_load : LoadReport
}.

(** What [syncTable] resolves to. *)
Inductive SyncTableResult :=
| SyncedFull (batches : list BatchReport) (totalRecords : nat)
| NothingNew
| SyncedIncremental (extract : Metadata) (transform : Transformer.Stats) (load : LoadReport)
| SyncFailed (error : string).

(** [result.success] *)
Definition succeeded (r : SyncTableResult) : bool :=
  match r with
  | SyncFailed _ => false
  | _ => true
  end.

(** What [runManualSync] resolves to. *)
Inductive ManualResult :=
| ManualTable (table : string) (result : SyncTableResult)
| ManualAll
| ManualFailed (error : string).

Definition manualSuccess (r : ManualResult) : bool :=
  match r with
  | ManualFailed _ => false
  | _ => true
  end.

Record Summary := {
  totalTables : nat;
  successfulTables : nat;
  failedTables : nat;
  totalRecords : nat
}.

(** [summarizeResults]: [results] maps table names to results. A result
    without [load], or whose [recordsLoaded] is 0, adds no record. *)
Definition summarizeStep (tableName : string) (result : SyncTableResult) (summary : Summary)
    : Summary :=
  if succeeded result then
    {| totalTables := totalTables summary;
       successfulTables := S (successfulTables summary);
       failedTables := failedTables summary;
       totalRecords := match result with
                       | SyncedIncremental _ _ load =>
                           (totalRecords summary + Loader.recordsLoaded (fst load))%nat
                       | _ => totalRecords summary
                       end |}
  else
    {| totalTables := totalTables summary;
       successfulTables := successfulTables summary;
       failedTables := S (failedTables summary);
       totalRecords := totalRecords summary |}.

Definition summarizeResults (results : gmap string SyncTableResult) : Summary :=
  map_fold summarizeStep
    {| totalTables := size results; successfulTables := 0; failedTables := 0;
       totalRecords := 0 |} results.

Section WithLoader.

(** The loader is any object with a state [L]: [loadTable] and the steps of
    [cleanup] may succeed or throw. The source is read through the
    extractor, and the transformer is the one of this repository. *)
Context {L : Type}.
Variable momentParse : string -> option Z.
Variable cfg : ETLConfig.
Variable db : SourceDb.
Variable loadTable : string -> list EtlRecord -> L -> Completion LoadResult * L.
Variable connectLoader : L -> Completion unit * L.
Variable cleanupOrphanRecords : L -> Completion unit * L.
Variable updateTableStatistics : L -> Completion unit * L.
Variable cleanupOldLogs : L -> Completion unit * L.
(** The clock, in milliseconds since the epoch. *)
Variable now : Z.

(** [getLastSyncTime]: one hour before now, whatever was synchronised
    before (the local zone has a fixed offset). *)
Definition getLastSyncTime : JsVal := JStr (Moment.toISOString (now - 3600000)).

(** The callback that [syncTable] gives to [extractFull]; it appends to
    the [results] of the enclosing call. *)
Definition onFullBatch (tableName : string) (data : list Obj) (metadata : BatchInfo)
    (s : list BatchReport * L) : Completion unit * (list BatchReport * L) :=
  match snd (Transformer.transformTable momentParse cfg tableName data) with
  | Throw e => (Throw e, s)
  | Return transformResult =>
      if (0 <? length (Transformer.transformedData transformResult))%nat then
        match loadTable tableName (Transformer.transformedData transformResult) (snd s) with
        | (Throw e, l') => (Throw e, (fst s, l'))
        | (Return loadResult, l') =>
            (Return tt,
             (fst s ++ [ {| br_batch := bi_batch metadata;
                            br_recordCount := length data;
                            br_transform := Transformer.stats transformResult;
                            br_load := reportOf loadResult |} ], l'))
        end
      else (Return tt, s)
  end.

Definition sumRecordCounts (batches : list BatchReport) : nat :=
  fold_left (fun sum batch => (sum + br_recordCount batch)%nat) batches 0%nat.

(** The [try] block of [syncTable]. *)
Definition syncTableBody (fuel : nat) (tableName syncType : string) (l : L)
    : option (Completion SyncTableResult * L) :=
  if String.eqb syncType "incremental" then
    Some
      match extractIncremental cfg db tableName (Some getLastSyncTime) with
      | Throw e => (Throw e, l)
      | Return (ExtractFailed error) =>
          (Throw (PlainError ("extraction error: " ++ error)), l)
      | Return (ExtractOk data metadata) =>
          match data with
          | [] => (Return NothingNew, l)
          | _ :: _ =>
              match snd (Transformer.transformTable momentParse cfg tableName data) with
              | Throw e => (Throw e, l)
              | Return transformResult =>
                  match loadTable tableName (Transformer.transformedData transformResult) l with
                  | (Throw e, l') => (Throw e, l')
                  | (Return (LoadFailed error stats), l') =>
                      (Throw (PlainError ("load error: " ++ error)), l')
                  | (Return (LoadOk stats recordsProcessed), l') =>
                      (Return (SyncedIncremental metadata
                                 (Transformer.stats transformResult)
                                 (stats, Some recordsProcessed)), l')
                  end
              end
          end
      end
  else
    match extractFull cfg db (Some (onFullBatch tableName)) fuel tableName ([], l) with
    | None => None
    | Some (Throw e, s') => Some (Throw e, snd s')
    | Some (Return _, s') =>
        Some (Return (SyncedFull (fst s') (sumRecordCounts (fst s'))), snd s')
    end.

(** [syncTable]: the [catch] turns every exception into a result. *)
Definition syncTable (fuel : nat) (tableName syncType : string) (l : L)
    : option (Completion SyncTableResult * L) :=
  match syncTableBody fuel tableName syncType l with
  | None => None
  | Some (Return result, l') => Some (Return result, l')
  | Some (Throw error, l') => Some (Return (SyncFailed (err_message error)), l')
  end.

(** [loader.cleanup()]: its [catch] only logs. *)
Definition cleanup (l : L) : Completion unit * L :=
  match connectLoader l with
  | (Throw _, l1) => (Return tt, l1)
  | (Return _, l1) =>
      match cleanupOrphanRecords l1 with
      | (Throw _, l2) => (Return tt, l2)
      | (Return _, l2) =>
          match updateTableStatistics l2 with
          | (Throw _, l3) => (Return tt, l3)
          | (Return _, l3) =>
              match cleanupOldLogs l3 with
              | (Throw _, l4) => (Return tt, l4)
              | (Return _, l4) => (Return tt, l4)
              end
          end
      end
  end.

(** The loop over the tables of a job; [results[tableName] = tableResult]. *)
Fixpoint syncTables (fuel : nat) (syncType : string) (tables : list string)
    (results : gmap string SyncTableResult) (l : L)
    : option (Completion (gmap string SyncTableResult) * L) :=
  match tables with
  | [] => Some (Return results, l)
  | tableName :: rest =>
      match syncTable fuel tableName syncType l with
      | None => None
      | Some (Throw e, l') => Some (Throw e, l')
      | Some (Return tableResult, l') =>
          syncTables fuel syncType rest (<[tableName := tableResult]> results) l'
      end
  end.

(** The tables of a job, in the order of the keys of the map. *)
Definition enabledTables (incrementalOnly : bool) : list string :=
  map fst (List.filter
             (fun entry : string * Mapping =>
                enabled (snd entry)
                && (negb incrementalOnly
                    || match incrementalField (snd entry) with
                       | Some field => negb (String.eqb field "")
                       | None => false
                       end))
             (map_to_list (mappings cfg))).

(** The [try] block of a job. *)
Definition jobBody (fuel : nat) (k : Scheduler.Kind) (l : L)
    : option (Completion unit * L) :=
  match k with
  | Scheduler.FullSync =>
      match syncTables fuel "full" (enabledTables false) ∅ l with
      | None => None
      | Some (Throw e, l') => Some (Throw e, l')
      | Some (Return _, l') => Some (cleanup l')
      end
  | Scheduler.IncrementalSync =>
      match syncTables fuel "incremental" (enabledTables true) ∅ l with
      | None => None
      | Some (Throw e, l') => Some (Throw e, l')
      | Some (Return _, l') => Some (Return tt, l')
      end
  | Scheduler.Cleanup => Some (cleanup l)
  end.

(** A call of [executeFullSync], [executeIncrementalSync] or
    [executeCleanup] from its guard to its [finally], with no other call in
    between. *)
Definition executeJob (fuel : nat) (k : Scheduler.Kind) (s : Scheduler.State) (l : L)
    : option (Scheduler.State * L) :=
  let '(s1, goes_on) := Scheduler.enter k s in
  if goes_on then
    match jobBody fuel k l with
    | None => None
    | Some (outcome, l') => Some (Scheduler.leave k (returns outcome) s1, l')
    end
  else Some (s1, l).

(** [runManualSync] *)
Definition runManualSync (fuel : nat) (tableName : option string) (syncType : string)
    (s : Scheduler.State) (l : L) : option (ManualResult * (Scheduler.State * L)) :=
  match tableName with
  | Some name =>
      if String.eqb name "" then
        match executeJob fuel (if String.eqb syncType "full" then Scheduler.FullSync
                               else Scheduler.IncrementalSync) s l with
        | None => None
        | Some sl => Some (ManualAll, sl)
        end
      else
        match syncTable fuel name syncType l with
        | None => None
        | Some (Return result, l') => Some (ManualTable name result, (s, l'))
        | Some (Throw error, l') => Some (ManualFailed (err_message error), (s, l'))
        end
  | None =>
      match executeJob fuel (if String.eqb syncType "full" then Scheduler.FullSync
                             else Scheduler.IncrementalSync) s l with
      | None => None
      | Some sl => Some (ManualAll, sl)
      end
  end.

(** ** Properties *)

Lemma transformTable_accepts_nothing tableName data result :
  snd (Transformer.transformTable momentParse cfg tableName data) = Return result ->
  Transformer.transformedData result = [].
Proof.
  unfold Transformer.transformTable.
  destruct (mappings cfg !! tableName) as [mapping|]; [|discriminate].
  pose proof (Transformer.transformRecords_rejects momentParse mapping data) as [Ha _].
  destruct (Transformer.transformRecords momentParse mapping data) as [[log accepted] rejected].
  cbn [fst snd] in *. intros [= <-]. exact Ha.
Qed.

Lemma onFullBatch_idle tableName data metadata s :
  snd (onFullBatch tableName data metadata s) = s.
Proof.
  unfold onFullBatch.
  destruct (snd (Transformer.transformTable momentParse cfg tableName data)) as [result|e] eqn:E;
    [|reflexivity].
  rewrite (transformTable_accepts_nothing _ _ _ E). reflexivity.
Qed.

Lemma extractLoop_idle tableName callbackTable mapping : forall fuel offset total s r s',
  extractLoop cfg db (Some (onFullBatch callbackTable)) fuel tableName mapping offset total s
  = Some (r, s') ->
  s' = s.
Proof.
  induction fuel as [|fuel IH]; intros offset total s r s'; cbn [extractLoop]; [discriminate|].
  destruct (extractTable cfg db tableName _) as [data metadata|error].
  2:{ by intros [= _ <-]. }
  pose proof (onFullBatch_idle callbackTable data
                {| bi_batch := floorDivPlusOne offset (general_batchSize cfg);
                   bi_offset := offset;
                   bi_totalRecords := (total + length data)%nat |} s) as Hidle.
  destruct (onFullBatch callbackTable data _ s) as [[[]|e] s1]; cbn [snd] in Hidle; subst s1.
  - destruct (md_hasMore metadata); [apply IH | by intros [= _ <-]].
  - by intros [= _ <-].
Qed.

Lemma syncTable_returns fuel tableName syncType l r l' :
  syncTable fuel tableName syncType l = Some (r, l') -> returns r = true.
Proof.
  unfold syncTable.
  destruct (syncTableBody fuel tableName syncType l) as [[[result|e] l1]|];
    [| |discriminate]; by intros [= <- _].
Qed.

Lemma syncTable_incremental_answers fuel tableName l :
  is_Some (syncTable fuel tableName "incremental" l).
Proof.
  unfold syncTable, syncTableBody. rewrite String.eqb_refl.
  destruct (extractIncremental cfg db tableName _) as [[[|record data] metadata|error]|e];
    try (by eexists).
  destruct (snd (Transformer.transformTable momentParse cfg tableName (record :: data)))
    as [result|e]; [|by eexists].
  destruct (loadTable tableName _ l) as [[[stats n|error stats]|e] l1]; by eexists.
Qed.

(** X5. A full synchronisation of a table gives the loader nothing: the
    transformer of this repository accepts no record, so [loadTable] is
    never called, the loader is left as it was, and the call resolves to
    [success: true] with [batches: []] and [totalRecords: 0], or to
    [success: false] when the extraction failed. *)
Theorem full_sync_loads_nothing fuel tableName syncType l r l' :
  String.eqb syncType "incremental" = false ->
  syncTable fuel tableName syncType l = Some (r, l') ->
  l' = l
  /\ (r = Return (SyncedFull [] 0) \/ exists error, r = Return (SyncFailed error)).
Proof.
  intros Htype. unfold syncTable, syncTableBody. rewrite Htype.
  unfold extractFull.
  destruct (mappings cfg !! tableName) as [mapping|].
  2:{ intros [= <- <-]. split; [reflexivity | right; eexists; reflexivity]. }
  destruct (extractLoop cfg db (Some (onFullBatch tableName)) fuel tableName mapping
              0%N 0%nat ([], l)) as [[[total|e] s1]|] eqn:E; [| |discriminate];
    apply extractLoop_idle in E; subst s1; cbn [fst snd]; intros [= <- <-].
  - split; [reflexivity | left; reflexivity].
  - split; [reflexivity | right; eexists; reflexivity].
Qed.

End WithLoader.

(** X9. An incremental synchronisation gives the loader no record either:
    it calls [loadTable] with an empty list, if at all, so that two loaders
    that agree on the empty list give the same result. *)
Theorem incremental_sync_loads_empty {L} momentParse cfg db now
    (loadTable loadTable' : string -> list EtlRecord -> L -> Completion LoadResult * L)
    fuel tableName l :
  (forall name s, loadTable name [] s = loadTable' name [] s) ->
  syncTable momentParse cfg db loadTable now fuel tableName "incremental" l
  = syncTable momentParse cfg db loadTable' now fuel tableName "incremental" l.
Proof.
  intros Hsame. unfold syncTable, syncTableBody. rewrite String.eqb_refl.
  destruct (extractIncremental cfg db tableName _) as [[[|record data] metadata|error]|e];
    try reflexivity.
  destruct (snd (Transformer.transformTable momentParse cfg tableName (record :: data)))
    as [result|e] eqn:E; [|reflexivity].
  rewrite (transformTable_accepts_nothing _ _ _ _ _ E), Hsame. reflexivity.
Qed.

Section Jobs.

Context {L : Type}.
Variable momentParse : string -> option Z.
Variable cfg : ETLConfig.
Variable db : SourceDb.
Variable loadTable : string -> list EtlRecord -> L -> Completion LoadResult * L.
Variable connectLoader : L -> Completion unit * L.
Variable cleanupOrphanRecords : L -> Completion unit * L.
Variable updateTableStatistics : L -> Completion unit * L.
Variable cleanupOldLogs : L -> Completion unit * L.
Variable now : Z.

Lemma cleanup_returns l :
  fst (cleanup connectLoader cleanupOrphanRecords updateTableStatistics cleanupOldLogs l)
  = Return tt.
Proof.
  unfold cleanup.
  destruct (connectLoader l) as [[[]|?] l1]; [|reflexivity].
  destruct (cleanupOrphanRecords l1) as [[[]|?] l2]; [|reflexivity].
  destruct (updateTableStatistics l2) as [[[]|?] l3]; [|reflexivity].
  destruct (cleanupOldLogs l3) as [[[]|?] l4]; reflexivity.
Qed.

Lemma syncTables_returns fuel syncType tables : forall results l r l',
  syncTables momentParse cfg db loadTable now fuel syncType tables results l = Some (r, l') ->
  returns r = true.
Proof.
  induction tables as [|tableName rest IH]; intros results l r l'; cbn [syncTables].
  - by intros [= <- _].
  - destruct (syncTable momentParse cfg db loadTable now fuel tableName syncType l)
      as [[[result|e] l1]|] eqn:E; [| |discriminate].
    + apply IH.
    + apply syncTable_returns in E. discriminate.
Qed.

Lemma syncTables_incremental_answers fuel tables : forall results l,
  is_Some (syncTables momentParse cfg db loadTable now fuel "incremental" tables results l).
Proof.
  induction tables as [|tableName rest IH]; intros results l; cbn [syncTables]; [by eexists|].
  destruct (syncTable_incremental_answers momentParse cfg db loadTable now fuel tableName l)
    as [[r l1] E].
  rewrite E. pose proof (syncTable_returns _ _ _ _ _ _ _ _ _ _ _ E) as Hr.
  destruct r as [result|e]; [apply IH | discriminate].
Qed.

Lemma jobBody_returns fuel k l r l' :
  jobBody momentParse cfg db loadTable connectLoader cleanupOrphanRecords
    updateTableStatistics cleanupOldLogs now fuel k l = Some (r, l') ->
  returns r = true.
Proof.
  destruct k; cbn [jobBody].
  - destruct (syncTables _ _ _ _ _ _ _ _ _ l) as [[[results|e] l1]|] eqn:E; [| |discriminate].
    + intros [= H]. pose proof (cleanup_returns l1) as Hc.
      rewrite H in Hc. cbn [fst] in Hc. by subst r.
    + apply syncTables_returns in E. discriminate.
  - destruct (syncTables _ _ _ _ _ _ _ _ _ l) as [[[results|e] l1]|] eqn:E; [| |discriminate].
    + by intros [= <- _].
    + apply syncTables_returns in E. discriminate.
  - intros [= H]. pose proof (cleanup_returns l) as Hc.
    rewrite H in Hc. cbn [fst] in Hc. by subst r.
Qed.

Lemma executeJob_answers fuel k (s : Scheduler.State) (l : L) :
  k <> Scheduler.FullSync ->
  is_Some (executeJob momentParse cfg db loadTable connectLoader cleanupOrphanRecords
             updateTableStatistics cleanupOldLogs now fuel k s l).
Proof.
  intros Hk. unfold executeJob, Scheduler.enter. case_bool_decide; [by eexists|].
  destruct k; [done | |]; cbn [jobBody].
  - destruct (syncTables_incremental_answers fuel (enabledTables cfg true) ∅ l)
      as [[[results|e] l1] ->]; by eexists.
  - destruct (cleanup _ _ _ _ l) as [r l1]. by eexists.
Qed.

(** X6. A call of [executeFullSync], [executeIncrementalSync] or
    [executeCleanup] that runs to its end never adds to [failedJobs]:
    whatever the source and the loader do, a call that passes the guard
    counts one more job in [totalJobs] and in [successfulJobs], logs its
    completion and removes its kind from [currentJobs]. The incremental and
    the cleanup job always run to their end. *)
Theorem job_is_always_counted_successful fuel k (s : Scheduler.State) (l : L) :
  let run := executeJob momentParse cfg db loadTable connectLoader cleanupOrphanRecords
               updateTableStatistics cleanupOldLogs now fuel k s l in
  (forall s' l', run = Some (s', l') ->
     Scheduler.failedJobs (Scheduler.stats s') = Scheduler.failedJobs (Scheduler.stats s)
     /\ (Scheduler.kindName k ∉ Scheduler.currentJobs s ->
         Scheduler.totalJobs (Scheduler.stats s') = S (Scheduler.totalJobs (Scheduler.stats s))
         /\ Scheduler.successfulJobs (Scheduler.stats s')
            = S (Scheduler.successfulJobs (Scheduler.stats s))
         /\ Scheduler.currentJobs s' = Scheduler.currentJobs s
         /\ Scheduler.log s' = Scheduler.log s ++ [Scheduler.InfoStarting k;
                                                   Scheduler.InfoCompleted k]))
  /\ (k <> Scheduler.FullSync -> is_Some run).
Proof.
  cbn zeta. split.
  - unfold executeJob, Scheduler.enter.
    intros s' l'. case_bool_decide as Hin; cbn [fst snd].
    + intros [= <- <-]. split; [reflexivity | done].
    + destruct (jobBody _ _ _ _ _ _ _ _ _ fuel k l) as [[r l1]|] eqn:E; [|discriminate].
      apply jobBody_returns in E. rewrite E. intros [= <- <-]. cbn.
      split_and!; try reflexivity. intros _. split_and!; try reflexivity.
      * set_solver.
      * by rewrite <- app_assoc.
  - apply executeJob_answers.
Qed.

(** X7. [runManualSync] never answers [success: false]: for a named table
    it wraps the result of [syncTable], which may itself say
    [success: false], and leaves the scheduler's statistics alone; for all
    tables it answers that the synchronisation was executed, also when the
    guard found the job running. An incremental request is always
    answered. *)
Theorem runManualSync_never_reports_failure fuel tableName syncType
    (s : Scheduler.State) (l : L) :
  let run := runManualSync momentParse cfg db loadTable connectLoader cleanupOrphanRecords
               updateTableStatistics cleanupOldLogs now fuel tableName syncType s l in
  (forall answer s' l', run = Some (answer, (s', l')) ->
     manualSuccess answer = true
     /\ (forall name, tableName = Some name -> name <> "" ->
           s' = s /\ exists result,
             answer = ManualTable name result
             /\ syncTable momentParse cfg db loadTable now fuel name syncType l
                = Some (Return result, l')))
  /\ (syncType = "incremental" -> is_Some run).
Proof.
  cbn zeta. unfold runManualSync. split.
  - intros answer s' l'. destruct tableName as [name|].
    + destruct (String.eqb_spec name "") as [->|Hname].
      * destruct (executeJob _ _ _ _ _ _ _ _ _ _ _ s l) as [[s1 l1]|]; [|discriminate].
        intros [= <- <- <-]. split; [reflexivity | congruence].
      * destruct (syncTable momentParse cfg db loadTable now fuel name syncType l)
          as [[[result|e] l1]|] eqn:E; [| |discriminate].
        -- intros [= <- <- <-]. split; [reflexivity|].
           intros name' [= <-] _. split; [reflexivity|]. by exists result.
        -- apply syncTable_returns in E. discriminate.
    + destruct (executeJob _ _ _ _ _ _ _ _ _ _ _ s l) as [[s1 l1]|]; [|discriminate].
      intros [= <- <- <-]. split; [reflexivity | congruence].
  - intros ->.
    change (String.eqb "incremental" "full") with false. cbn match.
    destruct (executeJob_answers fuel Scheduler.IncrementalSync s l) as [[s1 l1] Hj]; [done|].
    destruct tableName as [name|]; [destruct (String.eqb name "")|].
    + rewrite Hj. by eexists.
    + destruct (syncTable_incremental_answers momentParse cfg db loadTable now fuel name l)
        as [[r l2] Hs].
      rewrite Hs. destruct r; by eexists.
    + rewrite Hj. by eexists.
Qed.

End Jobs.


(** ** summarizeResults *)

(** A result with a [load] property. *)
Definition hasLoad (result : SyncTableResult) : bool :=
  match result with
  | SyncedIncremental _ _ _ => true
  | _ => false
  end.

Lemma summarize_fold (results : gmap string SyncTableResult) (start : Summary) :
  let summary := map_fold summarizeStep start results in
  totalTables summary = totalTables start
  /\ (successfulTables summary + failedTables summary
      = successfulTables start + failedTables start + size results)%nat
  /\ ((forall name result, results !! name = Some result -> hasLoad result = false) ->
      totalRecords summary = totalRecords start).
Proof.
  cbn zeta.
  apply (map_fold_weak_ind (fun (summary : Summary) (m : gmap string SyncTableResult) =>
    totalTables summary = totalTables start
    /\ (successfulTables summary + failedTables summary
        = successfulTables start + failedTables start + size m)%nat
    /\ ((forall name result, m !! name = Some result -> hasLoad result = false) ->
        totalRecords summary = totalRecords start))).
  - rewrite map_size_empty. split_and!; [reflexivity | lia | reflexivity].
  - intros name result m summary Hfresh (Ht & Hc & Hr).
    rewrite map_size_insert_None by exact Hfresh.
    assert (Hrest : (forall n r, <[name := result]> m !! n = Some r -> hasLoad r = false) ->
                    forall n r, m !! n = Some r -> hasLoad r = false).
    { intros H n r Hn. apply (H n). rewrite lookup_insert_ne; [exact Hn|].
      intros ->. congruence. }
    unfold summarizeStep. destruct (succeeded result) eqn:Hs; cbn.
    + split_and!; [exact Ht | lia |].
      intros H. specialize (H name result (lookup_insert_eq _ _ _)) as Hl.
      destruct result; try discriminate; apply Hr, Hrest, H.
    + split_and!; [exact Ht | lia |]. intros H. apply Hr, Hrest, H.
Qed.

(** X8. In the summary of a job every table is counted once, as
    successful or as failed, and [totalRecords] only adds the
    [recordsLoaded] of results that carry [load]: the results of a full
    synchronisation carry none, so the summary of a full job reports no
    record. *)
Theorem summarizeResults_counts (results : gmap string SyncTableResult) :
  totalTables (summarizeResults results) = size results
  /\ (successfulTables (summarizeResults results) + failedTables (summarizeResults results)
      = size results)%nat
  /\ ((forall name result, results !! name = Some result -> hasLoad result = false) ->
      totalRecords (summarizeResults results) = 0%nat)
  /\ (forall batches total, hasLoad (SyncedFull batches total) = false).
Proof.
  unfold summarizeResults.
  destruct (summarize_fold results
              {| totalTables := size results; successfulTables := 0; failedTables := 0;
                 totalRecords := 0 |}) as (Ht & Hc & Hr).
  cbn in *. split_and!; [exact Ht | lia | exact Hr | reflexivity].
Qed.

(** ** A source of four users and a loader that counts its calls *)

Definition countingLoader (tableName : string) (data : list EtlRecord) (calls : nat)
    : Completion LoadResult * nat :=
  (Return (LoadOk Loader.emptyStats (length data)), S calls).

(** A loader that fails when it is given a record. *)
Definition emptyOnlyLoader (tableName : string) (data : list EtlRecord) (calls : nat)
    : Completion LoadResult * nat :=
  match data with
  | [] => (Return (LoadOk Loader.emptyStats 0), S calls)
  | _ :: _ => (Throw (PlainError "no record expected"), S calls)
  end.

Lemma full_sync_loads_nothing_witness :
  syncTable Transformer.noDateString pagedConfig (pagedDb fourUsers) countingLoader 0 3
    "users" "full" 0%nat
  = Some (Return (SyncedFull [] 0), 0%nat)
  /\ 0%nat = 0%nat
  /\ (Return (SyncedFull [] 0) = Return (SyncedFull [] 0)
      \/ exists error, Return (SyncedFull [] 0) = Return (SyncFailed error)).
Proof.
  assert (Hrun : syncTable Transformer.noDateString pagedConfig (pagedDb fourUsers)
                   countingLoader 0 3 "users" "full" 0%nat
                 = Some (Return (SyncedFull [] 0), 0%nat)) by (vm_compute; reflexivity).
  split; [exact Hrun|].
  exact (full_sync_loads_nothing Transformer.noDateString pagedConfig (pagedDb fourUsers)
           countingLoader 0 3 "users" "full" 0%nat (Return (SyncedFull [] 0)) 0%nat
           eq_refl Hrun).
Defined.

Lemma incremental_sync_loads_empty_witness :
  syncTable Transformer.noDateString pagedConfig (pagedDb fourUsers) countingLoader 0 0
    "users" "incremental" 0%nat
  = syncTable Transformer.noDateString pagedConfig (pagedDb fourUsers) emptyOnlyLoader 0 0
      "users" "incremental" 0%nat.
Proof.
  apply (incremental_sync_loads_empty Transformer.noDateString pagedConfig
           (pagedDb fourUsers) 0 countingLoader emptyOnlyLoader 0 "users" 0%nat).
  intros name calls. reflexivity.
Defined.

(** The incremental run reads the first two users, rejects both and hands
    the loader an empty list. *)
Example incremental_run_of_four_users :
  syncTable Transformer.noDateString pagedConfig (pagedDb fourUsers) countingLoader 0 0
    "users" "incremental" 0%nat
  = Some (Return (SyncedIncremental
                    {| md_table := "users"; md_recordCount := 2; md_batchSize := 2;
                       md_offset := 0; md_hasMore := true |}
                    {| Transformer.recordsProcessed := 2;
                       Transformer.recordsTransformed := 0;
                       Transformer.recordsRejected := 2;
                       Transformer.successRate := Some "0.00" |}
                    (Loader.emptyStats, Some 0%nat)), 1%nat).
Proof. vm_compute. reflexivity. Qed.

End Pipeline.

(* ===================================================================== *)
(** * DataTransformer: the mapping of fields and the validation
      (src/etl/transformers/dataTransformer.js, mapFields and validateRecord) *)
(* ===================================================================== *)

Module Validation.

Import Transformer.

(** ** mapFields *)

Definition mapStep (sourceRecord : Obj) (mappedRecord : Obj) (entry : string * string) : Obj :=
  match sourceRecord !! entry.1 with
  | Some v => <[entry.2 := v]> mappedRecord
  | None => mappedRecord
  end.

Lemma mapFields_fold sourceRecord fieldMapping :
  mapFields sourceRecord fieldMapping = fold_left (mapStep sourceRecord) fieldMapping ∅.
Proof.
  unfold mapFields. generalize (∅ : Obj).
  induction fieldMapping as [|[s t] rest IH]; intros acc; [reflexivity|]. apply IH.
Qed.

Lemma mapStep_other sourceRecord fieldMapping target : forall acc : Obj,
  target ∉ fieldMapping.*2 ->
  fold_left (mapStep sourceRecord) fieldMapping acc !! target = acc !! target.
Proof.
  induction fieldMapping as [|[s t] rest IH]; intros acc Hout; [reflexivity|].
  cbn [fold_left]. rewrite IH by set_solver.
  unfold mapStep. cbn [fst snd]. destruct (sourceRecord !! s); [|reflexivity].
  apply lookup_insert_ne. set_solver.
Qed.

Lemma mapStep_mapped sourceRecord fieldMapping source target : forall acc : Obj,
  NoDup fieldMapping.*2 ->
  (source, target) ∈ fieldMapping ->
  fold_left (mapStep sourceRecord) fieldMapping acc !! target
  = match sourceRecord !! source with
    | Some v => Some v
    | None => acc !! target
    end.
Proof.
  induction fieldMapping as [|[s t] rest IH]; intros acc Hnd Hin; [set_solver|].
  apply NoDup_cons in Hnd as [Hfresh Hnd]. cbn [fold_left].
  apply elem_of_cons in Hin as [[= <- <-]|Hin].
  - rewrite mapStep_other by exact Hfresh. unfold mapStep. cbn [fst snd].
    destruct (sourceRecord !! source); [apply lookup_insert_eq | reflexivity].
  - rewrite IH by done. destruct (sourceRecord !! source); [reflexivity|].
    unfold mapStep. cbn [fst snd]. destruct (sourceRecord !! s); [|reflexivity].
    apply lookup_insert_ne. intros ->. apply Hfresh.
    apply list_elem_of_fmap. by exists (source, target).
Qed.

(** X10. [mapFields] keeps the mapped columns only: a name that is no
    target of the field mapping is absent from the result, and, when the
    targets are pairwise distinct, the target of a pair holds what the
    source record holds under the source name, and is absent when the
    source record has no such column. *)
Theorem mapFields_lookup (sourceRecord : Obj) (fieldMapping : list (string * string)) :
  (forall target, target ∉ fieldMapping.*2 ->
     mapFields sourceRecord fieldMapping !! target = None)
  /\ (NoDup fieldMapping.*2 ->
      forall source target, (source, target) ∈ fieldMapping ->
        mapFields sourceRecord fieldMapping !! target = sourceRecord !! source).
Proof.
  rewrite mapFields_fold. split.
  - intros target Hout. rewrite mapStep_other by exact Hout. apply lookup_empty.
  - intros Hnd source target Hin. rewrite (mapStep_mapped _ _ source) by done.
    rewrite lookup_empty. by destruct (sourceRecord !! source).
Qed.

(** The targets of the users table are pairwise distinct. *)
Example users_targets_distinct : NoDup (fieldMapping usersMapping).*2.
Proof. apply (bool_decide_unpack _). vm_compute. reflexivity. Qed.

(** ** The e-mail pattern *)

Lemma allPlain_app a b : allPlain (a ++ b)%string = allPlain a && allPlain b.
Proof.
  induction a as [|c a IH]; [reflexivity|]. simpl.
  rewrite IH. apply andb_assoc.
Qed.

Lemma hasInnerDot_spec s : forall seen,
  hasInnerDot s seen = true <->
  exists domain tld,
    s = (domain ++ "." ++ tld)%string /\ allPlain domain = true /\ allPlain tld = true
    /\ tld <> "" /\ (seen = true \/ domain <> "").
Proof.
  induction s as [|c rest IH]; intros seen; cbn [hasInnerDot].
  - split; [discriminate|]. intros (domain & tld & H & _). by destruct domain.
  - rewrite orb_true_iff, !andb_true_iff, negb_true_iff, IH. split.
    + intros [(((Hseen & Hdot) & Hne) & Hplain) | (Hc & domain & tld & -> & Hd & Ht & Hne & _)].
      * apply Ascii.eqb_eq in Hdot as ->. exists "", rest.
        split_and!; try done. { intros ->. discriminate. } by left.
      * exists (String c domain), tld. cbn [String.append allPlain].
        rewrite Hc, Hd. split_and!; try done. by right.
    + intros (domain & tld & Heq & Hd & Ht & Hne & Hseen).
      destruct domain as [|d domain]; cbn [String.append] in Heq.
      * injection Heq as -> ->. left. destruct Hseen as [->|]; [|done].
        split_and!; try done. apply String.eqb_neq. exact Hne.
      * injection Heq as -> ->. cbn [allPlain] in Hd. apply andb_true_iff in Hd as [Hc Hd].
        right. split; [exact Hc|]. exists domain, tld. split_and!; try done. by left.
Qed.

Lemma plainChar_at c : plainChar c = true -> Ascii.eqb c "@" = false.
Proof. unfold plainChar. rewrite andb_true_iff, !negb_true_iff. tauto. Qed.

Lemma emailFrom_spec s : forall seen,
  emailFrom s seen = true <->
  exists localPart rest,
    s = (localPart ++ "@" ++ rest)%string /\ allPlain localPart = true
    /\ (seen = true \/ localPart <> "") /\ hasInnerDot rest false = true.
Proof.
  induction s as [|c s IH]; intros seen; cbn [emailFrom].
  - split; [discriminate|]. intros (localPart & rest & H & _). by destruct localPart.
  - destruct (Ascii.eqb c "@") eqn:Hat.
    + apply Ascii.eqb_eq in Hat as ->. rewrite andb_true_iff. split.
      * intros [-> Hdot]. exists "", s. split_and!; try done. by left.
      * intros (localPart & rest & Heq & Hl & Hseen & Hdot).
        destruct localPart as [|d localPart]; cbn [String.append] in Heq.
        -- injection Heq as ->. destruct Hseen; done.
        -- injection Heq as <- _. cbn [allPlain] in Hl.
           apply andb_true_iff in Hl as [Hl _]. apply plainChar_at in Hl. discriminate.
    + rewrite andb_true_iff, IH. split.
      * intros (Hc & localPart & rest & -> & Hl & _ & Hdot).
        exists (String c localPart), rest. cbn [String.append allPlain]. rewrite Hc, Hl.
        split_and!; try done. by right.
      * intros (localPart & rest & Heq & Hl & Hseen & Hdot).
        destruct localPart as [|d localPart]; cbn [String.append] in Heq.
        -- injection Heq as -> _. discriminate.
        -- injection Heq as -> ->. cbn [allPlain] in Hl.
           apply andb_true_iff in Hl as [Hc Hl]. split; [exact Hc|].
           exists localPart, rest. split_and!; try done. by left.
Qed.

(** X11. The e-mail test of [validateRecord] accepts exactly the strings
    [local@domain.tld] whose three parts are non-empty and hold neither
    white space nor [@] (the domain and the top-level part may hold further
    dots); a value that is not a string is never accepted. *)
Theorem emailRegexTest_accepts (value : JsVal) :
  emailRegexTest value = true <->
  exists localPart domain tld,
    value = JStr (localPart ++ "@" ++ domain ++ "." ++ tld)%string
    /\ localPart <> "" /\ domain <> "" /\ tld <> ""
    /\ allPlain localPart = true /\ allPlain domain = true /\ allPlain tld = true.
Proof.
  destruct value as [| |b|x|s|t]; cbn [emailRegexTest];
    try (split; [discriminate | by intros (? & ? & ? & ? & _)]).
  rewrite emailFrom_spec. split.
  - intros (localPart & rest & -> & Hl & [?|Hne] & Hdot); [done|].
    apply hasInnerDot_spec in Hdot as (domain & tld & -> & Hd & Ht & Htld & [?|Hdom]); [done|].
    exists localPart, domain, tld. split_and!; done.
  - intros (localPart & domain & tld & [= ->] & Hl & Hd & Ht & Hpl & Hpd & Hpt).
    exists localPart, (domain ++ "." ++ tld)%string. split_and!; try done; [by right|].
    apply hasInnerDot_spec. exists domain, tld. split_and!; try done. by right.
Qed.

(** ** validateRecord *)

Lemma filter_nil_iff {A} (p : A -> bool) (l : list A) :
  List.filter p l = [] <-> forall x, x ∈ l -> p x = false.
Proof.
  induction l as [|a l IH]; cbn [List.filter].
  - split; [intros _ x Hx; by apply elem_of_nil in Hx | reflexivity].
  - destruct (p a) eqn:Hp.
    + split; [discriminate|]. intros H. specialize (H a (list_elem_of_here _ _)). congruence.
    + rewrite IH. split.
      * intros H x [->|Hx]%elem_of_cons; [exact Hp | by apply H].
      * intros H x Hx. apply H. by apply list_elem_of_further.
Qed.

Lemma map_filter_none {A B} (f : A -> B) (p : A -> bool) (l : list A) :
  map f (List.filter p l) = [] <-> forall x, x ∈ l -> p x = false.
Proof.
  rewrite <- filter_nil_iff. destruct (List.filter p l); [done|]. split; discriminate.
Qed.

Lemma concat_map_none {A B} (g : A -> list B) (l : list A) :
  concat (map g l) = [] <-> forall x, x ∈ l -> g x = [].
Proof.
  induction l as [|a l IH]; cbn [map concat].
  - split; [intros _ x Hx; by apply elem_of_nil in Hx | reflexivity].
  - split.
    + intros [Ha Hl]%app_eq_nil x [->|Hx]%elem_of_cons; [exact Ha | by apply IH].
    + intros H. rewrite (H a (list_elem_of_here _ _)). apply IH.
      intros x Hx. apply H. by apply list_elem_of_further.
Qed.

(** X12. [validateRecord] reports no error exactly when: every required
    field holds a truthy value (so 0, false, NaN, the empty string, null and
    a missing field are all reported as empty); the e-mail field, when it is
    truthy, passes the e-mail test; every numeric field that is neither
    null nor undefined is read by [parseFloat]; every positive field so read
    is above 0; and every non-empty string under a length limit is within
    it. *)
Theorem validateRecord_accepts (record : Obj) (v : Validations) :
  fst (validateRecord record v) = [] <->
  (forall fields field, v_required v = Some fields -> field ∈ fields ->
     truthy (get record field) = true)
  /\ (forall field, v_email v = Some field -> field <> "" ->
      truthy (get record field) = true -> emailRegexTest (get record field) = true)
  /\ (forall fields field, v_numeric v = Some fields -> field ∈ fields ->
      isNullish (get record field) = false ->
      isNaN (parseFloat (get record field)) = false)
  /\ (forall fields field, v_positive v = Some fields -> field ∈ fields ->
      isNullish (get record field) = false ->
      isNaN (parseFloat (get record field)) = false ->
      (parseFloat (get record field) <=? 0)%float = false)
  /\ (forall limits field maxLength s, v_maxLength v = Some limits ->
      (field, maxLength) ∈ limits -> get record field = JStr s -> s <> "" ->
      (N.of_nat (String.length s) <= maxLength)%N).
Proof.
  unfold validateRecord. cbn [fst].
  rewrite !app_nil. 
  assert (Hreq : match v_required v with
                 | Some fields => requiredErrors record fields
                 | None => []
                 end = [] <->
                 forall fields field, v_required v = Some fields -> field ∈ fields ->
                   truthy (get record field) = true).
  { destruct (v_required v) as [fields|]; [|split; [intros _ ? ? [=] | done]].
    unfold requiredErrors. rewrite map_filter_none. split.
    - intros H ? field [= <-] Hin. specialize (H field Hin).
      by apply negb_false_iff in H.
    - intros H field Hin. apply negb_false_iff. by apply (H fields). }
  assert (Hmail : match v_email v with
                  | Some emailField =>
                      if String.eqb emailField "" then [] else emailErrors record emailField
                  | None => []
                  end = [] <->
                  forall field, v_email v = Some field -> field <> "" ->
                    truthy (get record field) = true ->
                    emailRegexTest (get record field) = true).
  { destruct (v_email v) as [emailField|]; [|split; [intros _ ? [=] | done]].
    destruct (String.eqb_spec emailField "") as [->|Hne].
    - split; [intros _ ? [= <-] ?; done | done].
    - unfold emailErrors. split.
      + intros H ? [= <-] _ Ht. rewrite Ht in H. cbn in H.
        destruct (emailRegexTest (get record emailField)); [done | discriminate].
      + intros H. specialize (H emailField eq_refl Hne).
        destruct (truthy (get record emailField)); [|done]. by rewrite H. }
  assert (Hnum : match v_numeric v with
                 | Some fields => numericErrors record fields
                 | None => []
                 end = [] <->
                 forall fields field, v_numeric v = Some fields -> field ∈ fields ->
                   isNullish (get record field) = false ->
                   isNaN (parseFloat (get record field)) = false).
  { destruct (v_numeric v) as [fields|]; [|split; [intros _ ? ? [=] | done]].
    unfold numericErrors. rewrite map_filter_none. split.
    - intros H ? field [= <-] Hin Hnull. specialize (H field Hin).
      rewrite Hnull in H. exact H.
    - intros H field Hin. specialize (H fields field eq_refl Hin).
      destruct (isNullish (get record field)); [done | by apply H]. }
  assert (Hpos : match v_positive v with
                 | Some fields => positiveErrors record fields
                 | None => []
                 end = [] <->
                 forall fields field, v_positive v = Some fields -> field ∈ fields ->
                   isNullish (get record field) = false ->
                   isNaN (parseFloat (get record field)) = false ->
                   (parseFloat (get record field) <=? 0)%float = false).
  { destruct (v_positive v) as [fields|]; [|split; [intros _ ? ? [=] | done]].
    unfold positiveErrors. rewrite map_filter_none. split.
    - intros H ? field [= <-] Hin Hnull Hnan. specialize (H field Hin).
      rewrite Hnull, Hnan in H. exact H.
    - intros H field Hin. specialize (H fields field eq_refl Hin).
      destruct (isNullish (get record field)); [done|].
      destruct (isNaN (parseFloat (get record field))); [done | by apply H]. }
  assert (Hlen : match v_maxLength v with
                 | Some limits => maxLengthErrors record limits
                 | None => []
                 end = [] <->
                 forall limits field maxLength s, v_maxLength v = Some limits ->
                   (field, maxLength) ∈ limits -> get record field = JStr s -> s <> "" ->
                   (N.of_nat (String.length s) <= maxLength)%N).
  { destruct (v_maxLength v) as [limits|]; [|split; [intros _ ? ? ? ? [=] | done]].
    unfold maxLengthErrors. rewrite concat_map_none. split.
    - intros H ? field maxLength s [= <-] Hin Hs Hne. specialize (H _ Hin). cbn in H.
      rewrite Hs in H. destruct (String.eqb_spec s ""); [done|]. cbn in H.
      destruct (N.ltb_spec maxLength (N.of_nat (String.length s))); [discriminate | done].
    - intros H [field maxLength] Hin. specialize (H limits field maxLength).
      destruct (get record field) as [| |b|x|s|t]; try reflexivity.
      specialize (H s eq_refl Hin eq_refl).
      destruct (String.eqb_spec s ""); [reflexivity|]. cbn.
      destruct (N.ltb_spec maxLength (N.of_nat (String.length s))); [|reflexivity].
      specialize (H ltac:(done)). lia. }
  rewrite Hreq, Hmail, Hnum, Hpos, Hlen. tauto.
Qed.

(** A user whose identifier is 0 is rejected by the users table: the
    required [external_user_id] is reported as empty. *)
Example user_zero_is_rejected :
  fst (validateRecord
         (list_to_map [("external_user_id", JNum 0); ("username", JStr "zed");
                       ("email", JStr "zed@example.com")])
         (default noValidations (validations usersMapping)))
  = [RequiredEmpty "external_user_id"].
Proof. vm_compute. reflexivity. Qed.

End Validation.

(* ===================================================================== *)
(** * DataTransformer: the helpers of the affiliate and referral records
      (src/etl/transformers/dataTransformer.js: capitalizeFirstLetter,
      cleanPhone, cleanDocument, mapUserStatus, mapTransactionType) *)
(* ===================================================================== *)

Module Helpers.

Import Transformer.

Definition upperChar (c : ascii) : ascii :=
  let n := nat_of_ascii c in
  if ((97 <=? n) && (n <=? 122))%nat then ascii_of_nat (n - 32) else c.

(** [str.charAt(0).toUpperCase() + str.slice(1).toLowerCase()] *)
Definition capitalized (s : string) : string :=
  match s with
  | EmptyString => EmptyString
  | String c rest => String (upperChar c) (toLowerCase rest)
  end.

(** A method of strings called on a truthy value that is not a string. *)
Definition notAFunction (method : string) : JsError :=
  TypeError (method ++ " is not a function").

Definition capitalizeFirstLetter (str : JsVal) : Completion JsVal :=
  if negb (truthy str) then Return JNull
  else match str with
       | JStr s => Return (JStr (capitalized s))
       | _ => Throw (notAFunction "str.charAt")
       end.

Definition cleanPhone (phone : JsVal) : Completion JsVal :=
  if negb (truthy phone) then Return JNull
  else match phone with
       | JStr s => Return (JStr (stripNonDigits s))
       | _ => Throw (notAFunction "phone.replace")
       end.

Definition cleanDocument (document : JsVal) : Completion JsVal :=
  if negb (truthy document) then Return JNull
  else match document with
       | JStr s => Return (JStr (stripNonDigits s))
       | _ => Throw (notAFunction "document.replace")
       end.

(** What reading a property of an object literal finds: a property of its
    own, a property inherited from [Object.prototype], or nothing. *)
Inductive Found :=
| Own (label : string)
| Inherited (name : string)
| Missing.

(** The properties of [Object.prototype]. *)
Definition prototypeNames : list string :=
  ["constructor"; "__defineGetter__"; "__defineSetter__"; "hasOwnProperty";
   "__lookupGetter__"; "__lookupSetter__"; "isPrototypeOf"; "propertyIsEnumerable";
   "toString"; "valueOf"; "__proto__"; "toLocaleString"].

Fixpoint assoc (own : list (string * string)) (key : string) : option string :=
  match own with
  | [] => None
  | (k, v) :: rest => if String.eqb k key then Some v else assoc rest key
  end.

(** [literal[key]] for an object literal with the properties [own]. *)
Definition readLiteral (own : list (string * string)) (key : string) : Found :=
  match assoc own key with
  | Some label => Own label
  | None => if existsb (String.eqb key) prototypeNames then Inherited key else Missing
  end.

(** What a map function returns: a label, or the inherited function or
    object that the lookup found (which is truthy). *)
Inductive Mapped :=
| Label (s : string)
| Builtin (name : string).

(** [literal[value?.toLowerCase()] || fallback] *)
Definition mapThrough (own : list (string * string)) (fallback : string) (method : string)
    (value : JsVal) : Completion Mapped :=
  match value with
  | JNull | JUndefined =>
      Return (match readLiteral own "undefined" with
              | Own label => if String.eqb label "" then Label fallback else Label label
              | Inherited name => Builtin name
              | Missing => Label fallback
              end)
  | JStr s =>
      Return (match readLiteral own (toLowerCase s) with
              | Own label => if String.eqb label "" then Label fallback else Label label
              | Inherited name => Builtin name
              | Missing => Label fallback
              end)
  | _ => Throw (notAFunction method)
  end.

Definition statusMap : list (string * string) :=
  [("active", "ACTIVE"); ("inactive", "INACTIVE"); ("suspended", "SUSPENDED");
   ("banned", "BANNED"); ("pending", "PENDING")].

Definition mapUserStatus : JsVal -> Completion Mapped :=
  mapThrough statusMap "INACTIVE" "status.toLowerCase".

Definition typeMap : list (string * string) :=
  [("deposit", "DEPOSIT"); ("bet", "BET"); ("withdrawal", "WITHDRAWAL"); ("bonus", "BONUS")].

Definition mapTransactionType : JsVal -> Completion Mapped :=
  mapThrough typeMap "OTHER" "type.toLowerCase".

(** ** Properties *)

Lemma upperChar_idempotent c : upperChar (upperChar c) = upperChar c.
Proof. destruct c as [[] [] [] [] [] [] [] []]; reflexivity. Qed.

Lemma lowerChar_idempotent c : lowerChar (lowerChar c) = lowerChar c.
Proof. destruct c as [[] [] [] [] [] [] [] []]; reflexivity. Qed.

Lemma toLowerCase_idempotent s : toLowerCase (toLowerCase s) = toLowerCase s.
Proof.
  induction s as [|c s IH]; [reflexivity|]. cbn [toLowerCase].
  by rewrite lowerChar_idempotent, IH.
Qed.

Lemma toLowerCase_length s : String.length (toLowerCase s) = String.length s.
Proof. induction s as [|c s IH]; [reflexivity|]. cbn. by rewrite IH. Qed.

(** X16. [capitalizeFirstLetter] gives null for a falsy value and throws
    for a truthy value that is not a string; on a string it keeps the
    length, and applying it to its own result changes nothing. *)
Theorem capitalizeFirstLetter_is_idempotent (str : JsVal) :
  (truthy str = false -> capitalizeFirstLetter str = Return JNull)
  /\ (forall s, str = JStr s -> s <> "" ->
        capitalizeFirstLetter str = Return (JStr (capitalized s))
        /\ String.length (capitalized s) = String.length s
        /\ capitalizeFirstLetter (JStr (capitalized s)) = Return (JStr (capitalized s)))
  /\ (truthy str = true -> (forall s, str <> JStr s) ->
        returns (capitalizeFirstLetter str) = false).
Proof.
  split_and!.
  - intros H. unfold capitalizeFirstLetter. by rewrite H.
  - intros s -> Hne. destruct s as [|c rest]; [done|].
    unfold capitalizeFirstLetter. cbn [truthy negb capitalized String.eqb String.length].
    rewrite upperChar_idempotent, toLowerCase_idempotent, toLowerCase_length. done.
  - intros Ht Hs. unfold capitalizeFirstLetter. rewrite Ht. cbn.
    destruct str; try reflexivity. by destruct (Hs s).
Qed.

Fixpoint allDigits (s : string) : bool :=
  match s with
  | EmptyString => true
  | String c rest => isDigit c && allDigits rest
  end.

Lemma stripNonDigits_allDigits s : allDigits (stripNonDigits s) = true.
Proof.
  induction s as [|c s IH]; [reflexivity|]. cbn [stripNonDigits].
  destruct (isDigit c) eqn:Hc; [|exact IH]. cbn [allDigits]. by rewrite Hc, IH.
Qed.

Lemma stripNonDigits_fixed s : allDigits s = true -> stripNonDigits s = s.
Proof.
  induction s as [|c s IH]; [reflexivity|]. cbn [allDigits stripNonDigits].
  intros [Hc Hs]%andb_true_iff. by rewrite Hc, IH.
Qed.

Lemma stripNonDigits_length s : (String.length (stripNonDigits s) <= String.length s)%nat.
Proof.
  induction s as [|c s IH]; [reflexivity|]. cbn [stripNonDigits].
  destruct (isDigit c); cbn [String.length]; lia.
Qed.

(** X17. On a non-empty string [cleanPhone] and [cleanDocument] return
    its digits, in order, and nothing else: the result holds digits only, is
    no longer than the string, is the string itself when that held digits
    only, and is the empty string (not null) when it held none. A falsy
    value gives null, and a truthy value that is not a string throws. *)
Theorem cleanPhone_keeps_digits_only (phone : JsVal) :
  cleanDocument phone = match cleanPhone phone with
                        | Return v => Return v
                        | Throw _ => Throw (notAFunction "document.replace")
                        end
  /\ (truthy phone = false -> cleanPhone phone = Return JNull)
  /\ (forall s, phone = JStr s -> s <> "" ->
        cleanPhone phone = Return (JStr (stripNonDigits s))
        /\ allDigits (stripNonDigits s) = true
        /\ (String.length (stripNonDigits s) <= String.length s)%nat
        /\ (allDigits s = true -> stripNonDigits s = s)
        /\ stripNonDigits (stripNonDigits s) = stripNonDigits s)
  /\ (truthy phone = true -> (forall s, phone <> JStr s) ->
        returns (cleanPhone phone) = false).
Proof.
  split_and!.
  - unfold cleanDocument, cleanPhone. destruct (truthy phone); [|reflexivity].
    destruct phone; reflexivity.
  - intros H. unfold cleanPhone. by rewrite H.
  - intros s -> Hne. unfold cleanPhone. destruct s as [|c rest]; [done|].
    cbn [truthy String.eqb negb].
    split_and!; [reflexivity | apply stripNonDigits_allDigits | apply stripNonDigits_length
                | apply stripNonDigits_fixed
                | apply stripNonDigits_fixed, stripNonDigits_allDigits].
  - intros Ht Hs. unfold cleanPhone. rewrite Ht. cbn.
    destruct phone; try reflexivity. by destruct (Hs s).
Qed.

Example phone_without_digits : cleanPhone (JStr "n/a") = Return (JStr "").
Proof. reflexivity. Qed.

(** The labels of the two maps. *)
Definition statusLabels : list string :=
  ["ACTIVE"; "INACTIVE"; "SUSPENDED"; "BANNED"; "PENDING"].

Definition typeLabels : list string := ["DEPOSIT"; "BET"; "WITHDRAWAL"; "BONUS"; "OTHER"].

(** The two names of [Object.prototype] that are written in lower case. *)
Definition lowerCaseBuiltins : list string := ["constructor"; "__proto__"].

Definition isLabelOf (labels : list string) (r : Mapped) : bool :=
  match r with
  | Label s => existsb (String.eqb s) labels
  | Builtin _ => false
  end.

Ltac by_key key Hkey :=
  repeat match goal with
         | |- context [String.eqb ?a key] =>
             destruct (String.eqb_spec a key) as [<-|?];
             [try discriminate Hkey; try reflexivity | ]
         | |- context [String.eqb key ?a] =>
             destruct (String.eqb_spec key a) as [->|?];
             [try discriminate Hkey; try reflexivity | ]
         end.

Lemma mapThrough_statusMap s :
  let key := toLowerCase s in
  mapUserStatus (JStr s)
  = Return (if existsb (String.eqb key) lowerCaseBuiltins then Builtin key
            else match assoc statusMap key with
                 | Some label => Label label
                 | None => Label "INACTIVE"
                 end).
Proof.
  cbn zeta. pose proof (toLowerCase_idempotent s) as Hkey.
  unfold mapUserStatus, mapThrough, readLiteral, statusMap, prototypeNames, lowerCaseBuiltins.
  set (key := toLowerCase s) in *. clearbody key. cbn [assoc existsb orb].
  by_key key Hkey. reflexivity.
Qed.

Lemma mapThrough_typeMap s :
  let key := toLowerCase s in
  mapTransactionType (JStr s)
  = Return (if existsb (String.eqb key) lowerCaseBuiltins then Builtin key
            else match assoc typeMap key with
                 | Some label => Label label
                 | None => Label "OTHER"
                 end).
Proof.
  cbn zeta. pose proof (toLowerCase_idempotent s) as Hkey.
  unfold mapTransactionType, mapThrough, readLiteral, typeMap, prototypeNames,
    lowerCaseBuiltins.
  set (key := toLowerCase s) in *. clearbody key. cbn [assoc existsb orb].
  by_key key Hkey. reflexivity.
Qed.

(** X18. [mapUserStatus] and [mapTransactionType] return one of their
    labels for every string but those that read [constructor] or
    [__proto__] in lower case, for which the lookup in the object literal
    finds the property inherited from [Object.prototype] and that is what is
    returned. Null and undefined give the fallback label, and any other
    value that is not a string throws. *)
Theorem mapUserStatus_labels (value : JsVal) :
  (forall s, value = JStr s ->
     if existsb (String.eqb (toLowerCase s)) lowerCaseBuiltins
     then mapUserStatus value = Return (Builtin (toLowerCase s))
          /\ mapTransactionType value = Return (Builtin (toLowerCase s))
     else exists status type,
            mapUserStatus value = Return (Label status) /\ status ∈ statusLabels
            /\ mapTransactionType value = Return (Label type) /\ type ∈ typeLabels)
  /\ (value = JNull \/ value = JUndefined ->
      mapUserStatus value = Return (Label "INACTIVE")
      /\ mapTransactionType value = Return (Label "OTHER"))
  /\ ((forall s, value <> JStr s) -> value <> JNull -> value <> JUndefined ->
      returns (mapUserStatus value) = false /\ returns (mapTransactionType value) = false).
Proof.
  split_and!.
  - intros s ->. rewrite mapThrough_statusMap, mapThrough_typeMap. cbn zeta.
    destruct (existsb _ lowerCaseBuiltins); [done|].
    unfold statusMap, typeMap. cbn [assoc].
    repeat match goal with
           | |- context [String.eqb ?a (toLowerCase s)] =>
               destruct (String.eqb a (toLowerCase s))
           end;
      eexists _, _; split_and!; try reflexivity; apply list_elem_of_In; cbn; tauto.
  - intros [-> | ->]; split; reflexivity.
  - intros Hs Hn Hu. destruct value; try done. by destruct (Hs s).
Qed.

Example status_constructor :
  mapUserStatus (JStr "Constructor") = Return (Builtin "constructor")
  /\ mapUserStatus (JStr "Active") = Return (Label "ACTIVE")
  /\ mapUserStatus (JStr "deleted") = Return (Label "INACTIVE").
Proof. vm_compute. split_and!; reflexivity. Qed.

End Helpers.

(* ===================================================================== *)
(** * The connection with retries
      (connect of src/etl/extractors/dataExtractor.js and of the DataLoader;
      the two methods differ in the pool they create only) *)
(* ===================================================================== *)

Module Retry.

(** The fields that [connect] reads and writes, and the number of pools
    created so far. *)
Record Connection := {
  isConnected : bool;
  hasPool : bool;
  connectionRetries : Z;
  poolsCreated : nat
}.

Definition fresh : Connection :=
  {| isConnected := false; hasPool := false; connectionRetries := 0; poolsCreated := 0 |}.

Section WithServer.

(** [ETLConfig.general.maxRetries], and what happens to the [k]-th pool
    that is created: acquiring a client from it and running [SELECT 1]
    succeed, or one of them throws. *)
Variable maxRetries : Z.
Variable attempt : nat -> Completion unit.

(** [connect]; the call after a failed attempt is the recursive one.
    [None]: the calls allowed were not enough. *)
Fixpoint connect (fuel : nat) (c : Connection) : option (Completion unit * Connection) :=
  if isConnected c && hasPool c then Some (Return tt, c)
  else
    match fuel with
    | O => None
    | S fuel' =>
        match attempt (poolsCreated c) with
        | Return _ =>
            Some (Return tt,
                  {| isConnected := true; hasPool := true; connectionRetries := 0;
                     poolsCreated := S (poolsCreated c) |})
        | Throw _ =>
            let c' := {| isConnected := isConnected c; hasPool := true;
                         connectionRetries := connectionRetries c + 1;
                         poolsCreated := S (poolsCreated c) |} in
            if connectionRetries c' <? maxRetries
            then connect fuel' c'
            else Some (Throw (PlainError "failed to connect after the maximum of attempts"), c')
        end
    end.

(** The attempts that a call may make: what is left of [maxRetries], and
    one at least. *)
Definition budget (c : Connection) : nat :=
  Z.to_nat (Z.max 1 (maxRetries - connectionRetries c)).

Lemma connect_attempts fuel : forall c,
  isConnected c = false ->
  (budget c <= fuel)%nat ->
  exists r c',
    connect fuel c = Some (r, c')
    /\ (poolsCreated c < poolsCreated c' <= poolsCreated c + budget c)%nat
    /\ (forall k, (poolsCreated c <= k)%nat -> (S k < poolsCreated c')%nat ->
          returns (attempt k) = false)
    /\ returns r = returns (attempt (pred (poolsCreated c')))
    /\ (returns r = true -> isConnected c' = true /\ connectionRetries c' = 0)
    /\ (returns r = false ->
          poolsCreated c' = (poolsCreated c + budget c)%nat
          /\ connectionRetries c' = connectionRetries c + Z.of_nat (budget c)
          /\ isConnected c' = false).
Proof.
  induction fuel as [|fuel IH]; intros c Hoff Hfuel; [unfold budget in Hfuel; lia|].
  cbn [connect].
  destruct (isConnected c && hasPool c) eqn:Hand; [rewrite Hoff in Hand; discriminate|].
  destruct (attempt (poolsCreated c)) as [[]|e] eqn:Ha.
  - eexists _, _. split; [reflexivity|]. cbn. unfold budget.
    split_and!; try done; try lia. by rewrite Ha.
  - cbn [connectionRetries].
    destruct (Z.ltb_spec (connectionRetries c + 1) maxRetries) as [Hmore|Hlast].
    + set (c' := {| isConnected := isConnected c; hasPool := true;
                    connectionRetries := connectionRetries c + 1;
                    poolsCreated := S (poolsCreated c) |}).
      assert (Hb : budget c = S (budget c')) by (unfold budget; cbn; lia).
      assert (Hoff' : isConnected c' = false) by exact Hoff.
      assert (Hfuel' : (budget c' <= fuel)%nat) by lia.
      assert (Hp : poolsCreated c' = S (poolsCreated c)) by reflexivity.
      assert (Hq : connectionRetries c' = connectionRetries c + 1) by reflexivity.
      destruct (IH c' Hoff' Hfuel') as (r & c'' & E & Hn & Hf & Hr & Hok & Hko).
      exists r, c''. split; [exact E|]. clearbody c'. rewrite Hp, ?Hq in *.
      split_and!; try done; try lia.
      all: try (intros k Hk Hk'; destruct (decide (k = poolsCreated c)) as [->|Hne];
                [by rewrite Ha | apply Hf; lia]).
      all: intros Hfalse; destruct (Hko Hfalse) as (? & ? & ?); split_and!; try done; lia.
    + eexists _, _. split; [reflexivity|]. cbn. unfold budget.
      split_and!; try done; try lia.
      all: try (intros k Hk Hk'; lia).
      all: try (by rewrite Ha).
      all: intros _; split_and!; try done; lia.
Qed.

(** X13. A connected object makes no attempt. Otherwise [connect]
    creates a pool per attempt, at most [maxRetries - connectionRetries] of
    them and one at least: it stops at the first attempt that succeeds,
    which sets [isConnected] and resets the counter, or throws when all have
    failed, leaving the counter raised by their number. The counter is not
    reset by a failure, so once [maxRetries] attempts have failed every
    later call makes a single attempt. *)
Theorem connect_retries_within_budget (fuel : nat) (c : Connection) :
  (isConnected c = true -> hasPool c = true -> connect fuel c = Some (Return tt, c))
  /\ (isConnected c = false -> (budget c <= fuel)%nat ->
      exists r c',
        connect fuel c = Some (r, c')
        /\ (poolsCreated c < poolsCreated c' <= poolsCreated c + budget c)%nat
        /\ (forall k, (poolsCreated c <= k)%nat -> (S k < poolsCreated c')%nat ->
              returns (attempt k) = false)
        /\ returns r = returns (attempt (pred (poolsCreated c')))
        /\ (returns r = true -> isConnected c' = true /\ connectionRetries c' = 0)
        /\ (returns r = false ->
              poolsCreated c' = (poolsCreated c + budget c)%nat
              /\ connectionRetries c' = connectionRetries c + Z.of_nat (budget c)
              /\ isConnected c' = false))
  /\ (maxRetries <= connectionRetries c -> budget c = 1%nat).
Proof.
  split_and!.
  - intros H1 H2. destruct fuel; cbn [connect]; rewrite H1, H2; reflexivity.
  - apply connect_attempts.
  - intros H. unfold budget. lia.
Qed.

End WithServer.

(** ** A server that is down for four attempts *)

Definition downForFour (k : nat) : Completion unit :=
  if (k <? 4)%nat then Throw (PlainError "connection refused") else Return tt.

Definition connectionAfter (run : option (Completion unit * Connection)) : Connection :=
  match run with
  | Some (_, c) => c
  | None => fresh
  end.

(** With [maxRetries = 3] the first call gives up after three pools, the
    second after one more, and the third connects with the fifth pool. *)
Example three_calls :
  let first := connect 3 downForFour 3 fresh in
  let second := connect 3 downForFour 1 (connectionAfter first) in
  let third := connect 3 downForFour 1 (connectionAfter second) in
  (returns <$> (fst <$> first), connectionAfter first)
  = (Some false, {| isConnected := false; hasPool := true; connectionRetries := 3;
                    poolsCreated := 3 |})
  /\ (returns <$> (fst <$> second), connectionAfter second)
     = (Some false, {| isConnected := false; hasPool := true; connectionRetries := 4;
                       poolsCreated := 4 |})
  /\ (returns <$> (fst <$> third), connectionAfter third)
     = (Some true, {| isConnected := true; hasPool := true; connectionRetries := 0;
                      poolsCreated := 5 |}).
Proof. vm_compute. split_and!; reflexivity. Qed.

End Retry.

(* ===================================================================== *)
(** * DataModel: the statements built with a parameter counter
      (src/models/dataModel.js: getUserAnalytics, getDataExports,
      getExternalData) *)
(* ===================================================================== *)

Module ModelQueries.

(** A piece of the text of a statement: literal text (with the names that
    the template splices in), or the placeholder [$n]. *)
Inductive Piece :=
| Text (s : string)
| Placeholder (n : N).

(** The text and the values handed to [client.query], with the counter
    [paramIndex] while the statement is built. *)
Record Building := {
  text : list Piece;
  params : list JsVal;
  paramIndex : N
}.

(** [if (value) { query += clause + '$' + paramIndex; params.push(value);
    paramIndex++ }] *)
Definition andWhere (clause : string) (value : JsVal) (b : Building) : Building :=
  if truthy value then
    {| text := text b ++ [Text clause; Placeholder (paramIndex b)];
       params := params b ++ [value];
       paramIndex := paramIndex b + 1 |}
  else b.

Definition append (s : string) (b : Building) : Building :=
  {| text := text b ++ [Text s]; params := params b; paramIndex := paramIndex b |}.

(** The LIMIT clause, which leaves the counter as it is. *)
Definition limitTo (value : JsVal) (b : Building) : Building :=
  if truthy value then
    {| text := text b ++ [Text " LIMIT "; Placeholder (paramIndex b)];
       params := params b ++ [value];
       paramIndex := paramIndex b |}
  else b.

(** [getExternalData(tableName, filters, limit)], up to the call of the
    client. *)
Definition getExternalData (tableName : string) (filters : Sync.Filters) (limit : JsVal)
    : Building :=
  let b := {| text := [Text "SELECT * FROM "; Text tableName; Text " WHERE 1=1"];
              params := []; paramIndex := 1 |} in
  let b := andWhere " AND created_at >= " (Sync.dateFrom filters) b in
  let b := andWhere " AND created_at <= " (Sync.dateTo filters) b in
  let b := andWhere " AND user_id = " (Sync.userId filters) b in
  let b := andWhere " AND affiliate_id = " (Sync.affiliateId filters) b in
  let b := append " ORDER BY created_at DESC" b in
  limitTo limit b.

(** [getUserAnalytics(userId, periodType, periodStart, periodEnd)] *)
Definition getUserAnalytics (userId periodType periodStart periodEnd : JsVal) : Building :=
  let b := {| text := [Text "SELECT * FROM user_analytics WHERE user_id = "; Placeholder 1];
              params := [userId]; paramIndex := 2 |} in
  let b := andWhere " AND period_type = " periodType b in
  let b := andWhere " AND period_start >= " periodStart b in
  let b := andWhere " AND period_end <= " periodEnd b in
  append " ORDER BY period_start DESC" b.

(** The filters of [getDataExports]. *)
Record ExportFilters := {
  ef_requested_by : JsVal;
  ef_status : JsVal;
  ef_export_type : JsVal;
  ef_limit : JsVal
}.

Definition getDataExports (filters : ExportFilters) : Building :=
  let b := {| text := [Text "SELECT * FROM data_exports WHERE 1=1"];
              params := []; paramIndex := 1 |} in
  let b := andWhere " AND requested_by = " (ef_requested_by filters) b in
  let b := andWhere " AND status = " (ef_status filters) b in
  let b := andWhere " AND export_type = " (ef_export_type filters) b in
  let b := append " ORDER BY created_at DESC" b in
  limitTo (ef_limit filters) b.

(** The placeholders of a text, in order. *)
Definition placeholders (pieces : list Piece) : list N :=
  omap (fun piece => match piece with Placeholder n => Some n | Text _ => None end) pieces.

(** The values that are kept: the truthy ones. *)
Definition kept (values : list JsVal) : list JsVal := List.filter truthy values.

(** The counter is one ahead of the values, and the placeholders count
    them. *)
Definition numbered (b : Building) : Prop :=
  placeholders (text b) = map N.of_nat (seq 1 (length (params b)))
  /\ paramIndex b = N.of_nat (S (length (params b))).

Lemma placeholders_app a b : placeholders (a ++ b) = placeholders a ++ placeholders b.
Proof. unfold placeholders. apply omap_app. Qed.

Lemma numbered_andWhere clause value b :
  numbered b -> numbered (andWhere clause value b)
  /\ params (andWhere clause value b) = params b ++ kept [value].
Proof.
  intros [Hp Hi]. unfold andWhere, kept. cbn [List.filter].
  destruct (truthy value); cbn [text params paramIndex].
  - split; [|reflexivity]. split; cbn [text params paramIndex].
    + rewrite placeholders_app, Hp, length_app, Hi. cbn [length placeholders omap].
      rewrite Nat.add_1_r, seq_S, map_app. reflexivity.
    + rewrite length_app, Hi. cbn [length]. lia.
  - rewrite app_nil_r. done.
Qed.

Lemma numbered_append s b : numbered b -> numbered (append s b).
Proof.
  intros [Hp Hi]. split; [|exact Hi]. cbn [append text params].
  rewrite placeholders_app, Hp. cbn. apply app_nil_r.
Qed.

Lemma limitTo_placeholders value b :
  numbered b ->
  placeholders (text (limitTo value b)) = map N.of_nat (seq 1 (length (params (limitTo value b))))
  /\ params (limitTo value b) = params b ++ kept [value].
Proof.
  intros [Hp Hi]. unfold limitTo, kept. cbn [List.filter].
  destruct (truthy value); cbn [text params paramIndex].
  - split; [|reflexivity].
    rewrite placeholders_app, Hp, length_app, Hi. cbn [length placeholders omap].
    rewrite Nat.add_1_r, seq_S, map_app. reflexivity.
  - rewrite app_nil_r. done.
Qed.


(** X15. The statements of [getUserAnalytics] and [getDataExports] number
    their placeholders [$1] to [$n] in the order of their [n] values: the
    user id and the truthy ones among the period type, start and end; the
    truthy ones among [requested_by], [status], [export_type] and
    [limit]. *)
Theorem optional_filters_are_numbered userId periodType periodStart periodEnd
    (filters : ExportFilters) :
  let analytics := getUserAnalytics userId periodType periodStart periodEnd in
  let exports := getDataExports filters in
  params analytics = userId :: kept [periodType; periodStart; periodEnd]
  /\ placeholders (text analytics) = map N.of_nat (seq 1 (length (params analytics)))
  /\ params exports
     = kept [ef_requested_by filters; ef_status filters; ef_export_type filters;
             ef_limit filters]
  /\ placeholders (text exports) = map N.of_nat (seq 1 (length (params exports))).
Proof.
  cbn zeta. unfold getUserAnalytics, getDataExports.
  set (a0 := {| text := [Text "SELECT * FROM user_analytics WHERE user_id = "; Placeholder 1];
                params := [userId]; paramIndex := 2 |}).
  assert (Ha0 : numbered a0) by (split; reflexivity).
  destruct (numbered_andWhere " AND period_type = " periodType a0 Ha0) as [Ha1 Ea1].
  set (a1 := andWhere _ _ a0) in *.
  destruct (numbered_andWhere " AND period_start >= " periodStart a1 Ha1) as [Ha2 Ea2].
  set (a2 := andWhere _ _ a1) in *.
  destruct (numbered_andWhere " AND period_end <= " periodEnd a2 Ha2) as [Ha3 Ea3].
  set (a3 := andWhere _ _ a2) in *.
  destruct (numbered_append " ORDER BY period_start DESC" a3 Ha3) as [Ha4 _].
  set (b0 := {| text := [Text "SELECT * FROM data_exports WHERE 1=1"];
                params := []; paramIndex := 1 |}).
  assert (Hb0 : numbered b0) by (split; reflexivity).
  destruct (numbered_andWhere " AND requested_by = " (ef_requested_by filters) b0 Hb0)
    as [Hb1 Eb1].
  set (b1 := andWhere _ _ b0) in *.
  destruct (numbered_andWhere " AND status = " (ef_status filters) b1 Hb1) as [Hb2 Eb2].
  set (b2 := andWhere _ _ b1) in *.
  destruct (numbered_andWhere " AND export_type = " (ef_export_type filters) b2 Hb2)
    as [Hb3 Eb3].
  set (b3 := andWhere _ _ b2) in *.
  pose proof (numbered_append " ORDER BY created_at DESC" b3 Hb3) as Hb4.
  destruct (limitTo_placeholders (ef_limit filters) _ Hb4) as [Hb5 Eb5].
  split_and!.
  - cbn [append params]. rewrite Ea3, Ea2, Ea1. unfold kept. cbn [List.filter params a0].
    repeat match goal with |- context [if ?c then _ else _] => destruct c end; reflexivity.
  - exact Ha4.
  - rewrite Eb5. cbn [append params]. rewrite Eb3, Eb2, Eb1. unfold kept.
    cbn [List.filter params b0].
    repeat match goal with |- context [if ?c then _ else _] => destruct c end; reflexivity.
  - exact Hb5.
Qed.

(** The statement for the analytics of user 0 in a period. *)
Example statement_for_user_zero :
  getExternalData "transactions"
    {| Sync.dateFrom := JDate (Some 0); Sync.dateTo := JDate (Some 86399999);
       Sync.userId := JNum 0; Sync.affiliateId := JUndefined |} (JNum 1000)
  = {| text := [Text "SELECT * FROM "; Text "transactions"; Text " WHERE 1=1";
                Text " AND created_at >= "; Placeholder 1;
                Text " AND created_at <= "; Placeholder 2;
                Text " ORDER BY created_at DESC"; Text " LIMIT "; Placeholder 3];
       params := [JDate (Some 0); JDate (Some 86399999); JNum 1000];
       paramIndex := 3 |}.
Proof. vm_compute. reflexivity. Qed.

End ModelQueries.

(* ===================================================================== *)
(** * DataService: the periods of the analytics
      (src/services/dataService.js, getPeriodRange and generateUserAnalytics) *)
(* ===================================================================== *)

Module Periods.

Import Moment Analytics.

#[local] Transparent startOf endOf.

Ltac months :=
  repeat match goal with
         | H : context [monthStart ?l ?k] |- _ =>
             let v := eval vm_compute in (monthStart l k) in
             change (monthStart l k) with v in H
         | |- context [monthStart ?l ?k] =>
             let v := eval vm_compute in (monthStart l k) in
             change (monthStart l k) with v
         end.

(** A day between the first of a month and the first of the next one lies
    in that month. *)
Lemma day_in_month y m d :
  0 <= m <= 11 ->
  MakeDay y m 1 <= d < MakeDay y (m + 1) 1 ->
  YearFromDay d = y /\ MonthFromDay d = m.
Proof.
  intros Hm Hd.
  assert (Hup : MakeDay y (m + 1) 1 = DayFromYear y + monthStart (InLeapYear y) (m + 1)).
  { destruct (Z.eq_dec m 11) as [->|Hne].
    - change (11 + 1) with 12. rewrite MakeDay_next_year, DayFromYear_succ, monthStart_12.
      unfold DaysInYear. destruct (InLeapYear y); lia.
    - rewrite MakeDay_in_year by lia. lia. }
  rewrite MakeDay_in_year in Hd by lia. rewrite Hup in Hd. clear Hup.
  set (leap := InLeapYear y) in *.
  assert (Hcases : m = 0 \/ m = 1 \/ m = 2 \/ m = 3 \/ m = 4 \/ m = 5 \/ m = 6 \/ m = 7
                   \/ m = 8 \/ m = 9 \/ m = 10 \/ m = 11) by lia.
  assert (Hy : YearFromDay d = y).
  { apply YearFromDay_unique. rewrite DayFromYear_succ. unfold DaysInYear.
    fold leap. clearbody leap.
    destruct leap;
      destruct Hcases as [->|[->|[->|[->|[->|[->|[->|[->|[->|[->|[->| ->]]]]]]]]]]];
      months; lia. }
  split; [exact Hy|].
  destruct (MonthFromDay_spec d) as [Hm' Hs]. cbn zeta in Hs.
  unfold DayWithinYear in Hs. rewrite Hy in Hs. fold leap in Hs.
  set (m' := MonthFromDay d) in *. clearbody m' leap.
  assert (Hcases' : m' = 0 \/ m' = 1 \/ m' = 2 \/ m' = 3 \/ m' = 4 \/ m' = 5 \/ m' = 6
                    \/ m' = 7 \/ m' = 8 \/ m' = 9 \/ m' = 10 \/ m' = 11) by lia.
  destruct leap;
    destruct Hcases as [->|[->|[->|[->|[->|[->|[->|[->|[->|[->|[->| ->]]]]]]]]]]];
    destruct Hcases' as [->|[->|[->|[->|[->|[->|[->|[->|[->|[->|[->| ->]]]]]]]]]]];
    months; lia.
Qed.

Section SamePeriod.

Variable zoneOffset : Z.

Lemma localDay_between d t :
  d * msPerDay - zoneOffset <= t < (d + 1) * msPerDay - zoneOffset ->
  localDay zoneOffset t = d.
Proof. unfold localDay, Day, msPerDay. intros H. Z.div_mod_to_equations. lia. Qed.

Lemma localDay_monotone t t' : t <= t' -> localDay zoneOffset t <= localDay zoneOffset t'.
Proof. unfold localDay, Day, msPerDay. intros H. Z.div_mod_to_equations. lia. Qed.

Lemma startOf_day t :
  startOf zoneOffset UDay t = localDay zoneOffset t * msPerDay - zoneOffset
  /\ endOf zoneOffset UDay t = (localDay zoneOffset t + 1) * msPerDay - zoneOffset - 1.
Proof.
  unfold startOf, endOf, localStartOfDate, year, month, date.
  rewrite MakeDay_shift, MakeDay_of_day. split; reflexivity.
Qed.

Lemma startOf_week t :
  let first := localDay zoneOffset t - WeekDay (localDay zoneOffset t) in
  startOf zoneOffset UWeek t = first * msPerDay - zoneOffset
  /\ endOf zoneOffset UWeek t = (first + 7) * msPerDay - zoneOffset - 1.
Proof.
  cbn zeta. unfold startOf, endOf, localStartOfDate, year, month, date, weekday, day, localeDow.
  replace (DateFromDay (localDay zoneOffset t)
           - (WeekDay (localDay zoneOffset t) + 7 - 0) mod 7 + 7)
    with (DateFromDay (localDay zoneOffset t)
          + (7 - (WeekDay (localDay zoneOffset t) + 7 - 0) mod 7)) by lia.
  replace (DateFromDay (localDay zoneOffset t)
           - (WeekDay (localDay zoneOffset t) + 7 - 0) mod 7)
    with (DateFromDay (localDay zoneOffset t)
          + (- ((WeekDay (localDay zoneOffset t) + 7 - 0) mod 7))) by lia.
  rewrite !MakeDay_shift, MakeDay_of_day.
  assert (Hw : (WeekDay (localDay zoneOffset t) + 7 - 0) mod 7
               = WeekDay (localDay zoneOffset t))
    by (unfold WeekDay; Z.div_mod_to_equations; lia).
  rewrite Hw. split; f_equal; f_equal; lia.
Qed.

Lemma same_day t t' :
  startOf zoneOffset UDay t <= t' <= endOf zoneOffset UDay t ->
  localDay zoneOffset t' = localDay zoneOffset t.
Proof.
  destruct (startOf_day t) as [-> ->]. intros H. apply localDay_between. lia.
Qed.

Lemma same_week t t' :
  startOf zoneOffset UWeek t <= t' <= endOf zoneOffset UWeek t ->
  localDay zoneOffset t' - WeekDay (localDay zoneOffset t')
  = localDay zoneOffset t - WeekDay (localDay zoneOffset t).
Proof.
  destruct (startOf_week t) as [-> ->]. intros H.
  pose proof (localDay_bounds zoneOffset t') as Hb.
  unfold WeekDay, msPerDay in *. Z.div_mod_to_equations. lia.
Qed.

Lemma same_month t t' :
  startOf zoneOffset UMonth t <= t' <= endOf zoneOffset UMonth t ->
  year zoneOffset t' = year zoneOffset t /\ month zoneOffset t' = month zoneOffset t.
Proof.
  unfold startOf, endOf, localStartOfDate. intros H.
  destruct (MonthFromDay_spec (localDay zoneOffset t)) as [Hm _].
  apply day_in_month; [exact Hm|].
  pose proof (localDay_bounds zoneOffset t') as Hb.
  unfold year, month, msPerDay in *. lia.
Qed.

Lemma same_year t t' :
  startOf zoneOffset UYear t <= t' <= endOf zoneOffset UYear t ->
  year zoneOffset t' = year zoneOffset t.
Proof.
  unfold startOf, endOf, localStartOfDate. intros H.
  apply YearFromDay_unique.
  pose proof (localDay_bounds zoneOffset t') as Hb.
  rewrite !MakeDay_in_year in H by lia. cbn [monthStart] in H.
  unfold year, msPerDay in *. lia.
Qed.

Lemma period_of_day t t' :
  startOf zoneOffset UDay t <= t' <= endOf zoneOffset UDay t ->
  startOf zoneOffset UDay t' = startOf zoneOffset UDay t
  /\ endOf zoneOffset UDay t' = endOf zoneOffset UDay t.
Proof.
  intros H. apply same_day in H.
  destruct (startOf_day t) as [-> ->]. destruct (startOf_day t') as [-> ->].
  by rewrite H.
Qed.

Lemma period_of_week t t' :
  startOf zoneOffset UWeek t <= t' <= endOf zoneOffset UWeek t ->
  startOf zoneOffset UWeek t' = startOf zoneOffset UWeek t
  /\ endOf zoneOffset UWeek t' = endOf zoneOffset UWeek t.
Proof.
  intros H. apply same_week in H.
  destruct (startOf_week t) as [-> ->]. destruct (startOf_week t') as [-> ->].
  by rewrite H.
Qed.

Lemma period_of_month t t' :
  startOf zoneOffset UMonth t <= t' <= endOf zoneOffset UMonth t ->
  startOf zoneOffset UMonth t' = startOf zoneOffset UMonth t
  /\ endOf zoneOffset UMonth t' = endOf zoneOffset UMonth t.
Proof.
  intros H. apply same_month in H as [Hy Hm]. unfold startOf, endOf. by rewrite Hy, Hm.
Qed.

Lemma period_of_year t t' :
  startOf zoneOffset UYear t <= t' <= endOf zoneOffset UYear t ->
  startOf zoneOffset UYear t' = startOf zoneOffset UYear t
  /\ endOf zoneOffset UYear t' = endOf zoneOffset UYear t.
Proof.
  intros H. apply same_year in H. unfold startOf, endOf. by rewrite H.
Qed.

#[local] Opaque startOf endOf.


End SamePeriod.

Section Errors.

Variable zoneOffset : Z.
Variable getExternalData : string -> Filters -> Completion (list Obj).
Variable cpaValidationRules : Completion unit.
Variable cpaLevel1 : Completion JsVal.
Variable now : Z.
Variable dateExtremes : list Obj -> JsVal * JsVal.
Variable distinctDays : list Obj -> nat.
Variable accepts : Model.UserAnalytics -> bool.
Variable rejection : Model.UserAnalytics -> JsError.

(** X20. [generateUserAnalytics] throws for an unknown period type and
    when the write is refused, and in no other case: when a read of the
    external database or the read of the CPA rules throws, or when the user
    is not found, it returns null and writes nothing, so that a failure of
    the external database looks like a user without data. *)
Theorem generateUserAnalytics_swallows_read_errors userId periodType specificDate
    (t : Model.Table) :
  let run := generateUserAnalytics zoneOffset getExternalData cpaValidationRules cpaLevel1
               now dateExtremes distinctDays accepts rejection userId periodType
               specificDate t in
  let quiet := run = (Return None, t) in
  match getPeriodRange zoneOffset (default now specificDate) periodType with
  | Throw error => run = (Throw error, t)
  | Return (periodStart, periodEnd) =>
      let user := {| f_userId := userId; f_dateFrom := None; f_dateTo := None |} in
      let window := {| f_userId := userId; f_dateFrom := Some periodStart;
                       f_dateTo := Some periodEnd |} in
      (returns (getExternalData "users" user) = false -> quiet)
      /\ (getExternalData "users" user = Return [] -> quiet)
      /\ (returns (getExternalData "transactions" window) = false -> quiet)
      /\ (returns (getExternalData "bets" window) = false -> quiet)
      /\ (returns (getExternalData "deposits" window) = false -> quiet)
      /\ (returns cpaValidationRules = false -> quiet)
      /\ (forall error, fst run = Throw error ->
            exists analytics,
              analyticsToWrite zoneOffset getExternalData cpaValidationRules cpaLevel1 now
                dateExtremes distinctDays userId periodType specificDate
              = Return (Some analytics)
              /\ fst (Model.upsertUserAnalytics accepts rejection now analytics t)
                 = Throw error)
  end.
Proof.
  cbn zeta. unfold generateUserAnalytics, analyticsToWrite.
  destruct (getPeriodRange zoneOffset (default now specificDate) periodType)
    as [[periodStart periodEnd]|error]; [|reflexivity].
  cbn [mbind completion_bind]. unfold getUserDataForPeriod, calculateCpaMetrics.
  destruct (getExternalData "users" _) as [[|user users]|e0]; cbn [mbind completion_bind].
  1, 3: split_and!; try reflexivity; intros; discriminate.
  destruct (getExternalData "transactions" _) as [transactions|e1];
    cbn [mbind completion_bind returns].
  2: split_and!; try reflexivity; intros; discriminate.
  destruct (getExternalData "bets" _) as [bets|e2]; cbn [mbind completion_bind returns].
  2: split_and!; try reflexivity; intros; discriminate.
  destruct (getExternalData "deposits" _) as [deposits|e3]; cbn [mbind completion_bind returns].
  2: split_and!; try reflexivity; intros; discriminate.
  destruct cpaValidationRules as [[]|e4]; cbn [mbind completion_bind returns].
  2: split_and!; try reflexivity; intros; discriminate.
  match goal with
  | |- context [if ?q then _ else _] => destruct q
  end; [destruct cpaLevel1 as [level|e5]|]; cbn [mbind completion_bind];
    (split_and!; try discriminate; try (intros; discriminate));
    try (intros error Herr; eexists; split; [reflexivity|]; revert Herr;
         destruct (Model.upsertUserAnalytics accepts rejection now _ t) as [[row|e6] t'];
         cbn [fst]; [discriminate | by intros [= ->]]).
Qed.

End Errors.


End Periods.

(* ===================================================================== *)
(** * DataService: the processing of a chunk
      (src/services/dataService.js, processDataChunk and the four
      process...Chunk methods) *)
(* ===================================================================== *)

Module Chunks.

(** What the chunk methods send to the logger. *)
Inductive LogEntry :=
| ErrorUser (id : JsVal) (message : string)
| ErrorGroup (table userId : string) (message : string)
| WarnUnknownTable (tableName : string).

(** [this.updateUserAnalyticsFromTransactions], [...FromBets] and
    [...FromDeposits] are defined nowhere: calling them throws. *)
Definition undefinedMethod (name : string) : JsError :=
  TypeError ("this." ++ name ++ " is not a function").

Section WithCollaborators.

(** [generateUserAnalytics] acts on a state [W] (the analytics table and
    whatever else it touches) and may throw; lodash's [groupBy] gives the
    groups of the rows by the text of a column, in the order of
    [Object.entries]. *)
Context {W : Type}.
Variable generateUserAnalytics : JsVal -> string -> W -> Completion unit * W.
Variable groupBy : list Obj -> string -> list (string * list Obj).

Fixpoint processUsersChunk (users : list Obj) (s : W * list LogEntry)
    : Completion unit * (W * list LogEntry) :=
  match users with
  | [] => (Return tt, s)
  | user :: rest =>
      match generateUserAnalytics (get user "id") "DAILY" (fst s) with
      | (Return _, w') => processUsersChunk rest (w', snd s)
      | (Throw error, w') =>
          processUsersChunk rest
            (w', snd s ++ [ErrorUser (get user "id") (err_message error)])
      end
  end.

(** The loop over the groups of [processTransactionsChunk],
    [processBetsChunk] and [processDepositsChunk]: the call in the [try]
    block throws, and the [catch] logs. *)
Fixpoint processGroups (table method : string) (groups : list (string * list Obj))
    (s : W * list LogEntry) : Completion unit * (W * list LogEntry) :=
  match groups with
  | [] => (Return tt, s)
  | (userId, rows) :: rest =>
      match (Throw (undefinedMethod method) : Completion unit) with
      | Return _ => processGroups table method rest s
      | Throw error =>
          processGroups table method rest
            (fst s, snd s ++ [ErrorGroup table userId (err_message error)])
      end
  end.

Definition processDataChunk (tableName : string) (dataChunk : list Obj)
    (s : W * list LogEntry) : Completion unit * (W * list LogEntry) :=
  if String.eqb tableName "users" then processUsersChunk dataChunk s
  else if String.eqb tableName "transactions" then
    processGroups "transactions" "updateUserAnalyticsFromTransactions"
      (groupBy dataChunk "user_id") s
  else if String.eqb tableName "bets" then
    processGroups "bets" "updateUserAnalyticsFromBets" (groupBy dataChunk "user_id") s
  else if String.eqb tableName "deposits" then
    processGroups "deposits" "updateUserAnalyticsFromDeposits" (groupBy dataChunk "user_id") s
  else (Return tt, (fst s, snd s ++ [WarnUnknownTable tableName])).

(** ** Properties *)

Lemma processUsersChunk_returns users : forall s,
  fst (processUsersChunk users s) = Return tt.
Proof.
  induction users as [|user rest IH]; intros s; cbn [processUsersChunk]; [reflexivity|].
  destruct (generateUserAnalytics _ _ _) as [[[]|e] w']; apply IH.
Qed.

Lemma processGroups_idle table method groups : forall s,
  fst (processGroups table method groups s) = Return tt
  /\ fst (snd (processGroups table method groups s)) = fst s
  /\ snd (snd (processGroups table method groups s))
     = snd s ++ map (fun group => ErrorGroup table (fst group)
                                    (err_message (undefinedMethod method))) groups.
Proof.
  induction groups as [|[userId rows] rest IH]; intros s; cbn [processGroups map].
  - by rewrite app_nil_r.
  - destruct (IH (fst s, snd s ++ [ErrorGroup table userId
                                     (err_message (undefinedMethod method))]))
      as (Hr & Hw & Hl).
    rewrite Hr, Hw, Hl. cbn [fst snd]. by rewrite <- app_assoc.
Qed.

Lemma processDataChunk_returns tableName (dataChunk : list Obj) (s : W * list LogEntry) :
  fst (processDataChunk tableName dataChunk s) = Return tt.
Proof.
  unfold processDataChunk.
  destruct (String.eqb tableName "users"); [apply processUsersChunk_returns|].
  destruct (String.eqb tableName "transactions"); [apply processGroups_idle|].
  destruct (String.eqb tableName "bets"); [apply processGroups_idle|].
  destruct (String.eqb tableName "deposits"); [apply processGroups_idle|].
  reflexivity.
Qed.

(** X22. [processDataChunk] never throws, for any table and any rows: the
    users are processed one by one with their errors caught; for
    transactions, bets and deposits each group of rows fails on the call of
    a method that does not exist, which is caught and logged, so that
    nothing is computed or written for them; an unknown table only logs a
    warning. *)
Theorem processDataChunk_never_throws tableName (dataChunk : list Obj)
    (s : W * list LogEntry) :
  fst (processDataChunk tableName dataChunk s) = Return tt
  /\ (tableName <> "users" -> fst (snd (processDataChunk tableName dataChunk s)) = fst s)
  /\ (tableName ∈ ["transactions"; "bets"; "deposits"] ->
      exists method,
        snd (snd (processDataChunk tableName dataChunk s))
        = snd s ++ map (fun group => ErrorGroup tableName (fst group)
                                       (err_message (undefinedMethod method)))
                     (groupBy dataChunk "user_id")).
Proof.
  unfold processDataChunk.
  destruct (String.eqb_spec tableName "users") as [->|Hu].
  { split_and!; [apply processUsersChunk_returns | done |].
    intros H. apply list_elem_of_In in H. cbn in H. intuition discriminate. }
  destruct (String.eqb_spec tableName "transactions") as [->|Ht].
  { destruct (processGroups_idle "transactions" "updateUserAnalyticsFromTransactions"
                (groupBy dataChunk "user_id") s) as (Hr & Hw & Hl).
    split_and!; [done | done | intros _; by eexists]. }
  destruct (String.eqb_spec tableName "bets") as [->|Hb].
  { destruct (processGroups_idle "bets" "updateUserAnalyticsFromBets"
                (groupBy dataChunk "user_id") s) as (Hr & Hw & Hl).
    split_and!; [done | done | intros _; by eexists]. }
  destruct (String.eqb_spec tableName "deposits") as [->|Hd].
  { destruct (processGroups_idle "deposits" "updateUserAnalyticsFromDeposits"
                (groupBy dataChunk "user_id") s) as (Hr & Hw & Hl).
    split_and!; [done | done | intros _; by eexists]. }
  split_and!; [reflexivity | done |].
  intros H. apply list_elem_of_In in H. cbn in H. intuition congruence.
Qed.

End WithCollaborators.

(** ** What this means for syncExternalData *)

Section Sync.

Variable getDataSyncSettings : Completion Sync.SyncSettings.
Variable getExternalData : string -> Sync.Filters -> N -> Completion (list Obj).
Variable processChunk : nat -> string -> list Obj -> Completion unit.
Variable logStatementFails : Sync.LogStatement -> option JsError.

Lemma processChunks_all_succeed tableName :
  (forall index chunk, returns (processChunk index tableName chunk) = true) ->
  forall chunks index success failed,
    Sync.processChunks processChunk tableName index chunks success failed
    = ((success + length (concat chunks))%nat, failed).
Proof.
  intros Hok. induction chunks as [|chunk rest IH]; intros index success failed;
    cbn [Sync.processChunks concat].
  - by rewrite Nat.add_0_r.
  - specialize (Hok index chunk).
    destruct (processChunk index tableName chunk); [|discriminate].
    rewrite IH, length_app. f_equal. lia.
Qed.

(** X23. Since the processing of a chunk cannot throw, a run of
    [syncExternalData] that returns reports no failed record:
    [recordsFailed] is 0 and [recordsSuccess] equals [recordsProcessed],
    whether or not anything was computed for the rows. *)
Theorem syncExternalData_counts_every_record_as_success tableName options logs result :
  (forall index chunk, returns (processChunk index tableName chunk) = true) ->
  fst (Sync.syncExternalData getDataSyncSettings getExternalData processChunk
         logStatementFails tableName options logs) = Return result ->
  Sync.recordsFailed result = 0%nat
  /\ Sync.recordsSuccess result = Sync.recordsProcessed result.
Proof.
  intros Hok. unfold Sync.syncExternalData.
  destruct getDataSyncSettings as [syncSettings|e0]; [|discriminate].
  set (batchSize := Sync.orN (Sync.o_batchSize options)
                      (Sync.orN (Some (Sync.batch_size syncSettings)) 1000)).
  assert (Hbs : (1 <= N.min batchSize 100)%N).
  { assert (1 <= batchSize)%N by (subst batchSize; repeat apply Sync.orN_positive; lia). lia. }
  destruct (Sync.createSyncLog logStatementFails _ _ _ logs) as [[logId|e1] logs1];
    [|discriminate].
  destruct (getExternalData _ _ _) as [externalData|e2].
  2:{ destruct (Sync.updateSyncLog _ _ _ _ _ _ _ _) as [[[]|?] ?]; discriminate. }
  rewrite (processChunks_all_succeed tableName Hok), (Sync.chunk_concat _ _ Hbs).
  destruct (Sync.updateSyncLog logStatementFails logId _ _ _ _ _ logs1) as [[[]|e3] logs2].
  - intros [= <-]. split; reflexivity.
  - destruct (Sync.updateSyncLog _ _ _ _ _ _ _ _) as [[[]|?] ?]; discriminate.
Qed.

End Sync.

(** ** Three deposits of two users *)

Definition threeDeposits : list Obj :=
  [ {["user_id" := JNum 1; "amount" := JStr "10.00"]};
    {["user_id" := JNum 2; "amount" := JStr "20.00"]};
    {["user_id" := JNum 1; "amount" := JStr "5.00"]} ].

(** The groups of the three deposits, as lodash makes them. *)
Definition depositGroups (rows : list Obj) (column : string) : list (string * list Obj) :=
  [ ("1", [ {["user_id" := JNum 1; "amount" := JStr "10.00"]};
            {["user_id" := JNum 1; "amount" := JStr "5.00"]} ]);
    ("2", [ {["user_id" := JNum 2; "amount" := JStr "20.00"]} ]) ].

Definition noAnalytics (userId : JsVal) (periodType : string) (w : unit)
    : Completion unit * unit := (Return tt, w).

Definition depositsChunk (index : nat) (tableName : string) (chunk : list Obj)
    : Completion unit :=
  fst (processDataChunk noAnalytics depositGroups tableName chunk (tt, [])).

Definition depositsRun : Completion Sync.SyncResult * Sync.Logs :=
  Sync.syncExternalData
    (Return {| Sync.batch_size := 500; Sync.max_retry_attempts := 3 |})
    (fun _ _ _ => Return threeDeposits) depositsChunk (fun _ => None) "deposits"
    {| Sync.o_batchSize := None; Sync.o_maxRetries := None;
       Sync.o_dateFrom := JUndefined; Sync.o_dateTo := JUndefined;
       Sync.o_userId := JUndefined; Sync.o_affiliateId := JUndefined |}
    {| Sync.logRows := ∅; Sync.nextLogId := 1 |}.

Definition depositsResult : Sync.SyncResult :=
  {| Sync.syncLogId := 1; Sync.recordsProcessed := 3; Sync.recordsSuccess := 3;
     Sync.recordsFailed := 0 |}.

(** The chunk logs one error per user and the run still counts the three
    deposits as successes. *)
Example deposits_are_not_processed :
  processDataChunk noAnalytics depositGroups "deposits" threeDeposits (tt, [])
  = (Return tt,
     (tt, [ ErrorGroup "deposits" "1" "this.updateUserAnalyticsFromDeposits is not a function";
            ErrorGroup "deposits" "2" "this.updateUserAnalyticsFromDeposits is not a function" ]))
  /\ fst depositsRun = Return depositsResult.
Proof. vm_compute. split; reflexivity. Qed.

Lemma syncExternalData_counts_every_record_as_success_witness :
  Sync.recordsFailed depositsResult = 0%nat
  /\ Sync.recordsSuccess depositsResult = Sync.recordsProcessed depositsResult.
Proof.
  apply (syncExternalData_counts_every_record_as_success
           (Return {| Sync.batch_size := 500; Sync.max_retry_attempts := 3 |})
           (fun _ _ _ => Return threeDeposits) depositsChunk (fun _ => None) "deposits"
           {| Sync.o_batchSize := None; Sync.o_maxRetries := None;
              Sync.o_dateFrom := JUndefined; Sync.o_dateTo := JUndefined;
              Sync.o_userId := JUndefined; Sync.o_affiliateId := JUndefined |}
           {| Sync.logRows := ∅; Sync.nextLogId := 1 |} depositsResult).
  - intros index chunk. unfold depositsChunk.
    by rewrite processDataChunk_returns.
  - vm_compute. reflexivity.
Defined.

End Chunks.
